(** * Neural-Network-Visualizer-Simulator: the network computation engine

    A shallow embedding of [src/types.ts], [src/utils/network.ts] and the
    Graph Editor callbacks of [src/App.tsx], with the properties of the
    specification proved (or refuted) against it; and of the rest of the
    state handling: the value editors, Reset, the training handler and the
    Forward Pass animation of [src/App.tsx], the [usePanAndZoom] hook, the
    mouse handlers of the canvas and the attributes that the connection
    and neuron components compute, with the properties that the code
    itself shows.

    Modelling conventions.
    - A JavaScript [number] that carries a measurement (weight, bias,
      activation, coordinate, ...) is an element of an abstract type [num]
      with the operations the source applies to it (class [Number]);
      [RNumber] interprets it in the real numbers.  Array positions and
      lengths ([layerIndex], [neuronIndex], loop counters) are [nat]; a
      negative or fractional [untilLayer] behaves like the natural number
      below it.
    - An optional field ([target?], [error?], [delta?], [gradient?]) is an
      [option]; a number in a condition is tested with [truthy].
    - [uuidv4()] and [Math.random()] read an explicit [World].
    - A [TypeError] (property access on [undefined]) is [None].
    - The engine is embedded twice: on network values, where
      [JSON.parse(JSON.stringify(network))] is the identity (all numbers
      finite), and, for the forward pass, on an object store where the
      copy allocates new neuron objects and the loop writes to them.
    - The Graph Editor updaters are embedded on values: the network they
      return.  ([addLayer] and [removeLayer] also assign [layerIndex] and
      [x] on neuron objects they share with the previous state.)
    - A [useState] cell is a field of a state record and a handler a
      function on it; a [setTimeout] chain is a closure run by an explicit
      timer loop, between whose callbacks other updates may be applied; a
      [useCallback] is a field that holds what the callback captured when
      its dependencies last changed.  A [string | null] in a condition is
      tested with [truthy_id]. *)

From Stdlib Require Import List String Bool Arith Lia ZArith QArith Reals Lra.
From Stdlib Require Import DecimalString DecimalNat.
Import ListNotations.

Local Open Scope string_scope.
Local Open Scope nat_scope.

(** ** JavaScript numbers *)

Class Number (num : Type) : Type := {
  lit : Q -> num;               (* a numeric literal of the source *)
  ofNat : nat -> num;           (* an array index or length used as a number *)
  add : num -> num -> num;
  sub : num -> num -> num;
  mul : num -> num -> num;
  div : num -> num -> num;
  neg : num -> num;
  Math_exp : num -> num;
  Math_tanh : num -> num;
  Math_max : num -> num -> num;
  Math_pow : num -> nat -> num;
  gtb : num -> num -> bool;     (* [a > b] *)
  truthy : num -> bool          (* ToBoolean: false on 0 (and NaN) *)
}.

Declare Scope num_scope.
Delimit Scope num_scope with num.
Infix "+" := add : num_scope.
Infix "-" := sub : num_scope.
Infix "*" := mul : num_scope.
Infix "/" := div : num_scope.
Notation "- a" := (neg a) : num_scope.

(** ** src/types.ts *)

Inductive ActivationFunction := sigmoid_k | relu_k | tanh_k.

Record Neuron (num : Type) := mkNeuron {
  nid : string;
  layerIndex : nat;
  neuronIndex : nat;
  nx : num;
  ny : num;
  bias : num;
  activation : num;
  target : option num;
  error : option num;
  delta : option num
}.
Arguments mkNeuron {num}.
Arguments nid {num}.
Arguments layerIndex {num}.
Arguments neuronIndex {num}.
Arguments nx {num}.
Arguments ny {num}.
Arguments bias {num}.
Arguments activation {num}.
Arguments target {num}.
Arguments error {num}.
Arguments delta {num}.

Record Connection (num : Type) := mkConnection {
  cid : string;
  fromNeuronId : string;
  toNeuronId : string;
  weight : num;
  gradient : option num
}.
Arguments mkConnection {num}.
Arguments cid {num}.
Arguments fromNeuronId {num}.
Arguments toNeuronId {num}.
Arguments weight {num}.
Arguments gradient {num}.

Record Layer (num : Type) := mkLayer {
  lid : string;
  neurons : list (Neuron num)
}.
Arguments mkLayer {num}.
Arguments lid {num}.
Arguments neurons {num}.

Record NeuralNetwork (num : Type) := mkNetwork {
  layers : list (Layer num);
  connections : list (Connection num);
  activationFunction : ActivationFunction
}.
Arguments mkNetwork {num}.
Arguments layers {num}.
Arguments connections {num}.
Arguments activationFunction {num}.

(** Field assignments ([neuron.activation = v], [{...n, x: v}], ...). *)

Definition set_activation {num} (n : Neuron num) (v : num) : Neuron num :=
  mkNeuron (nid n) (layerIndex n) (neuronIndex n) (nx n) (ny n) (bias n) v
           (target n) (error n) (delta n).

Definition set_bias {num} (n : Neuron num) (v : num) : Neuron num :=
  mkNeuron (nid n) (layerIndex n) (neuronIndex n) (nx n) (ny n) v (activation n)
           (target n) (error n) (delta n).

Definition set_error {num} (n : Neuron num) (v : num) : Neuron num :=
  mkNeuron (nid n) (layerIndex n) (neuronIndex n) (nx n) (ny n) (bias n)
           (activation n) (target n) (Some v) (delta n).

Definition set_delta {num} (n : Neuron num) (v : num) : Neuron num :=
  mkNeuron (nid n) (layerIndex n) (neuronIndex n) (nx n) (ny n) (bias n)
           (activation n) (target n) (error n) (Some v).

Definition set_layerIndex {num} (n : Neuron num) (i : nat) : Neuron num :=
  mkNeuron (nid n) i (neuronIndex n) (nx n) (ny n) (bias n) (activation n)
           (target n) (error n) (delta n).

Definition set_neuronIndex {num} (n : Neuron num) (i : nat) : Neuron num :=
  mkNeuron (nid n) (layerIndex n) i (nx n) (ny n) (bias n) (activation n)
           (target n) (error n) (delta n).

Definition set_nx {num} (n : Neuron num) (v : num) : Neuron num :=
  mkNeuron (nid n) (layerIndex n) (neuronIndex n) v (ny n) (bias n) (activation n)
           (target n) (error n) (delta n).

Definition set_neurons {num} (l : Layer num) (ns : list (Neuron num)) : Layer num :=
  mkLayer (lid l) ns.

Definition set_weight_gradient {num} (c : Connection num) (w g : num)
  : Connection num :=
  mkConnection (cid c) (fromNeuronId c) (toNeuronId c) w (Some g).

(** JavaScript array helpers. *)

Definition flatMap_neurons {num} (ls : list (Layer num)) : list (Neuron num) :=
  flat_map neurons ls.

Definition find_neuron {num} (i : string) (ns : list (Neuron num))
  : option (Neuron num) :=
  find (fun n => (nid n =? i)%string) ns.

(** [a[i] = v] on an index inside the array. *)
Fixpoint set_nth {A} (i : nat) (v : A) (l : list A) : list A :=
  match l, i with
  | [], _ => []
  | _ :: t, O => v :: t
  | h :: t, S j => h :: set_nth j v t
  end.

Section Engine.

Context {num : Type} {NUM : Number num}.
Local Open Scope num_scope.

(** ** src/utils/network.ts: activation functions *)

Definition sigmoid (x : num) : num := lit 1 / (lit 1 + Math_exp (- x)).
Definition relu (x : num) : num := Math_max (lit 0) x.
Definition tanh (x : num) : num := Math_tanh x.

Definition activationFunctions (k : ActivationFunction) : num -> num :=
  match k with sigmoid_k => sigmoid | relu_k => relu | tanh_k => tanh end.

Definition sigmoidDerivative (y : num) : num := y * (lit 1 - y).
Definition reluDerivative (y : num) : num :=
  if gtb y (lit 0) then lit 1 else lit 0.
Definition tanhDerivative (y : num) : num := lit 1 - y * y.

Definition activationDerivatives (k : ActivationFunction) : num -> num :=
  match k with
  | sigmoid_k => sigmoidDerivative
  | relu_k => reluDerivative
  | tanh_k => tanhDerivative
  end.

(** ** getInitialNetwork

    The five neuron ids and six connection ids come from [uuidv4()], in
    the order of the calls. *)

Definition getInitialNetwork (u : nat -> string) : NeuralNetwork num :=
  let inputNeuron1 := mkNeuron (u 0%nat) 0 0 (lit 100) (lit 150) (lit 0) (lit 1) None None None in
  let inputNeuron2 := mkNeuron (u 1%nat) 0 1 (lit 100) (lit 250) (lit 0) (lit 0) None None None in
  let hiddenNeuron1 := mkNeuron (u 2%nat) 1 0 (lit 250) (lit 150) (lit 0) (lit 0) None None None in
  let hiddenNeuron2 := mkNeuron (u 3%nat) 1 1 (lit 250) (lit 250) (lit 0) (lit 0) None None None in
  let outputNeuron := mkNeuron (u 4%nat) 2 0 (lit 400) (lit 200) (lit 0) (lit 0) (Some (lit 1)) None None in
  mkNetwork
    [ mkLayer "layer-0" [inputNeuron1; inputNeuron2];
      mkLayer "layer-1" [hiddenNeuron1; hiddenNeuron2];
      mkLayer "layer-2" [outputNeuron] ]
    [ mkConnection (u 5%nat) (nid inputNeuron1) (nid hiddenNeuron1) (lit 0.5) None;
      mkConnection (u 6%nat) (nid inputNeuron1) (nid hiddenNeuron2) (lit (-0.3)) None;
      mkConnection (u 7%nat) (nid inputNeuron2) (nid hiddenNeuron1) (lit 0.8) None;
      mkConnection (u 8%nat) (nid inputNeuron2) (nid hiddenNeuron2) (lit 0.2) None;
      mkConnection (u 9%nat) (nid hiddenNeuron1) (nid outputNeuron) (lit 0.7) None;
      mkConnection (u 10%nat) (nid hiddenNeuron2) (nid outputNeuron) (lit (-0.4)) None ]
    sigmoid_k.

(** ** runForwardPropagation *)

(** The [reduce] callback of one neuron of layer [i]: [prevNeurons] is
    [newNetwork.layers[i-1].neurons]. *)
Definition weightedSum_step (prevNeurons : list (Neuron num))
  (sum : num) (conn : Connection num) : num :=
  match find_neuron (fromNeuronId conn) prevNeurons with
  | Some fromNeuron => sum + activation fromNeuron * weight conn
  | None => sum
  end.

Definition incomingConnections (conns : list (Connection num)) (neuron : Neuron num)
  : list (Connection num) :=
  filter (fun c => (toNeuronId c =? nid neuron)%string) conns.

Definition weightedSum (conns : list (Connection num))
  (prevNeurons : list (Neuron num)) (neuron : Neuron num) : num :=
  fold_left (weightedSum_step prevNeurons) (incomingConnections conns neuron) (lit 0).

(** The body of [currentLayer.neurons.forEach]. *)
Definition forward_neuron (k : ActivationFunction) (conns : list (Connection num))
  (prevNeurons : list (Neuron num)) (neuron : Neuron num) : Neuron num :=
  set_activation neuron
    (activationFunctions k (weightedSum conns prevNeurons neuron + bias neuron)).

(** One iteration of [for (let i = 1; i <= maxLayer; i++)].  Reading
    [.neurons] of a missing layer throws. *)
Definition forward_layer (k : ActivationFunction) (conns : list (Connection num))
  (i : nat) (ls : list (Layer num)) : option (list (Layer num)) :=
  match nth_error ls i, nth_error ls (i - 1) with
  | Some currentLayer, Some prevLayer =>
      Some (set_nth i
              (set_neurons currentLayer
                 (map (forward_neuron k conns (neurons prevLayer))
                      (neurons currentLayer)))
              ls)
  | _, _ => None
  end.

(** The loop, from [i] for [fuel] iterations. *)
Fixpoint forward_loop (k : ActivationFunction) (conns : list (Connection num))
  (i fuel : nat) (ls : list (Layer num)) : option (list (Layer num)) :=
  match fuel with
  | O => Some ls
  | S fuel' =>
      match forward_layer k conns i ls with
      | Some ls' => forward_loop k conns (S i) fuel' ls'
      | None => None
      end
  end.

Definition runForwardPropagation (network : NeuralNetwork num)
  (untilLayer : option nat) : option (NeuralNetwork num) :=
  let newNetwork := network in
  let maxLayer :=
    match untilLayer with
    | Some u => u
    | None => (List.length (layers newNetwork) - 1)%nat
    end in
  match forward_loop (activationFunction newNetwork) (connections newNetwork)
          1 maxLayer (layers newNetwork) with
  | Some ls => Some (mkNetwork ls (connections newNetwork)
                       (activationFunction newNetwork))
  | None => None
  end.

(** ** runTrainingStep *)

(** [neuron.delta] in a condition: present and truthy. *)
Definition truthy_delta (n : Neuron num) : option num :=
  match delta n with
  | Some d => if truthy d then Some d else None
  | None => None
  end.

(** Step 2, the body of [outputLayer.neurons.forEach]: the neuron part. *)
Definition output_neuron (activationDerivative : num -> num) (neuron : Neuron num)
  : Neuron num :=
  let target := match target neuron with Some t => t | None => lit 0 end in
  let error := target - activation neuron in
  set_delta (set_error neuron error)
            (error * activationDerivative (activation neuron)).

(** Step 2, the [finalLoss] part. *)
Definition output_loss_step (finalLoss : num) (neuron : Neuron num) : num :=
  let target := match target neuron with Some t => t | None => lit 0 end in
  let error := target - activation neuron in
  finalLoss + Math_pow error 2.

(** Step 3, the inner [outgoingConnections.forEach]. *)
Definition backprop_step (nextNeurons : list (Neuron num))
  (error : num) (conn : Connection num) : num :=
  match find_neuron (toNeuronId conn) nextNeurons with
  | Some nextNeuron =>
      match truthy_delta nextNeuron with
      | Some d => error + weight conn * d
      | None => error
      end
  | None => error
  end.

Definition outgoingConnections (conns : list (Connection num)) (neuron : Neuron num)
  : list (Connection num) :=
  filter (fun c => (fromNeuronId c =? nid neuron)%string) conns.

Definition backprop_neuron (activationDerivative : num -> num)
  (conns : list (Connection num)) (nextNeurons : list (Neuron num))
  (neuron : Neuron num) : Neuron num :=
  let error :=
    fold_left (backprop_step nextNeurons) (outgoingConnections conns neuron) (lit 0) in
  set_delta neuron (error * activationDerivative (activation neuron)).

Definition backprop_layer (activationDerivative : num -> num)
  (conns : list (Connection num)) (i : nat) (ls : list (Layer num))
  : list (Layer num) :=
  match nth_error ls i, nth_error ls (S i) with
  | Some currentLayer, Some nextLayer =>
      set_nth i
        (set_neurons currentLayer
           (map (backprop_neuron activationDerivative conns (neurons nextLayer))
                (neurons currentLayer)))
        ls
  | _, _ => ls
  end.

(** [for (let i = length - 2; i >= 1; i--)], entered with [i]. *)
Fixpoint backprop_loop (activationDerivative : num -> num)
  (conns : list (Connection num)) (i : nat) (ls : list (Layer num))
  : list (Layer num) :=
  match i with
  | O => ls
  | S j =>
      backprop_loop activationDerivative conns j
        (backprop_layer activationDerivative conns (S j) ls)
  end.

(** Step 4, the body of [connections.forEach]. *)
Definition update_connection (learningRate : num) (ls : list (Layer num))
  (conn : Connection num) : Connection num :=
  match find_neuron (fromNeuronId conn) (flatMap_neurons ls),
        find_neuron (toNeuronId conn) (flatMap_neurons ls) with
  | Some fromNeuron, Some toNeuron =>
      match truthy_delta toNeuron with
      | Some d =>
          let gradient := activation fromNeuron * d in
          set_weight_gradient conn (weight conn + learningRate * gradient) gradient
      | None => conn
      end
  | _, _ => conn
  end.

Definition update_bias (learningRate : num) (neuron : Neuron num) : Neuron num :=
  match truthy_delta neuron with
  | Some d => set_bias neuron (bias neuron + learningRate * d)
  | None => neuron
  end.

(** [for (let i = 1; i < length; i++)] over the biases, from [i] for
    [fuel] iterations. *)
Fixpoint bias_loop (learningRate : num) (i fuel : nat) (ls : list (Layer num))
  : list (Layer num) :=
  match fuel with
  | O => ls
  | S fuel' =>
      match nth_error ls i with
      | Some l =>
          bias_loop learningRate (S i) fuel'
            (set_nth i (set_neurons l (map (update_bias learningRate) (neurons l))) ls)
      | None => ls
      end
  end.

Definition runTrainingStep (network : NeuralNetwork num) (learningRate : num)
  : option (NeuralNetwork num * num) :=
  match runForwardPropagation network None with
  | None => None
  | Some propagatedNetwork =>
      let activationDerivative :=
        activationDerivatives (activationFunction propagatedNetwork) in
      let len := List.length (layers propagatedNetwork) in
      match nth_error (layers propagatedNetwork) (len - 1) with
      | Some outputLayer =>
          let finalLoss :=
            fold_left output_loss_step (neurons outputLayer) (lit 0) in
          let finalLoss := finalLoss / ofNat (List.length (neurons outputLayer)) in
          let ls2 :=
            set_nth (len - 1)
              (set_neurons outputLayer
                 (map (output_neuron activationDerivative) (neurons outputLayer)))
              (layers propagatedNetwork) in
          let ls3 :=
            backprop_loop activationDerivative (connections propagatedNetwork)
              (len - 2) ls2 in
          let conns4 :=
            map (update_connection learningRate ls3)
                (connections propagatedNetwork) in
          let ls5 := bias_loop learningRate 1 (len - 1) ls3 in
          Some (mkNetwork ls5 conns4 (activationFunction propagatedNetwork),
                finalLoss)
      | None => None
      end
  end.

End Engine.

(** ** The external collaborators: [uuidv4()] and [Math.random()]

    A [World] holds the sequence of values each generator will return and
    how many have been consumed.  [M A] is a computation that reads the
    generators and may throw. *)

Record World (num : Type) := mkWorld {
  uuid_seq : nat -> string;
  uuid_ix : nat;
  rand_seq : nat -> num;
  rand_ix : nat
}.
Arguments mkWorld {num}.
Arguments uuid_seq {num}.
Arguments uuid_ix {num}.
Arguments rand_seq {num}.
Arguments rand_ix {num}.

Definition M (num A : Type) : Type := World num -> option (A * World num).

Definition ret {num A} (a : A) : M num A := fun w => Some (a, w).

Definition bind {num A B} (m : M num A) (f : A -> M num B) : M num B :=
  fun w => match m w with
           | Some (a, w') => f a w'
           | None => None
           end.

Definition throw {num A} : M num A := fun _ => None.

Notation "x <- m ;; k" := (bind m (fun x => k))
  (at level 61, m at next level, right associativity).

Definition uuidv4 {num} : M num string :=
  fun w => Some (uuid_seq w (uuid_ix w),
                 mkWorld (uuid_seq w) (S (uuid_ix w)) (rand_seq w) (rand_ix w)).

Definition Math_random {num} : M num num :=
  fun w => Some (rand_seq w (rand_ix w),
                 mkWorld (uuid_seq w) (uuid_ix w) (rand_seq w) (S (rand_ix w))).

(** A [for ... of] loop that pushes one value per element. *)
Fixpoint mapM {num A B} (f : A -> M num B) (l : list A) : M num (list B) :=
  match l with
  | [] => ret []
  | a :: t => b <- f a ;; bs <- mapM f t ;; ret (b :: bs)
  end.

(** [a[i]] for a possibly negative integer index. *)
Definition js_nth {A} (l : list A) (i : Z) : option A :=
  if (i <? 0)%Z then None else nth_error l (Z.to_nat i).

(** [array.map((e, i) => f i e)], the index starting at [i]. *)
Fixpoint mapi_from {A B} (i : nat) (f : nat -> A -> B) (l : list A) : list B :=
  match l with
  | [] => []
  | a :: t => f i a :: mapi_from (S i) f t
  end.

Definition mapi {A B} (f : nat -> A -> B) (l : list A) : list B := mapi_from 0 f l.

(** [new Set(ids).has(i)] *)
Definition Set_has (ids : list string) (i : string) : bool :=
  existsb (String.eqb i) ids.

Section Editor.

Context {num : Type} {NUM : Number num}.
Local Open Scope num_scope.

(** ** src/App.tsx: the Graph Editor (the updaters passed to [setNetwork]) *)

(** [{ id: uuidv4(), fromNeuronId, toNeuronId, weight: Math.random() * 2 - 1 }] *)
Definition fresh_connection (ft : Neuron num * Neuron num) : M num (Connection num) :=
  i <- uuidv4 ;;
  r <- Math_random ;;
  ret (mkConnection i (nid (fst ft)) (nid (snd ft)) (r * lit 2 - lit 1) None).

(** Two nested loops pushing one connection per pair. *)
Definition fully_connect (froms tos : list (Neuron num))
  : M num (list (Connection num)) :=
  mapM fresh_connection (list_prod froms tos).

(** [neurons[0]?.x || dflt] *)
Definition first_x_or (ns : list (Neuron num)) (dflt : num) : num :=
  match ns with
  | n :: _ => if truthy (nx n) then nx n else dflt
  | [] => dflt
  end.

Definition reindex_layers (ls : list (Layer num)) : list (Layer num) :=
  mapi (fun lIndex layer =>
          set_neurons layer
            (map (fun neuron => set_layerIndex neuron lIndex) (neurons layer)))
       ls.

Definition addLayer (prev : NeuralNetwork num) : M num (NeuralNetwork num) :=
  if 10 <=? List.length (layers prev) then ret prev else
  let insertionIndex := (Z.of_nat (List.length (layers prev)) - 1)%Z in
  newLayerId <- (u <- uuidv4 ;; ret ("layer-" ++ u)%string) ;;
  match js_nth (layers prev) (insertionIndex - 1),
        js_nth (layers prev) insertionIndex with
  | Some lastHiddenLayer, Some outputLayer =>
      let newLayerX := first_x_or (neurons lastHiddenLayer) (lit 100) + lit 150 in
      let numNeurons := List.length (neurons lastHiddenLayer) in
      let totalHeight := (ofNat numNeurons - lit 1) * lit 100 in
      let startY := lit 200 - totalHeight / lit 2 in
      newNeurons <-
        mapM (fun i =>
                u <- uuidv4 ;;
                ret (mkNeuron u (Z.to_nat insertionIndex) i newLayerX
                       (startY + ofNat i * lit 100) (lit 0) (lit 0)
                       None None None))
             (seq 0 numNeurons) ;;
      let newLayer := mkLayer newLayerId newNeurons in
      let updatedOutputLayer :=
        set_neurons outputLayer
          (map (fun n => set_nx n (nx n + lit 150)) (neurons outputLayer)) in
      let newLayers :=
        reindex_layers
          (firstn (Z.to_nat insertionIndex) (layers prev)
           ++ [newLayer; updatedOutputLayer]) in
      let lastHiddenNeuronIds := map nid (neurons lastHiddenLayer) in
      let outputNeuronIds := map nid (neurons outputLayer) in
      let connectionsToKeep :=
        filter (fun c => negb (Set_has lastHiddenNeuronIds (fromNeuronId c)
                               && Set_has outputNeuronIds (toNeuronId c)))
               (connections prev) in
      cs1 <- fully_connect (neurons lastHiddenLayer) (neurons newLayer) ;;
      cs2 <- fully_connect (neurons newLayer) (neurons updatedOutputLayer) ;;
      ret (mkNetwork newLayers (connectionsToKeep ++ cs1 ++ cs2)
             (activationFunction prev))
  | _, _ => throw
  end.

Definition removeLayer (prev : NeuralNetwork num) : M num (NeuralNetwork num) :=
  if List.length (layers prev) <=? 2 then ret prev else
  let len := List.length (layers prev) in
  let lastHiddenLayerIndex := (len - 2)%nat in
  match nth_error (layers prev) lastHiddenLayerIndex,
        nth_error (layers prev) (lastHiddenLayerIndex - 1)%nat,
        nth_error (layers prev) (len - 1)%nat with
  | Some layerToRemove, Some layerBefore, Some outputLayer =>
      let newLayers :=
        filter (fun l => negb (lid l =? lid layerToRemove)%string) (layers prev) in
      let newLayers :=
        mapi (fun index layer =>
                set_neurons layer
                  (map (fun neuron =>
                          let neuron := set_layerIndex neuron index in
                          if (index =? List.length newLayers - 1)%nat
                          then set_nx neuron (nx neuron - lit 150)
                          else neuron)
                       (neurons layer)))
             newLayers in
      let neuronIdsToRemove := map nid (neurons layerToRemove) in
      let connectionsToKeep :=
        filter (fun c => negb (Set_has neuronIdsToRemove (fromNeuronId c))
                         && negb (Set_has neuronIdsToRemove (toNeuronId c)))
               (connections prev) in
      cs <- fully_connect (neurons layerBefore) (neurons outputLayer) ;;
      ret (mkNetwork newLayers (connectionsToKeep ++ cs) (activationFunction prev))
  | _, _, _ => throw
  end.

Definition addNeuronToLayer (layerIndex : nat) (prev : NeuralNetwork num)
  : M num (NeuralNetwork num) :=
  match nth_error (layers prev) layerIndex with
  | None => ret prev
  | Some layer =>
      let newNeuronIndex := List.length (neurons layer) in
      u <- uuidv4 ;;
      let newNeuron :=
        mkNeuron u layerIndex newNeuronIndex
          (first_x_or (neurons layer) (lit 150 * ofNat layerIndex + lit 100))
          (lit 200 + ofNat newNeuronIndex * lit 100) (lit 0) (lit 0)
          None None None in
      let newLayers :=
        set_nth layerIndex (set_neurons layer (neurons layer ++ [newNeuron]))
                (layers prev) in
      cs1 <-
        (if 0 <? layerIndex then
           match nth_error (layers prev) (layerIndex - 1)%nat with
           | Some previousLayer => fully_connect (neurons previousLayer) [newNeuron]
           | None => throw
           end
         else ret []) ;;
      cs2 <-
        (if (layerIndex <? List.length (layers prev) - 1)%nat then
           match nth_error (layers prev) (layerIndex + 1)%nat with
           | Some nextLayer => fully_connect [newNeuron] (neurons nextLayer)
           | None => throw
           end
         else ret []) ;;
      ret (mkNetwork newLayers (connections prev ++ cs1 ++ cs2)
             (activationFunction prev))
  end.

(** The callback of [prev.layers.map] in [removeNeuron]. *)
Definition removeNeuron_layer (neuronId : string) (layer : Layer num) : Layer num :=
  let neuronExists :=
    existsb (fun n => (nid n =? neuronId)%string) (neurons layer) in
  if negb neuronExists then layer
  else if List.length (neurons layer) =? 1 then layer
  else
    let newNeurons :=
      mapi (fun nIndex n => set_neuronIndex n nIndex)
           (filter (fun n => negb (nid n =? neuronId)%string) (neurons layer)) in
    set_neurons layer newNeurons.

Definition removeNeuron (neuronId : string) (prev : NeuralNetwork num)
  : NeuralNetwork num :=
  let newLayers := map (removeNeuron_layer neuronId) (layers prev) in
  let newConnections :=
    filter (fun c => negb (fromNeuronId c =? neuronId)%string
                     && negb (toNeuronId c =? neuronId)%string)
           (connections prev) in
  mkNetwork newLayers newConnections (activationFunction prev).

Definition createConnection (fromNeuronId0 toNeuronId0 : string)
  (prev : NeuralNetwork num) : M num (NeuralNetwork num) :=
  let fromNeuron := find_neuron fromNeuronId0 (flatMap_neurons (layers prev)) in
  let toNeuron := find_neuron toNeuronId0 (flatMap_neurons (layers prev)) in
  match fromNeuron, toNeuron with
  | Some fromNeuron, Some toNeuron =>
      if layerIndex toNeuron <=? layerIndex fromNeuron then ret prev
      else
        let existingConnection :=
          find (fun c => (fromNeuronId c =? fromNeuronId0)%string
                         && (toNeuronId c =? toNeuronId0)%string)
               (connections prev) in
        match existingConnection with
        | Some _ => ret prev
        | None =>
            i <- uuidv4 ;;
            r <- Math_random ;;
            let newConnection :=
              mkConnection i fromNeuronId0 toNeuronId0 (r * lit 2 - lit 1) None in
            ret (mkNetwork (layers prev) (connections prev ++ [newConnection])
                   (activationFunction prev))
        end
  | _, _ => ret prev
  end.

Definition deleteConnection (connectionId : string) (prev : NeuralNetwork num)
  : NeuralNetwork num :=
  mkNetwork (layers prev)
    (filter (fun c => negb (cid c =? connectionId)%string) (connections prev))
    (activationFunction prev).

End Editor.

(** ** Numbers as real numbers

    The arithmetic of the source read in the ideal real numbers: no
    rounding, no NaN, no infinities. *)

#[export] Instance RNumber : Number R := {
  lit := Q2R;
  ofNat := INR;
  add := Rplus;
  sub := Rminus;
  mul := Rmult;
  div := Rdiv;
  neg := Ropp;
  Math_exp := exp;
  Math_tanh := Rtrigo_def.tanh;
  Math_max := Rmax;
  Math_pow := pow;
  gtb := fun a b => if Rlt_dec b a then true else false;
  truthy := fun a => if Req_dec_T a 0 then false else true
}.

(** A concrete id generator: the n-th call returns ["uuid-n"]. *)
Definition demo_uuid (n : nat) : string :=
  "uuid-" ++ NilEmpty.string_of_uint (Nat.to_uint n).

Definition demo_world : World R := mkWorld demo_uuid 11 (fun _ => 0%R) 0.

Definition seed : NeuralNetwork R := getInitialNetwork demo_uuid.

(** [k] successive clicks on "Add Hidden Layer". *)
Fixpoint addLayers {num} {NUM : Number num} (k : nat) (net : NeuralNetwork num)
  : M num (NeuralNetwork num) :=
  match k with
  | O => ret net
  | S k' => net' <- addLayer net ;; addLayers k' net'
  end.

Definition seed10 : NeuralNetwork R :=
  match addLayers 7 seed demo_world with
  | Some (net, _) => net
  | None => seed
  end.

Definition seed2 : NeuralNetwork R :=
  match removeLayer seed demo_world with
  | Some (net, _) => net
  | None => seed
  end.

(** The ordered pair of endpoints of a connection. *)
Definition endpoints {num} (c : Connection num) : string * string :=
  (fromNeuronId c, toNeuronId c).

(** ** Vocabulary of the properties *)

(** The neuron at position [j] of layer [i]. *)
Definition neuron_at {num} (ls : list (Layer num)) (i j : nat) : option (Neuron num) :=
  match nth_error ls i with
  | Some l => nth_error (neurons l) j
  | None => None
  end.

(** The layer a full or partial forward pass stops at. *)
Definition maxLayer_of {num} (network : NeuralNetwork num) (untilLayer : option nat)
  : nat :=
  match untilLayer with
  | Some u => u
  | None => List.length (layers network) - 1
  end.

(** The forward rule in the words of the specification: the source of a
    connection is whatever neuron of the network its [fromNeuronId]
    names, in any layer. *)
Definition claimed_sum_step {num} {NUM : Number num} (all : list (Neuron num))
  (sum : num) (conn : Connection num) : num :=
  match find_neuron (fromNeuronId conn) all with
  | Some source => add sum (mul (weight conn) (activation source))
  | None => sum
  end.

Definition claimed_activation {num} {NUM : Number num}
  (net : NeuralNetwork num) (neuron : Neuron num) : num :=
  activationFunctions (activationFunction net)
    (add (bias neuron)
         (fold_left (claimed_sum_step (flatMap_neurons (layers net)))
                    (incomingConnections (connections net) neuron) (lit 0))).

Definition claimed_forward_rule {num} {NUM : Number num}
  (network : NeuralNetwork num) (untilLayer : option nat) : Prop :=
  forall result i j n,
    runForwardPropagation network untilLayer = Some result ->
    1 <= i <= maxLayer_of network untilLayer ->
    neuron_at (layers result) i j = Some n ->
    activation n = claimed_activation result n.

(** An input neuron wired to the hidden neuron and, past the hidden
    layer, to the output neuron. *)
Definition skip_net : NeuralNetwork R :=
  mkNetwork
    [ mkLayer "layer-0"
        [mkNeuron "a" 0 0 (lit 100) (lit 200) (lit 0) (lit 1) None None None];
      mkLayer "layer-1"
        [mkNeuron "h" 1 0 (lit 250) (lit 200) (lit 0) (lit 0) None None None];
      mkLayer "layer-2"
        [mkNeuron "o" 2 0 (lit 400) (lit 200) (lit 0) (lit 0) (Some (lit 1)) None None] ]
    [ mkConnection "c1" "a" "h" (lit 1) None;
      mkConnection "c2" "a" "o" (lit 1) None ]
    relu_k.

Definition skip_net_result : NeuralNetwork R :=
  mkNetwork
    [ mkLayer "layer-0"
        [mkNeuron "a" 0 0 (lit 100) (lit 200) (lit 0) (lit 1) None None None];
      mkLayer "layer-1"
        [mkNeuron "h" 1 0 (lit 250) (lit 200) (lit 0) 1%R None None None];
      mkLayer "layer-2"
        [mkNeuron "o" 2 0 (lit 400) (lit 200) (lit 0) 0%R (Some (lit 1)) None None] ]
    (connections skip_net) relu_k.

(** The forward rule of the code: the pass returns, keeps the connections,
    and every neuron of a processed layer [i] gets the activation function
    of its bias added to the sum, over the connections that end in it and
    start at a neuron of layer [i-1], of that neuron's activation in the
    result times the weight. *)
Definition forward_rule {num} {NUM : Number num}
  (network : NeuralNetwork num) (untilLayer : option nat) : Prop :=
  exists result,
    runForwardPropagation network untilLayer = Some result /\
    connections result = connections network /\
    activationFunction result = activationFunction network /\
    forall i j n0,
      1 <= i <= maxLayer_of network untilLayer ->
      neuron_at (layers network) i j = Some n0 ->
      exists prv,
        nth_error (layers result) (i - 1) = Some prv /\
        neuron_at (layers result) i j
        = Some (set_activation n0
                  (activationFunctions (activationFunction network)
                     (add (fold_left
                             (fun sum conn =>
                                match find_neuron (fromNeuronId conn) (neurons prv) with
                                | Some fromNeuron =>
                                    add sum (mul (activation fromNeuron) (weight conn))
                                | None => sum
                                end)
                             (filter (fun c => (toNeuronId c =? nid n0)%string)
                                     (connections network))
                             (lit 0))
                          (bias n0)))).

(** The training rule of the code.  [propagated] is the network after the
    full forward pass; a delta counts only when it is present and truthy,
    that is, not zero. *)
Definition training_rule {num} {NUM : Number num}
  (network : NeuralNetwork num) (learningRate : num) : Prop :=
  exists propagated updated finalLoss outputLayer,
    runForwardPropagation network None = Some propagated /\
    runTrainingStep network learningRate = Some (updated, finalLoss) /\
    let D := activationDerivatives (activationFunction propagated) in
    let last := List.length (layers propagated) - 1 in
    let target_of := fun n : Neuron num =>
      match target n with Some t => t | None => lit 0 end in
    nth_error (layers propagated) last = Some outputLayer /\
    finalLoss
    = div (fold_left
             (fun sum n => add sum (Math_pow (sub (target_of n) (activation n)) 2))
             (neurons outputLayer) (lit 0))
          (ofNat (List.length (neurons outputLayer))) /\
    activationFunction updated = activationFunction propagated /\
    List.length (layers updated) = List.length (layers propagated) /\
    (forall i j n,
       neuron_at (layers propagated) i j = Some n ->
       exists n',
         neuron_at (layers updated) i j = Some n' /\
         nid n' = nid n /\ layerIndex n' = layerIndex n /\
         neuronIndex n' = neuronIndex n /\ nx n' = nx n /\ ny n' = ny n /\
         activation n' = activation n /\ target n' = target n /\
         (i = last ->
          error n' = Some (sub (target_of n) (activation n)) /\
          delta n'
          = Some (mul (sub (target_of n) (activation n)) (D (activation n)))) /\
         (1 <= i < last ->
          error n' = error n /\
          exists nextLayer,
            nth_error (layers updated) (S i) = Some nextLayer /\
            delta n'
            = Some (mul (fold_left
                           (fun err conn =>
                              match find_neuron (toNeuronId conn)
                                                (neurons nextLayer) with
                              | Some nextNeuron =>
                                  match truthy_delta nextNeuron with
                                  | Some d => add err (mul (weight conn) d)
                                  | None => err
                                  end
                              | None => err
                              end)
                           (filter (fun c => (fromNeuronId c =? nid n)%string)
                                   (connections propagated))
                           (lit 0))
                        (D (activation n)))) /\
         (i = 0 -> i <> last -> n' = n) /\
         (i = 0 -> bias n' = bias n) /\
         (1 <= i ->
          bias n' = match truthy_delta n' with
                    | Some d => add (bias n) (mul learningRate d)
                    | None => bias n
                    end)) /\
    connections updated
    = map (fun conn =>
             match find_neuron (fromNeuronId conn) (flatMap_neurons (layers updated)),
                   find_neuron (toNeuronId conn) (flatMap_neurons (layers updated)) with
             | Some fromNeuron, Some toNeuron =>
                 match truthy_delta toNeuron with
                 | Some d =>
                     set_weight_gradient conn
                       (add (weight conn)
                            (mul learningRate (mul (activation fromNeuron) d)))
                       (mul (activation fromNeuron) d)
                 | None => conn
                 end
             | _, _ => conn
             end)
          (connections propagated).

(** The weight-update rule in the words of the specification: a connection
    whose destination has a computed delta gets its gradient. *)
Definition claimed_gradient_rule {num} {NUM : Number num}
  (network : NeuralNetwork num) (learningRate : num) : Prop :=
  forall updated finalLoss conn source dest d,
    runTrainingStep network learningRate = Some (updated, finalLoss) ->
    In conn (connections updated) ->
    find_neuron (fromNeuronId conn) (flatMap_neurons (layers updated)) = Some source ->
    find_neuron (toNeuronId conn) (flatMap_neurons (layers updated)) = Some dest ->
    delta dest = Some d ->
    gradient conn = Some (mul (activation source) d).

(** Agreement of two neurons on what the backward pass reads. *)
Definition same_signal {num} (n n' : Neuron num) : Prop :=
  nid n' = nid n /\ activation n' = activation n /\ delta n' = delta n.

(** One input neuron, one output neuron whose ReLU is switched off. *)
Definition dead_relu_net : NeuralNetwork R :=
  mkNetwork
    [ mkLayer "layer-0"
        [mkNeuron "a" 0 0 (lit 100) (lit 200) (lit 0) (lit 1) None None None];
      mkLayer "layer-1"
        [mkNeuron "o" 1 0 (lit 250) (lit 200) (lit 0) (lit 0) (Some (lit 1)) None None] ]
    [ mkConnection "c1" "a" "o" (lit (-1)) None ]
    relu_k.

Definition dead_relu_trained : NeuralNetwork R :=
  mkNetwork
    [ mkLayer "layer-0"
        [mkNeuron "a" 0 0 (lit 100) (lit 200) (lit 0) (lit 1) None None None];
      mkLayer "layer-1"
        [mkNeuron "o" 1 0 (lit 250) (lit 200) (lit 0) 0%R (Some (lit 1))
                  (Some 1%R) (Some 0%R)] ]
    [ mkConnection "c1" "a" "o" (lit (-1)) None ]
    relu_k.

(** The seed network after the user drags a connection from the first
    input neuron to the output neuron, and the world after that gesture. *)
Definition seed_skip : NeuralNetwork R * World R :=
  match createConnection "uuid-0" "uuid-4" seed demo_world with
  | Some r => r
  | None => (seed, demo_world)
  end.

Definition seed_skip_removed : NeuralNetwork R :=
  match removeLayer (fst seed_skip) (snd seed_skip) with
  | Some (net, _) => net
  | None => fst seed_skip
  end.

(** The grounds on which [createConnection] rejects a request. *)
Definition connection_rejected {num} (prev : NeuralNetwork num)
  (fromId toId : string) : Prop :=
  find_neuron fromId (flatMap_neurons (layers prev)) = None \/
  find_neuron toId (flatMap_neurons (layers prev)) = None \/
  (exists a b,
     find_neuron fromId (flatMap_neurons (layers prev)) = Some a /\
     find_neuron toId (flatMap_neurons (layers prev)) = Some b /\
     ~ layerIndex a < layerIndex b) \/
  (exists c, In c (connections prev) /\ fromNeuronId c = fromId /\ toNeuronId c = toId).

Definition createConnection_contract (prev : NeuralNetwork R)
  (fromId toId : string) (w : World R) : Prop :=
  (connection_rejected prev fromId toId ->
   createConnection fromId toId prev w = Some (prev, w)) /\
  (~ connection_rejected prev fromId toId ->
   exists c w',
     createConnection fromId toId prev w
     = Some (mkNetwork (layers prev) (connections prev ++ [c])
                       (activationFunction prev), w') /\
     fromNeuronId c = fromId /\ toNeuronId c = toId /\
     (-1 <= weight c <= 1)%R).

(** ** Known values of the seed network *)

(** [a] agrees with the four-decimal figure [b]: it is within half a unit
    of the fourth decimal place. *)
Definition approx4 (a b : R) : Prop := (b - 0.00005 <= a <= b + 0.00005)%R.

Definition seed_h1 : R := sigmoid (lit 0.5).
Definition seed_h2 : R := sigmoid (lit (-0.3)).
Definition seed_pre : R := (seed_h1 * 0.7 + seed_h2 * -0.4)%R.
Definition seed_out : R := sigmoid seed_pre.

(** The seed topology with given activations of the three computed
    neurons. *)
Definition seed_with (u : nat -> string) (a1 a2 a3 : R) : NeuralNetwork R :=
  mkNetwork
    [ mkLayer "layer-0"
        [ mkNeuron (u 0) 0 0 (lit 100) (lit 150) (lit 0) (lit 1) None None None;
          mkNeuron (u 1) 0 1 (lit 100) (lit 250) (lit 0) (lit 0) None None None ];
      mkLayer "layer-1"
        [ mkNeuron (u 2) 1 0 (lit 250) (lit 150) (lit 0) a1 None None None;
          mkNeuron (u 3) 1 1 (lit 250) (lit 250) (lit 0) a2 None None None ];
      mkLayer "layer-2"
        [ mkNeuron (u 4) 2 0 (lit 400) (lit 200) (lit 0) a3 (Some (lit 1)) None None ] ]
    (connections (getInitialNetwork u))
    sigmoid_k.

Definition seed_propagated (u : nat -> string) : NeuralNetwork R :=
  seed_with u seed_h1 seed_h2 seed_out.

(** The known-value check, with the figures as parameters: the two hidden
    activations, the output pre-activation, the output activation and the
    loss of a training step on the propagated state. *)
Definition seed_known_values (u : nat -> string) (learningRate : R)
  (hidden1 hidden2 pre out loss : R) : Prop :=
  exists result h1 h2 o updated finalLoss,
    runForwardPropagation (getInitialNetwork u) None = Some result /\
    neuron_at (layers result) 1 0 = Some h1 /\
    neuron_at (layers result) 1 1 = Some h2 /\
    neuron_at (layers result) 2 0 = Some o /\
    activation h1 = sigmoid (lit 0.5) /\ approx4 (activation h1) hidden1 /\
    activation h2 = sigmoid (lit (-0.3)) /\ approx4 (activation h2) hidden2 /\
    (exists z, activation o = sigmoid z /\ approx4 z pre) /\
    approx4 (activation o) out /\
    runTrainingStep result learningRate = Some (updated, finalLoss) /\
    approx4 finalLoss loss.

(** The terms of the exponential series and its partial sums of order 6
    and 7 at [-x]. *)
Definition exp_term (x : R) (n : nat) : R := (x ^ n / INR (fact n))%R.

Definition exp_neg_upper (x : R) : R :=
  (1 - x + x^2/2 - x^3/6 + x^4/24 - x^5/120 + x^6/720)%R.

Definition exp_neg_lower (x : R) : R := (exp_neg_upper x - x^7/5040)%R.

(** ** The data-model invariants *)

Definition layers_nonempty {num} (ls : list (Layer num)) : Prop :=
  forall l, In l ls -> neurons l <> [].

(** Every neuron's [layerIndex] is the position of its layer. *)
Definition layerIndex_ok {num} (ls : list (Layer num)) : Prop :=
  forall i l n, nth_error ls i = Some l -> In n (neurons l) -> layerIndex n = i.

(** The [neuronIndex] values of a layer are 0, 1, ..., n-1 in order. *)
Definition neuronIndex_ok {num} (ls : list (Layer num)) : Prop :=
  forall l, In l ls ->
    map neuronIndex (neurons l) = seq 0 (List.length (neurons l)).

(** Both endpoints of the connection exist, and the source's layer index
    is strictly less than the destination's. *)
Definition connection_forward {num} (ls : list (Layer num)) (c : Connection num)
  : Prop :=
  exists a b,
    find_neuron (fromNeuronId c) (flatMap_neurons ls) = Some a /\
    find_neuron (toNeuronId c) (flatMap_neurons ls) = Some b /\
    layerIndex a < layerIndex b.

Record editor_invariants {num} (net : NeuralNetwork num) : Prop := {
  inv_count : 2 <= List.length (layers net) <= 10;
  inv_nonempty : layers_nonempty (layers net);
  inv_layerIndex : layerIndex_ok (layers net);
  inv_neuronIndex : neuronIndex_ok (layers net);
  inv_forward : forall c, In c (connections net) -> connection_forward (layers net) c
}.

(** No two connections share the same ordered pair of endpoints. *)
Definition no_duplicate_pairs {num} (net : NeuralNetwork num) : Prop :=
  NoDup (map endpoints (connections net)).

(** The data-model invariants: the above, and identities are unique. *)
Record well_formed {num} (net : NeuralNetwork num) : Prop := {
  wf_inv : editor_invariants net;
  wf_neuron_ids : NoDup (map nid (flatMap_neurons (layers net)));
  wf_layer_ids : NoDup (map lid (layers net))
}.

(** The id generator is collision-free: what it will return from now on
    is new to the network and never repeats. *)
Definition fresh_uuids {num} (w : World num) (net : NeuralNetwork num) : Prop :=
  (forall k, uuid_ix w <= k ->
     ~ In (uuid_seq w k) (map nid (flatMap_neurons (layers net)))) /\
  (forall k k', uuid_ix w <= k -> uuid_ix w <= k' ->
     uuid_seq w k = uuid_seq w k' -> k = k').

(** The Graph Editor operations. *)
Inductive editor_op : Type :=
| AddLayer
| RemoveLayer
| AddNeuronToLayer (layerIndex : nat)
| RemoveNeuron (neuronId : string)
| CreateConnection (fromNeuronId toNeuronId : string)
| DeleteConnection (connectionId : string).

Definition run_op {num} {NUM : Number num} (op : editor_op)
  (prev : NeuralNetwork num) : M num (NeuralNetwork num) :=
  match op with
  | AddLayer => addLayer prev
  | RemoveLayer => removeLayer prev
  | AddNeuronToLayer i => addNeuronToLayer i prev
  | RemoveNeuron i => ret (removeNeuron i prev)
  | CreateConnection f t => createConnection f t prev
  | DeleteConnection i => ret (deleteConnection i prev)
  end.

(** The ids of the neurons, layer by layer. *)
Definition shape {num} (ls : list (Layer num)) : list (list string) :=
  map (fun l => map nid (neurons l)) ls.

Definition In_layer (sh : list (list string)) (i : nat) (x : string) : Prop :=
  exists xs, nth_error sh i = Some xs /\ In x xs.

(** The pair goes from a layer to a strictly later one. *)
Definition forward_edge (sh : list (list string)) (e : string * string) : Prop :=
  exists i j, In_layer sh i (fst e) /\ In_layer sh j (snd e) /\ i < j.

(** Re-indexing of the layers by a per-neuron function of the position. *)
Definition relayer {num} (g : nat -> Neuron num -> Neuron num)
  (ls : list (Layer num)) : list (Layer num) :=
  mapi (fun i l => set_neurons l (map (g i) (neurons l))) ls.

(** ** The object store

    [runForwardPropagation] writes to neuron objects.  To state that it
    writes to its own copy only, neurons are cells of a [Store] (the
    address of a cell is its position) and a network is held by reference:
    each layer lists the addresses of its neurons.  Layers, connections and
    the arrays are never written by the forward pass and stay values. *)

Definition Store (num : Type) : Type := list (Neuron num).
Bind Scope list_scope with Store.

Record LayerRef := mkLayerRef {
  r_lid : string;
  r_neurons : list nat
}.

Record NetworkRef (num : Type) := mkNetworkRef {
  r_layers : list LayerRef;
  r_connections : list (Connection num);
  r_activationFunction : ActivationFunction
}.
Arguments mkNetworkRef {num}.
Arguments r_layers {num}.
Arguments r_connections {num}.
Arguments r_activationFunction {num}.

(** Reading the neurons at a list of addresses. *)
Fixpoint load_neurons {num} (s : Store num) (addrs : list nat)
  : option (list (Neuron num)) :=
  match addrs with
  | [] => Some []
  | a :: t =>
      match nth_error s a, load_neurons s t with
      | Some n, Some ns => Some (n :: ns)
      | _, _ => None
      end
  end.

Fixpoint load_layers {num} (s : Store num) (ls : list LayerRef)
  : option (list (Layer num)) :=
  match ls with
  | [] => Some []
  | l :: t =>
      match load_neurons s (r_neurons l), load_layers s t with
      | Some ns, Some ls' => Some (mkLayer (r_lid l) ns :: ls')
      | _, _ => None
      end
  end.

(** The network value a reference denotes in a store. *)
Definition load {num} (s : Store num) (r : NetworkRef num)
  : option (NeuralNetwork num) :=
  match load_layers s (r_layers r) with
  | Some ls => Some (mkNetwork ls (r_connections r) (r_activationFunction r))
  | None => None
  end.


(** The references of freshly allocated layers: the neurons of the
    document take consecutive new addresses from [base], in order. *)
Fixpoint layout {num} (base : nat) (ls : list (Layer num)) : list LayerRef :=
  match ls with
  | [] => []
  | l :: t =>
      mkLayerRef (lid l) (seq base (List.length (neurons l)))
      :: layout (base + List.length (neurons l)) t
  end.


Section HeapEngine.

Context {num : Type} {NUM : Number num}.





End HeapEngine.

(** A neuron that differs from another at most in its activation. *)
Definition same_but_activation {num} (n n' : Neuron num) : Prop :=
  n' = set_activation n (activation n').

(** What a forward pass leaves alone: the connections, the activation
    kind, the layers with their ids and sizes, every field of every neuron
    but the activation, and the whole of layer 0 and of the layers past
    [maxLayer]. *)
Definition forward_frame {num} (network : NeuralNetwork num) (maxLayer : nat)
  (result : NeuralNetwork num) : Prop :=
  connections result = connections network /\
  activationFunction result = activationFunction network /\
  List.length (layers result) = List.length (layers network) /\
  forall i l,
    nth_error (layers network) i = Some l ->
    exists l',
      nth_error (layers result) i = Some l' /\
      lid l' = lid l /\
      Forall2 same_but_activation (neurons l) (neurons l') /\
      (i = 0 \/ maxLayer < i -> l' = l).


(** The seed network as the caller holds it: its five neuron objects at
    addresses 0..4. *)
Definition seed_store : Store R := flatMap_neurons (layers seed).

Definition seed_ref : NetworkRef R :=
  mkNetworkRef (layout 0 (layers seed)) (connections seed) (activationFunction seed).

(** Two networks with the same weights, biases, input activations,
    topology and activation kind: they agree on everything but the
    activations of the neurons past layer 0. *)
Definition same_inputs {num} (n1 n2 : NeuralNetwork num) : Prop :=
  connections n2 = connections n1 /\
  activationFunction n2 = activationFunction n1 /\
  List.length (layers n2) = List.length (layers n1) /\
  forall i l1,
    nth_error (layers n1) i = Some l1 ->
    exists l2,
      nth_error (layers n2) i = Some l2 /\
      lid l2 = lid l1 /\
      Forall2 same_but_activation (neurons l1) (neurons l2) /\
      (i = 0 -> l2 = l1).

(** ** src/App.tsx: the application state and the value editors *)

Inductive SelectedElement : Type :=
| sel_neuron (id : string)
| sel_connection (id : string).

Inductive Theme : Type := light | dark.

(** The [useState] cells of [App]. *)
Record AppState (num : Type) := mkApp {
  app_network : NeuralNetwork num;
  app_selectedElement : option SelectedElement;
  app_theme : Theme;
  app_isSimulating : bool;
  app_simulationLayer : option nat;
  app_learningRate : num;
  app_loss : option num
}.
Arguments mkApp {num}.
Arguments app_network {num}.
Arguments app_selectedElement {num}.
Arguments app_theme {num}.
Arguments app_isSimulating {num}.
Arguments app_simulationLayer {num}.
Arguments app_learningRate {num}.
Arguments app_loss {num}.

(** [{ ...n, x, y }], [{ ...n, target: v }] and [{ ...c, weight: v }]. *)

Definition set_position {num} (n : Neuron num) (x y : num) : Neuron num :=
  mkNeuron (nid n) (layerIndex n) (neuronIndex n) x y (bias n) (activation n)
           (target n) (error n) (delta n).

Definition set_target {num} (n : Neuron num) (v : num) : Neuron num :=
  mkNeuron (nid n) (layerIndex n) (neuronIndex n) (nx n) (ny n) (bias n)
           (activation n) (Some v) (error n) (delta n).

Definition set_weight {num} (c : Connection num) (v : num) : Connection num :=
  mkConnection (cid c) (fromNeuronId c) (toNeuronId c) v (gradient c).

(** The [key] argument of [updateSelectedValue]. *)
Inductive ValueKey : Type := key_weight | key_bias | key_activation | key_target.

(** [{ ...n, [key]: value }] on a neuron.  Under the key ['weight'] the
    object gets a property that [Neuron] does not declare and that nothing
    reads; the declared fields, which are what a [Neuron] value holds here,
    stay as they were. *)
Definition set_key {num} (n : Neuron num) (key : ValueKey) (value : num)
  : Neuron num :=
  match key with
  | key_weight => n
  | key_bias => set_bias n value
  | key_activation => set_activation n value
  | key_target => set_target n value
  end.

(** [prev.layers.map(l => ({ ...l, neurons: l.neurons.map(f) }))] *)
Definition map_neurons {num} (f : Neuron num -> Neuron num)
  (ls : list (Layer num)) : list (Layer num) :=
  map (fun layer => set_neurons layer (map f (neurons layer))) ls.

(** [toggleTheme] *)
Definition toggleTheme (prevTheme : Theme) : Theme :=
  match prevTheme with light => dark | dark => light end.

Section AppHandlers.

Context {num : Type} {NUM : Number num}.
Local Open Scope num_scope.

Definition updateNeuronPosition (neuronId : string) (x y : num)
  (prev : NeuralNetwork num) : NeuralNetwork num :=
  let newLayers :=
    map_neurons (fun n => if (nid n =? neuronId)%string then set_position n x y else n)
                (layers prev) in
  mkNetwork newLayers (connections prev) (activationFunction prev).

(** The network after [updateSelectedValue(key, value)] with the given
    selection. *)
Definition updateSelectedValue (selectedElement : option SelectedElement)
  (key : ValueKey) (value : num) (prev : NeuralNetwork num) : NeuralNetwork num :=
  match selectedElement with
  | None => prev
  | Some (sel_neuron id) =>
      mkNetwork
        (map_neurons (fun n => if (nid n =? id)%string then set_key n key value else n)
                     (layers prev))
        (connections prev) (activationFunction prev)
  | Some (sel_connection id) =>
      match key with
      | key_weight =>
          mkNetwork (layers prev)
            (map (fun c => if (cid c =? id)%string then set_weight c value else c)
                 (connections prev))
            (activationFunction prev)
      | _ => prev
      end
  end.

Definition setActivationFunction (func : ActivationFunction)
  (prev : NeuralNetwork num) : NeuralNetwork num :=
  mkNetwork (layers prev) (connections prev) func.

(** ** The simulation controls *)

(** The loop of [handleResetSimulation], from [i] for [fuel] iterations. *)
Fixpoint reset_loop (i fuel : nat) (ls : list (Layer num)) : list (Layer num) :=
  match fuel with
  | O => ls
  | S fuel' =>
      match nth_error ls i with
      | Some l =>
          reset_loop (S i) fuel'
            (set_nth i (set_neurons l (map (fun n => set_activation n (lit 0))
                                           (neurons l))) ls)
      | None => ls
      end
  end.

(** The updater that [handleResetSimulation] passes to [setNetwork]. *)
Definition resetNetwork (prev : NeuralNetwork num) : NeuralNetwork num :=
  let newNetwork := prev in
  mkNetwork
    (reset_loop 1 (List.length (layers newNetwork) - 1)%nat (layers newNetwork))
    (connections newNetwork) (activationFunction newNetwork).

Definition handleResetSimulation (st : AppState num) : AppState num :=
  mkApp (resetNetwork (app_network st)) (app_selectedElement st) (app_theme st)
        false None (app_learningRate st) None.

Definition loadNetwork (newNetwork : NeuralNetwork num) (st : AppState num)
  : AppState num :=
  mkApp newNetwork None (app_theme st) (app_isSimulating st)
        (app_simulationLayer st) (app_learningRate st) None.

(** [handleTrainingStep]; an exception of [runTrainingStep] leaves the
    handler before any state is set. *)
Definition handleTrainingStep (st : AppState num) : option (AppState num) :=
  match runTrainingStep (app_network st) (app_learningRate st) with
  | Some (updatedNetwork, finalLoss) =>
      Some (mkApp updatedNetwork (app_selectedElement st) (app_theme st)
                  (app_isSimulating st) (app_simulationLayer st)
                  (app_learningRate st) (Some finalLoss))
  | None => None
  end.

(** The loss of [handleRunSimulation]: the body of
    [outputLayer.neurons.forEach], then the value given to [setLoss]. *)
Definition loss_step (acc : num * nat) (n : Neuron num) : num * nat :=
  match target n with
  | Some t => (fst acc + Math_pow (t - activation n) 2, S (snd acc))
  | None => acc
  end.

Definition simulation_loss (outputLayer : Layer num) : option num :=
  let acc := fold_left loss_step (neurons outputLayer) (lit 0, 0%nat) in
  let currentLoss := fst acc in
  let targetsFound := snd acc in
  if (0 <? targetsFound)%nat then Some (currentLoss / ofNat targetsFound) else None.

(** What the closure [animateLayer] holds: the [network] the click handler
    saw, [layerCount] and the counter [currentLayer]. *)
Record Animation := mkAnimation {
  anim_network : NeuralNetwork num;
  layerCount : nat;
  currentLayer : nat
}.

(** One call of [animateLayer]: the new application state and, when
    [setTimeout(animateLayer, 500)] was called, the closure for the next
    call. *)
Definition animateLayer (a : Animation) (st : AppState num)
  : option (AppState num * option Animation) :=
  if (currentLayer a <? layerCount a)%nat then
    match runForwardPropagation (anim_network a) (Some (currentLayer a)) with
    | None => None
    | Some propagatedNetwork =>
        let next := mkAnimation (anim_network a) (layerCount a) (S (currentLayer a)) in
        if (currentLayer a =? layerCount a - 1)%nat then
          match nth_error (layers propagatedNetwork)
                          (List.length (layers propagatedNetwork) - 1)%nat with
          | Some outputLayer =>
              Some (mkApp propagatedNetwork (app_selectedElement st) (app_theme st)
                          (app_isSimulating st) (Some (currentLayer a))
                          (app_learningRate st) (simulation_loss outputLayer),
                    Some next)
          | None => None
          end
        else
          Some (mkApp propagatedNetwork (app_selectedElement st) (app_theme st)
                      (app_isSimulating st) (Some (currentLayer a))
                      (app_learningRate st) (app_loss st),
                Some next)
    end
  else
    Some (mkApp (app_network st) (app_selectedElement st) (app_theme st)
                false None (app_learningRate st) (app_loss st),
          None).

Definition handleRunSimulation (st : AppState num)
  : option (AppState num * option Animation) :=
  if app_isSimulating st then Some (st, None)
  else
    let layerCount := List.length (layers (app_network st)) in
    animateLayer (mkAnimation (app_network st) layerCount 0)
      (mkApp (app_network st) (app_selectedElement st) (app_theme st)
             true (app_simulationLayer st) (app_learningRate st) (app_loss st)).

(** The network state as a [setNetwork(updater)] call leaves it. *)
Definition setNetwork (updater : NeuralNetwork num -> NeuralNetwork num)
  (st : AppState num) : AppState num :=
  mkApp (updater (app_network st)) (app_selectedElement st) (app_theme st)
        (app_isSimulating st) (app_simulationLayer st) (app_learningRate st)
        (app_loss st).

(** How a run of the simulation ends. *)
Inductive Outcome : Type :=
| Finished (st : AppState num)   (* no timer is pending any more *)
| Threw                          (* a callback raised an exception *)
| Pending.                       (* timers are still pending *)

(** The timer callbacks, at most [fuel] of them.  Before the callback that
    finds the counter at [k], the other events of the page have applied the
    updater [edits k] to the network. *)
Fixpoint run_timers (fuel : nat)
  (edits : nat -> NeuralNetwork num -> NeuralNetwork num)
  (a : Animation) (st : AppState num) : Outcome :=
  match fuel with
  | O => Pending
  | S fuel' =>
      match animateLayer a (setNetwork (edits (currentLayer a)) st) with
      | None => Threw
      | Some (st', Some a') => run_timers fuel' edits a' st'
      | Some (st', None) => Finished st'
      end
  end.

(** A click on "Forward Pass" and the timers that follow it. *)
Definition simulate (fuel : nat)
  (edits : nat -> NeuralNetwork num -> NeuralNetwork num)
  (st : AppState num) : Outcome :=
  match handleRunSimulation st with
  | None => Threw
  | Some (st', Some a) => run_timers fuel edits a st'
  | Some (st', None) => Finished st'
  end.

End AppHandlers.

Arguments Animation : clear implicits.
Arguments Outcome : clear implicits.

(** ** src/hooks/usePanAndZoom.ts, src/components/Canvas.tsx and the two
    SVG components

    The further operations on numbers that the view applies. *)

Class ViewNumber (num : Type) : Type := {
  Math_min : num -> num -> num;
  Math_abs : num -> num;
  lt_num : num -> num -> bool;      (* [a < b] *)
  ge_num : num -> num -> bool;      (* [a >= b] *)
  Object_is : num -> num -> bool    (* how a hook compares a dependency *)
}.

Record Point (num : Type) := mkPoint { pt_x : num; pt_y : num }.
Arguments mkPoint {num}.
Arguments pt_x {num}.
Arguments pt_y {num}.

Record ViewBox (num : Type) := mkViewBox { vb_x : num; vb_y : num; vb_scale : num }.
Arguments mkViewBox {num}.
Arguments vb_x {num}.
Arguments vb_y {num}.
Arguments vb_scale {num}.

(** The fields of [getBoundingClientRect()] that [zoom] reads. *)
Record DOMRect (num : Type) := mkDOMRect { rect_left : num; rect_top : num }.
Arguments mkDOMRect {num}.
Arguments rect_left {num}.
Arguments rect_top {num}.

(** The state of [usePanAndZoom]: the [viewBox] cell, the refs [isPanning]
    and [lastPoint], and the [viewBox] that the current [zoom] callback
    closes over.  [zoom] is memoised by [useCallback] on [viewBox.scale]:
    it is the closure of the last render in which the scale differed from
    the one the previous closure had seen. *)
Record PanZoom (num : Type) := mkPanZoom {
  viewBox : ViewBox num;
  isPanning : bool;
  lastPoint : Point num;
  zoom_viewBox : ViewBox num
}.
Arguments mkPanZoom {num}.
Arguments viewBox {num}.
Arguments isPanning {num}.
Arguments lastPoint {num}.
Arguments zoom_viewBox {num}.

Section PanAndZoom.

Context {num : Type} {NUM : Number num} {VNUM : ViewNumber num}.
Local Open Scope num_scope.

(** The first render. *)
Definition usePanAndZoom_init : PanZoom num :=
  mkPanZoom (mkViewBox (lit 0) (lit 0) (lit 1)) false (mkPoint (lit 0) (lit 0))
            (mkViewBox (lit 0) (lit 0) (lit 1)).

(** [setViewBox(vb)] and the render that follows it. *)
Definition setViewBox (vb : ViewBox num) (h : PanZoom num) : PanZoom num :=
  mkPanZoom vb (isPanning h) (lastPoint h)
    (if Object_is (vb_scale vb) (vb_scale (zoom_viewBox h))
     then zoom_viewBox h else vb).

Definition pan_start (x y : num) (h : PanZoom num) : PanZoom num :=
  mkPanZoom (viewBox h) true (mkPoint x y) (zoom_viewBox h).

Definition pan_move (x y : num) (h : PanZoom num) : PanZoom num :=
  if negb (isPanning h) then h
  else
    let dx := x - pt_x (lastPoint h) in
    let dy := y - pt_y (lastPoint h) in
    let prev := viewBox h in
    setViewBox
      (mkViewBox (vb_x prev - dx / vb_scale prev) (vb_y prev - dy / vb_scale prev)
                 (vb_scale prev))
      (mkPanZoom (viewBox h) (isPanning h) (mkPoint x y) (zoom_viewBox h)).

Definition pan_end (h : PanZoom num) : PanZoom num :=
  mkPanZoom (viewBox h) false (lastPoint h) (zoom_viewBox h).

(** [zoom(delta, clientX, clientY)]; [rect] is the bounding rectangle of
    [svgRef.current], if there is an element. *)
Definition zoom (rect : option (DOMRect num)) (delta clientX clientY : num)
  (h : PanZoom num) : PanZoom num :=
  match rect with
  | None => h
  | Some rect =>
      let viewBox := zoom_viewBox h in
      let scaleFactor := lit 1.1 in
      let newScale :=
        if lt_num delta (lit 0) then vb_scale viewBox * scaleFactor
        else vb_scale viewBox / scaleFactor in
      let newLimitedScale := Math_min (Math_max (lit 0.1) newScale) (lit 5) in
      let mouseX := clientX - rect_left rect in
      let mouseY := clientY - rect_top rect in
      let newX := vb_x viewBox + mouseX / vb_scale viewBox - mouseX / newLimitedScale in
      let newY := vb_y viewBox + mouseY / vb_scale viewBox - mouseY / newLimitedScale in
      setViewBox (mkViewBox newX newY newLimitedScale) h
  end.

(** ** Canvas *)

(** What the handlers read of a mouse event. *)
Record MouseEvent := mkMouseEvent {
  clientX : num;
  clientY : num;
  ctrlKey : bool;
  metaKey : bool;
  target_is_svg : bool            (* [e.target === svgRef.current] *)
}.

(** The entries of [getScreenCTM()] that [handleMouseMove] reads. *)
Record DOMMatrix := mkDOMMatrix { m_a : num; m_d : num; m_e : num; m_f : num }.

Record CanvasState := mkCanvas {
  stickyDraggingNeuron : option string;
  connectionStart : option string;
  mousePosition : Point num;
  panZoom : PanZoom num
}.

(** The calls a handler makes to the props it got from [App]. *)
Inductive Callback : Type :=
| call_setSelectedElement (element : option SelectedElement)
| call_createConnection (fromNeuronId toNeuronId : string)
| call_updateNeuronPosition (neuronId : string) (x y : num).

(** A [string | null] in a condition: the id, when it is neither [null]
    nor the empty string. *)
Definition truthy_id (s : option string) : option string :=
  match s with
  | Some (String a r) => Some (String a r)
  | _ => None
  end.

Definition Canvas_init : CanvasState :=
  mkCanvas None None (mkPoint (lit 0) (lit 0)) usePanAndZoom_init.

Definition handleMouseDown (e : MouseEvent) (c : CanvasState)
  : CanvasState * list Callback :=
  match truthy_id (stickyDraggingNeuron c) with
  | Some _ =>
      (mkCanvas None (connectionStart c) (mousePosition c) (panZoom c), [])
  | None =>
      if target_is_svg e then
        (mkCanvas (stickyDraggingNeuron c) None (mousePosition c)
                  (pan_start (clientX e) (clientY e) (panZoom c)),
         [call_setSelectedElement None])
      else (c, [])
  end.

(** [ctm] is [svgRef.current.getScreenCTM()], when there is an element and
    it has a matrix. *)
Definition handleMouseMove (ctm : option DOMMatrix) (e : MouseEvent)
  (c : CanvasState) : CanvasState * list Callback :=
  match ctm with
  | None => (c, [])
  | Some CTM =>
      let transformedPoint :=
        mkPoint ((clientX e - m_e CTM) / m_a CTM) ((clientY e - m_f CTM) / m_d CTM) in
      let position := mkPoint (clientX e) (clientY e) in
      match truthy_id (stickyDraggingNeuron c) with
      | Some sticky =>
          (mkCanvas (stickyDraggingNeuron c) (connectionStart c) position (panZoom c),
           [call_updateNeuronPosition sticky (pt_x transformedPoint)
                                      (pt_y transformedPoint)])
      | None =>
          (mkCanvas (stickyDraggingNeuron c) (connectionStart c) position
                    (pan_move (clientX e) (clientY e) (panZoom c)),
           [])
      end
  end.

Definition handleMouseUp (c : CanvasState) : CanvasState * list Callback :=
  (mkCanvas (stickyDraggingNeuron c) (connectionStart c) (mousePosition c)
            (pan_end (panZoom c)),
   []).

Definition handleWheel (rect : option (DOMRect num)) (deltaY x y : num)
  (c : CanvasState) : CanvasState * list Callback :=
  (mkCanvas (stickyDraggingNeuron c) (connectionStart c) (mousePosition c)
            (zoom rect deltaY x y (panZoom c)),
   []).

Definition handleNeuronMouseDown (neuronId : string) (e : MouseEvent)
  (c : CanvasState) : CanvasState * list Callback :=
  match truthy_id (stickyDraggingNeuron c) with
  | Some sticky =>
      (mkCanvas None (connectionStart c) (mousePosition c) (panZoom c),
       if negb (sticky =? neuronId)%string
       then [call_setSelectedElement (Some (sel_neuron neuronId))]
       else [])
  | None =>
      if ctrlKey e || metaKey e then
        (mkCanvas (stickyDraggingNeuron c) (Some neuronId) (mousePosition c)
                  (panZoom c),
         [])
      else (c, [call_setSelectedElement (Some (sel_neuron neuronId))])
  end.

Definition handleNeuronMouseUp (neuronId : string) (c : CanvasState)
  : CanvasState * list Callback :=
  (mkCanvas (stickyDraggingNeuron c) None (mousePosition c) (panZoom c),
   match truthy_id (connectionStart c) with
   | Some start =>
       if negb (start =? neuronId)%string
       then [call_createConnection start neuronId]
       else []
   | None => []
   end).

Definition handleNeuronDoubleClick (neuronId : string) (c : CanvasState)
  : CanvasState * list Callback :=
  match truthy_id (stickyDraggingNeuron c) with
  | Some _ => (c, [])
  | None =>
      (mkCanvas (Some neuronId) None (mousePosition c) (panZoom c),
       [call_setSelectedElement (Some (sel_neuron neuronId))])
  end.

(** The events of the [<svg>] element and of the neurons drawn in it. *)
Inductive CanvasEvent : Type :=
| MouseDown (e : MouseEvent)
| MouseMove (ctm : option DOMMatrix) (e : MouseEvent)
| MouseUp
| MouseLeave
| Wheel (rect : option (DOMRect num)) (deltaY x y : num)
| NeuronMouseDown (neuronId : string) (e : MouseEvent)
| NeuronMouseUp (neuronId : string)
| NeuronDoubleClick (neuronId : string).

Definition canvas_step (ev : CanvasEvent) (c : CanvasState)
  : CanvasState * list Callback :=
  match ev with
  | MouseDown e => handleMouseDown e c
  | MouseMove ctm e => handleMouseMove ctm e c
  | MouseUp => handleMouseUp c
  | MouseLeave => handleMouseUp c
  | Wheel rect d x y => handleWheel rect d x y c
  | NeuronMouseDown i e => handleNeuronMouseDown i e c
  | NeuronMouseUp i => handleNeuronMouseUp i c
  | NeuronDoubleClick i => handleNeuronDoubleClick i c
  end.

(** A sequence of events: the final state and the calls made, in order. *)
Fixpoint canvas_run (evs : list CanvasEvent) (c : CanvasState)
  : CanvasState * list Callback :=
  match evs with
  | [] => (c, [])
  | ev :: evs' =>
      let (c1, calls1) := canvas_step ev c in
      let (c2, calls2) := canvas_run evs' c1 in
      (c2, calls1 ++ calls2)%list
  end.

(** What [App] does on a call from the canvas. *)
Definition run_callback (cb : Callback) (st : AppState num) : M num (AppState num) :=
  match cb with
  | call_setSelectedElement element =>
      ret (mkApp (app_network st) element (app_theme st) (app_isSimulating st)
                 (app_simulationLayer st) (app_learningRate st) (app_loss st))
  | call_createConnection f t =>
      net <- createConnection f t (app_network st) ;;
      ret (setNetwork (fun _ => net) st)
  | call_updateNeuronPosition i x y =>
      ret (setNetwork (updateNeuronPosition i x y) st)
  end.

(** ** ConnectionComponent and NeuronComponent: the computed attributes *)

Definition strokeWidth (connection : Connection num) : num :=
  Math_max (lit 0.5) (Math_min (lit 5) (Math_abs (weight connection) * lit 2.5)).

(** The [strokeWidth] attribute of the line. *)
Definition line_strokeWidth (isSelected : bool) (connection : Connection num) : num :=
  if isSelected then strokeWidth connection + lit 1 else strokeWidth connection.

Inductive StrokeColor : Type := green | red.

Definition strokeColor (connection : Connection num) : StrokeColor :=
  if gtb (weight connection) (lit 0) then green else red.

Definition midX (fromNeuron toNeuron : Neuron num) : num :=
  (nx fromNeuron + nx toNeuron) / lit 2.

Definition midY (fromNeuron toNeuron : Neuron num) : num :=
  (ny fromNeuron + ny toNeuron) / lit 2.

Definition activationOpacity (neuron : Neuron num) : num :=
  Math_min (lit 1) (Math_abs (activation neuron)).

Inductive ActivationColor : Type := emerald | rose.

Definition activationColor (neuron : Neuron num) : ActivationColor :=
  if ge_num (activation neuron) (lit 0) then emerald else rose.

End PanAndZoom.

Arguments MouseEvent : clear implicits.
Arguments DOMMatrix : clear implicits.
Arguments CanvasState : clear implicits.
Arguments Callback : clear implicits.
Arguments CanvasEvent : clear implicits.

#[export] Instance RViewNumber : ViewNumber R := {
  Math_min := Rmin;
  Math_abs := Rabs;
  lt_num := fun a b => if Rlt_dec a b then true else false;
  ge_num := fun a b => if Rge_dec a b then true else false;
  Object_is := fun a b => if Req_dec_T a b then true else false
}.

(** ** Vocabulary of the properties of the application handlers *)

(** Where a neuron sits: its id and its two indices. *)
Definition place {num} (n : Neuron num) : string * nat * nat :=
  (nid n, layerIndex n, neuronIndex n).

Definition layer_skeleton {num} (l : Layer num)
  : string * list (string * nat * nat) :=
  (lid l, map place (neurons l)).

(** The structure of a network: the layer ids, the place of every neuron
    and the endpoints of every connection, in order. *)
Definition skeleton {num} (net : NeuralNetwork num)
  : list (string * list (string * nat * nat)) * list (string * string) :=
  (map layer_skeleton (layers net), map endpoints (connections net)).

(** The edits of a value: a drag of a neuron, a slider of the sidebar, the
    activation selector and the Reset button. *)
Inductive value_edit (num : Type) : Type :=
| UpdateNeuronPosition (neuronId : string) (x y : num)
| UpdateSelectedValue (selectedElement : option SelectedElement)
                      (key : ValueKey) (value : num)
| SetActivationFunction (func : ActivationFunction)
| ResetSimulation.
Arguments UpdateNeuronPosition {num}.
Arguments UpdateSelectedValue {num}.
Arguments SetActivationFunction {num}.
Arguments ResetSimulation {num}.

Definition run_value_edit {num} {NUM : Number num} (e : value_edit num)
  (prev : NeuralNetwork num) : NeuralNetwork num :=
  match e with
  | UpdateNeuronPosition i x y => updateNeuronPosition i x y prev
  | UpdateSelectedValue s k v => updateSelectedValue s k v prev
  | SetActivationFunction f => setActivationFunction f prev
  | ResetSimulation => resetNetwork prev
  end.

(** Every neuron past the input layer is at rest: its activation is 0. *)
Definition at_rest {num} {NUM : Number num} (net : NeuralNetwork num) : Prop :=
  forall i l n,
    1 <= i -> nth_error (layers net) i = Some l -> In n (neurons l) ->
    activation n = lit 0.

(** Every neuron of the layer has a target. *)
Definition all_targets {num} (l : Layer num) : Prop :=
  forall n, In n (neurons l) -> target n <> None.

(** The state in which a simulation of [st] ends when the last frame showed
    [result]: the propagated network, further edited by [edit], the loss of
    its output layer, and the simulation flags cleared. *)
Definition simulation_end {num} {NUM : Number num} (st : AppState num)
  (result : NeuralNetwork num) (outputLayer : Layer num)
  (edit : NeuralNetwork num -> NeuralNetwork num) : AppState num :=
  mkApp (edit result) (app_selectedElement st) (app_theme st) false None
        (app_learningRate st) (simulation_loss outputLayer).

(** [f] applied to every neuron of a network. *)
Definition map_network {num} (f : Neuron num -> Neuron num)
  (net : NeuralNetwork num) : NeuralNetwork num :=
  mkNetwork (map_neurons f (layers net)) (connections net) (activationFunction net).

(** The write of the Reset button to one layer. *)
Definition reset_layer {num} {NUM : Number num} (l : Layer num) : Layer num :=
  set_neurons l (map (fun n => set_activation n (lit 0)) (neurons l)).

(** ** Vocabulary of the properties of the view *)

(** A drag of the background: the mouse positions of the successive
    [pan.move] calls. *)
Fixpoint pan_moves {num} {NUM : Number num} {VNUM : ViewNumber num}
  (ps : list (Point num)) (h : PanZoom num) : PanZoom num :=
  match ps with
  | [] => h
  | p :: ps' => pan_moves ps' (pan_move (pt_x p) (pt_y p) h)
  end.

(** The calls that the canvas makes to the hook. *)
Inductive PanZoomCall (num : Type) : Type :=
| PanStart (x y : num)
| PanMove (x y : num)
| PanEnd
| Zoom (rect : option (DOMRect num)) (delta clientX clientY : num).
Arguments PanStart {num}.
Arguments PanMove {num}.
Arguments PanEnd {num}.
Arguments Zoom {num}.

Definition panzoom_step {num} {NUM : Number num} {VNUM : ViewNumber num}
  (c : PanZoomCall num) (h : PanZoom num) : PanZoom num :=
  match c with
  | PanStart x y => pan_start x y h
  | PanMove x y => pan_move x y h
  | PanEnd => pan_end h
  | Zoom rect d x y => zoom rect d x y h
  end.

Definition panzoom_run {num} {NUM : Number num} {VNUM : ViewNumber num}
  (cs : list (PanZoomCall num)) (h : PanZoom num) : PanZoom num :=
  fold_left (fun h c => panzoom_step c h) cs h.


(** Never both: a neuron stuck to the mouse and a connection being drawn. *)
Definition one_gesture {num} (c : CanvasState num) : Prop :=
  truthy_id (stickyDraggingNeuron c) = None \/
  truthy_id (connectionStart c) = None.

(** A request for a connection names two different neurons. *)
Definition proper_call {num} (cb : Callback num) : Prop :=
  match cb with
  | call_createConnection f t => f <> t /\ f <> EmptyString
  | _ => True
  end.

(** The attributes that the two SVG components compute stay in range. *)
Definition attributes_in_range (isSelected : bool) (connection : Connection R)
  (neuron : Neuron R) : Prop :=
  (0.5 <= strokeWidth connection <= 5)%R /\
  (0.5 <= line_strokeWidth isSelected connection <= 6)%R /\
  (strokeColor connection = green <-> (0 < weight connection)%R) /\
  (0 <= activationOpacity neuron <= 1)%R /\
  (activationColor neuron = emerald <-> (0 <= activation neuron)%R).


(** ** Vocabulary of the properties of editing sessions *)

(** The id generator is collision-free for the network: in addition to
    [fresh_uuids], the layer ids it will form are new. *)
Definition generator_ok {num} (w : World num) (net : NeuralNetwork num) : Prop :=
  fresh_uuids w net /\
  forall k, uuid_ix w <= k ->
    ~ In ("layer-" ++ uuid_seq w k)%string (map lid (layers net)).

(** A computation only consumes ids: it leaves the sequence alone and
    moves its index forward. *)
Definition consumes_ids {num A} (m : M num A) : Prop :=
  forall w a w', m w = Some (a, w') ->
    uuid_seq w' = uuid_seq w /\ uuid_ix w <= uuid_ix w'.

(** A sequence of Graph Editor operations. *)
Fixpoint run_ops {num} {NUM : Number num} (ops : list editor_op)
  (net : NeuralNetwork num) : M num (NeuralNetwork num) :=
  match ops with
  | [] => ret net
  | op :: ops' => net' <- run_op op net ;; run_ops ops' net'
  end.

(** What the user can do to the network: a Graph Editor operation, an
    edit of a value, the Train Step button, and the Forward Pass button
    (the network in which its animation ends). *)
Inductive app_action (num : Type) : Type :=
| Edit (op : editor_op)
| Value (e : value_edit num)
| TrainStep (learningRate : num)
| ForwardPass.
Arguments Edit {num}.
Arguments Value {num}.
Arguments TrainStep {num}.
Arguments ForwardPass {num}.

Definition run_action {num} {NUM : Number num} (a : app_action num)
  (net : NeuralNetwork num) : M num (NeuralNetwork num) :=
  match a with
  | Edit op => run_op op net
  | Value e => ret (run_value_edit e net)
  | TrainStep learningRate =>
      match runTrainingStep net learningRate with
      | Some (updatedNetwork, _) => ret updatedNetwork
      | None => throw
      end
  | ForwardPass =>
      match runForwardPropagation net None with
      | Some propagatedNetwork => ret propagatedNetwork
      | None => throw
      end
  end.

Fixpoint run_actions {num} {NUM : Number num} (actions : list (app_action num))
  (net : NeuralNetwork num) : M num (NeuralNetwork num) :=
  match actions with
  | [] => ret net
  | a :: rest => net' <- run_action a net ;; run_actions rest net'
  end.

(** ** Vocabulary of the fixed point of training *)

(** [neuron.target ?? 0] *)
Definition target_or_0 {num} {NUM : Number num} (n : Neuron num) : num :=
  match target n with Some t => t | None => lit 0 end.

(** After the forward pass every output neuron is exactly on its target
    ([neuron.target ?? 0]), and there is one. *)
Definition on_target (net : NeuralNetwork R) : Prop :=
  exists p out,
    runForwardPropagation net None = Some p /\
    nth_error (layers p) (List.length (layers p) - 1) = Some out /\
    neurons out <> [] /\
    forall n, In n (neurons out) -> activation n = target_or_0 n.

(** No input neuron carries a delta that counts (one that is not 0). *)
Definition inputs_without_delta (net : NeuralNetwork R) : Prop :=
  forall l n, nth_error (layers net) 0 = Some l -> In n (neurons l) ->
    truthy_delta n = None.

(** The biases, layer by layer. *)
Definition biases {num} (ls : list (Layer num)) : list (list num) :=
  map (fun l => map bias (neurons l)) ls.

(** An input neuron at 1, wired with weight -1 to a ReLU output neuron
    whose target is 0. *)
Definition content_net : NeuralNetwork R :=
  mkNetwork
    [ mkLayer "layer-0"
        [mkNeuron "a" 0 0 (lit 100) (lit 200) (lit 0) (lit 1) None None None];
      mkLayer "layer-1"
        [mkNeuron "o" 1 0 (lit 250) (lit 200) (lit 0) (lit 0) (Some (lit 0)) None None] ]
    [ mkConnection "c1" "a" "o" (lit (-1)) None ]
    relu_k.

(** * Properties *)

(** ** Layer-count guards *)

(** C8: on a network with exactly 10 layers [addLayer] returns the network
    unchanged (and draws no id or random number); on a network with exactly
    2 layers [removeLayer] does. *)
Theorem layer_count_guards {num} {NUM : Number num}
  (prev : NeuralNetwork num) (w : World num) :
  (List.length (layers prev) = 10 -> addLayer prev w = Some (prev, w)) /\
  (List.length (layers prev) = 2 -> removeLayer prev w = Some (prev, w)).
Proof.
  split; intros Hlen.
  - unfold addLayer. rewrite Hlen. reflexivity.
  - unfold removeLayer. rewrite Hlen. reflexivity.
Qed.

Lemma layer_count_guards_witness :
  List.length (layers seed10) = 10 /\
  addLayer seed10 demo_world = Some (seed10, demo_world) /\
  List.length (layers seed2) = 2 /\
  removeLayer seed2 demo_world = Some (seed2, demo_world).
Proof.
  assert (H10 : List.length (layers seed10) = 10) by (vm_compute; reflexivity).
  assert (H2 : List.length (layers seed2) = 2) by (vm_compute; reflexivity).
  split; [exact H10 | split; [| split; [exact H2 |]]].
  - exact (proj1 (layer_count_guards seed10 demo_world) H10).
  - exact (proj2 (layer_count_guards seed2 demo_world) H2).
Defined.


(** ** Arrays *)

Lemma set_nth_length {A} (i : nat) (v : A) (l : list A) :
  List.length (set_nth i v l) = List.length l.
Proof.
  revert i. induction l as [|h t IH]; intros [|i]; simpl; auto.
Qed.

Lemma nth_error_set_nth_eq {A} (i : nat) (v : A) (l : list A) :
  i < List.length l -> nth_error (set_nth i v l) i = Some v.
Proof.
  revert i. induction l as [|h t IH]; intros [|i] Hi; simpl in *; try lia; auto.
  apply IH. lia.
Qed.

Lemma nth_error_set_nth_ne {A} (i j : nat) (v : A) (l : list A) :
  i <> j -> nth_error (set_nth i v l) j = nth_error l j.
Proof.
  revert i j. induction l as [|h t IH]; intros [|i] [|j] Hij; simpl; auto; try lia.
Qed.

Lemma nth_error_lt {A} (l : list A) (i : nat) (a : A) :
  nth_error l i = Some a -> i < List.length l.
Proof.
  intros H. apply nth_error_Some. rewrite H. discriminate.
Qed.

(** ** The forward loop *)

Section ForwardLoop.

Context {num : Type} {NUM : Number num}.
Variable k : ActivationFunction.
Variable conns : list (Connection num).

Lemma forward_layer_some (i : nat) (ls : list (Layer num)) :
  1 <= i -> i < List.length ls ->
  exists cur prv,
    nth_error ls i = Some cur /\ nth_error ls (i - 1) = Some prv /\
    forward_layer k conns i ls
    = Some (set_nth i (set_neurons cur
                         (map (forward_neuron k conns (neurons prv)) (neurons cur)))
                    ls).
Proof.
  intros H1 Hi.
  destruct (nth_error ls i) as [cur|] eqn:Ec.
  2:{ apply nth_error_None in Ec. lia. }
  destruct (nth_error ls (i - 1)) as [prv|] eqn:Ep.
  2:{ apply nth_error_None in Ep. lia. }
  exists cur, prv. unfold forward_layer. rewrite Ec, Ep. auto.
Qed.


(** The loop over layers [i .. i+fuel-1] of an array that has them all
    returns; it leaves the other layers alone, and layer [p] in the range
    is the forEach of the original layer [p] against the {e result}'s
    layer [p-1]. *)
Lemma forward_loop_spec (fuel : nat) : forall (i : nat) (ls : list (Layer num)),
  1 <= i -> i + fuel <= List.length ls ->
  exists ls',
    forward_loop k conns i fuel ls = Some ls' /\
    List.length ls' = List.length ls /\
    (forall p, p < i \/ i + fuel <= p -> nth_error ls' p = nth_error ls p) /\
    (forall p, i <= p < i + fuel ->
       exists cur prv',
         nth_error ls p = Some cur /\ nth_error ls' (p - 1) = Some prv' /\
         nth_error ls' p
         = Some (set_neurons cur
                   (map (forward_neuron k conns (neurons prv')) (neurons cur)))).
Proof.
  induction fuel as [|fuel IH]; intros i ls H1 Hlen.
  - exists ls. simpl. repeat split; auto. intros p Hp. lia.
  - destruct (forward_layer_some i ls H1 ltac:(lia)) as (cur & prv & Ec & Ep & Ef).
    simpl. rewrite Ef.
    set (ls1 := set_nth i _ ls).
    assert (Hl1 : List.length ls1 = List.length ls) by apply set_nth_length.
    destruct (IH (S i) ls1 ltac:(lia) ltac:(lia)) as (ls' & El & Hl' & Hout & Hin).
    exists ls'. split; [exact El|]. split; [lia|]. split.
    + intros p Hp. rewrite Hout by lia.
      unfold ls1. apply nth_error_set_nth_ne. lia.
    + intros p Hp. destruct (Nat.eq_dec p i) as [->|Hne].
      * exists cur, prv. split; [exact Ec|].
        rewrite !Hout by lia. unfold ls1.
        rewrite nth_error_set_nth_ne by lia.
        rewrite nth_error_set_nth_eq by lia. auto.
      * destruct (Hin p ltac:(lia)) as (cur' & prv' & Ec' & Ep' & En').
        exists cur', prv'. split; [|auto].
        unfold ls1 in Ec'. rewrite nth_error_set_nth_ne in Ec' by lia. exact Ec'.
Qed.


End ForwardLoop.

(** ** Evaluating the engine on concrete real-valued networks *)

Ltac run_engine :=
  cbv -[Q2R Rplus Rminus Rmult Rdiv Ropp Rinv exp Rmax pow Rlt_dec Req_dec_T
        Rtrigo_def.tanh INR IZR Rlt Rle].

Lemma Q2R_0 : Q2R 0 = 0%R.
Proof. unfold Q2R; simpl; lra. Qed.

Lemma Q2R_1 : Q2R 1 = 1%R.
Proof. unfold Q2R; simpl; lra. Qed.

Lemma Rmax_0_0 : Rmax 0 0 = 0%R.
Proof. apply Rmax_left; lra. Qed.

Lemma Rmax_0_1 : Rmax 0 1 = 1%R.
Proof. apply Rmax_right; lra. Qed.

(** ** The forward rule *)

Lemma skip_net_forward : runForwardPropagation skip_net None = Some skip_net_result.
Proof.
  run_engine. rewrite !Q2R_0, !Q2R_1.
  replace (0 + 1 * 1 + 0)%R with 1%R by lra.
  replace (0 + 0)%R with 0%R by lra.
  rewrite Rmax_0_0, Rmax_0_1. reflexivity.
Qed.

Lemma skip_net_claimed_output :
  claimed_activation skip_net_result
    (mkNeuron "o" 2 0 (lit 400) (lit 200) (lit 0) 0%R (Some (lit 1)) None None)
  = 1%R.
Proof.
  run_engine. rewrite !Q2R_0, !Q2R_1.
  replace (0 + (0 + 1 * 1))%R with 1%R by lra.
  apply Rmax_0_1.
Qed.

(** C1 as stated fails: the connection from the input neuron to the output
    neuron of [skip_net] contributes nothing, because the source is looked
    up in the immediately preceding layer only.  The output activation is
    0 where the claimed rule gives 1. *)
Lemma claimed_forward_rule_fails : ~ claimed_forward_rule skip_net None.
Proof.
  intros H.
  specialize (H skip_net_result 2 0
                (mkNeuron "o" 2 0 (lit 400) (lit 200) (lit 0) 0%R (Some (lit 1)) None None)
                skip_net_forward).
  rewrite skip_net_claimed_output in H.
  assert (E : (0 = 1)%R).
  { apply H; [simpl; lia | reflexivity]. }
  lra.
Qed.

Lemma neuron_at_set_neurons {num} (ls : list (Layer num)) (i j : nat)
  (cur : Layer num) (f : Neuron num -> Neuron num) (n0 : Neuron num) :
  nth_error ls i = Some (set_neurons cur (map f (neurons cur))) ->
  nth_error (neurons cur) j = Some n0 ->
  neuron_at ls i j = Some (f n0).
Proof.
  intros Hl Hn. unfold neuron_at. rewrite Hl. simpl.
  rewrite nth_error_map, Hn. reflexivity.
Qed.

(** C1, amended: a pass that stops at an existing layer returns, and the
    new activation of every neuron of a processed layer [i] is the
    activation function of (the sum, over the connections whose
    destination is the neuron and whose source is a neuron of layer [i-1],
    of the source's activation after the pass times the weight) plus the
    bias; layers are processed in increasing order from layer 1. *)
Theorem forward_activation_rule {num} {NUM : Number num}
  (network : NeuralNetwork num) (untilLayer : option nat) :
  maxLayer_of network untilLayer <= List.length (layers network) - 1 ->
  forward_rule network untilLayer.
Proof.
  intros Hmax. unfold forward_rule, runForwardPropagation.
  fold (maxLayer_of network untilLayer).
  destruct (maxLayer_of network untilLayer) as [|m] eqn:Em.
  - exists network. simpl. destruct network; simpl.
    repeat split; auto. intros i j n0 Hi. lia.
  - destruct (forward_loop_spec (activationFunction network) (connections network)
                (S m) 1 (layers network) ltac:(lia) ltac:(lia))
      as (ls' & El & Hl & Hout & Hin).
    rewrite El. eexists. split; [reflexivity|]. simpl.
    split; [reflexivity|]. split; [reflexivity|].
    intros i j n0 Hi Hn.
    destruct (Hin i ltac:(lia)) as (cur & prv' & Ec & Ep & En).
    exists prv'. split; [exact Ep|].
    unfold neuron_at in Hn. rewrite Ec in Hn.
    exact (neuron_at_set_neurons ls' i j cur _ n0 En Hn).
Qed.

Lemma forward_activation_rule_witness :
  maxLayer_of seed None <= List.length (layers seed) - 1 /\
  forward_rule seed None.
Proof.
  assert (H : maxLayer_of seed None <= List.length (layers seed) - 1)
    by (simpl; lia).
  split; [exact H | exact (forward_activation_rule seed None H)].
Defined.

(** ** The loops of the training step *)

Section TrainingLoops.

Context {num : Type} {NUM : Number num}.
Variable D : num -> num.
Variable conns : list (Connection num).
Variable learningRate : num.

Lemma backprop_layer_length (i : nat) (ls : list (Layer num)) :
  List.length (backprop_layer D conns i ls) = List.length ls.
Proof.
  unfold backprop_layer.
  destruct (nth_error ls i); [|reflexivity].
  destruct (nth_error ls (S i)); [|reflexivity].
  apply set_nth_length.
Qed.

(** The descending loop entered at [i]: layers [1 .. i] get their deltas,
    each from the {e resulting} next layer; the others are left alone. *)
Lemma backprop_loop_spec (i : nat) : forall ls : list (Layer num),
  i = 0 \/ S i < List.length ls ->
  let ls' := backprop_loop D conns i ls in
  List.length ls' = List.length ls /\
  (forall p, p = 0 \/ i < p -> nth_error ls' p = nth_error ls p) /\
  (forall p, 1 <= p <= i ->
     exists cur nxt',
       nth_error ls p = Some cur /\ nth_error ls' (S p) = Some nxt' /\
       nth_error ls' p
       = Some (set_neurons cur
                 (map (backprop_neuron D conns (neurons nxt')) (neurons cur)))).
Proof.
  induction i as [|j IH]; intros ls Hlen; cbn [backprop_loop]; cbv zeta.
  - repeat split; auto. intros p Hp. lia.
  - destruct Hlen as [Hlen|Hlen]; [discriminate|].
    destruct (nth_error ls (S j)) as [cur|] eqn:Ec.
    2:{ apply nth_error_None in Ec. lia. }
    destruct (nth_error ls (S (S j))) as [nxt|] eqn:En.
    2:{ apply nth_error_None in En. lia. }
    assert (E1 : backprop_layer D conns (S j) ls
                 = set_nth (S j)
                     (set_neurons cur
                        (map (backprop_neuron D conns (neurons nxt)) (neurons cur)))
                     ls).
    { unfold backprop_layer. rewrite Ec, En. reflexivity. }
    rewrite E1. set (ls1 := set_nth (S j) _ ls).
    assert (Hl1 : List.length ls1 = List.length ls) by apply set_nth_length.
    destruct (IH ls1 ltac:(lia)) as (Hl' & Hout & Hin).
    split; [lia|]. split.
    + intros p Hp. rewrite Hout by lia.
      unfold ls1. apply nth_error_set_nth_ne. lia.
    + intros p Hp. destruct (Nat.eq_dec p (S j)) as [->|Hne].
      * exists cur, nxt. split; [exact Ec|].
        rewrite !Hout by lia. split.
        -- etransitivity; [apply nth_error_set_nth_ne; lia | exact En].
        -- apply nth_error_set_nth_eq. lia.
      * destruct (Hin p ltac:(lia)) as (cur' & nxt' & Ec' & En' & Ep').
        exists cur', nxt'. split; [|auto].
        unfold ls1 in Ec'. rewrite nth_error_set_nth_ne in Ec' by lia. exact Ec'.
Qed.

(** The bias loop over layers [i .. i+fuel-1]. *)
Lemma bias_loop_spec (fuel : nat) : forall (i : nat) (ls : list (Layer num)),
  i + fuel <= List.length ls ->
  let ls' := bias_loop learningRate i fuel ls in
  List.length ls' = List.length ls /\
  (forall p, p < i \/ i + fuel <= p -> nth_error ls' p = nth_error ls p) /\
  (forall p, i <= p < i + fuel ->
     exists l,
       nth_error ls p = Some l /\
       nth_error ls' p
       = Some (set_neurons l (map (update_bias learningRate) (neurons l)))).
Proof.
  induction fuel as [|fuel IH]; intros i ls Hlen; simpl.
  - repeat split; auto. intros p Hp. lia.
  - destruct (nth_error ls i) as [l|] eqn:El.
    2:{ apply nth_error_None in El. lia. }
    set (ls1 := set_nth i _ ls).
    assert (Hl1 : List.length ls1 = List.length ls) by apply set_nth_length.
    destruct (IH (S i) ls1 ltac:(lia)) as (Hl' & Hout & Hin).
    split; [lia|]. split.
    + intros p Hp. rewrite Hout by lia.
      unfold ls1. apply nth_error_set_nth_ne. lia.
    + intros p Hp. destruct (Nat.eq_dec p i) as [->|Hne].
      * exists l. split; [exact El|].
        rewrite Hout by lia. unfold ls1.
        apply nth_error_set_nth_eq. lia.
      * destruct (Hin p ltac:(lia)) as (l' & El' & Ep').
        exists l'. split; [|auto].
        unfold ls1 in El'. rewrite nth_error_set_nth_ne in El' by lia. exact El'.
Qed.

End TrainingLoops.

(** ** What the backward pass reads is stable under the bias update *)

Lemma Forall2_of_nth_error {A B} (R : A -> B -> Prop) :
  forall (l : list A) (l' : list B),
  List.length l = List.length l' ->
  (forall p a b, nth_error l p = Some a -> nth_error l' p = Some b -> R a b) ->
  Forall2 R l l'.
Proof.
  induction l as [|a l IH]; intros [|b l'] Hlen H; simpl in Hlen; try discriminate.
  - constructor.
  - constructor.
    + apply (H 0); reflexivity.
    + apply IH; [lia|]. intros p a' b' Ha Hb. apply (H (S p)); assumption.
Qed.

Section SameSignal.

Context {num : Type} {NUM : Number num}.

Lemma same_signal_refl (n : Neuron num) : same_signal n n.
Proof. repeat split. Qed.

Lemma truthy_delta_same (n n' : Neuron num) :
  same_signal n n' -> truthy_delta n' = truthy_delta n.
Proof. intros (_ & _ & Hd). unfold truthy_delta. rewrite Hd. reflexivity. Qed.

Lemma update_bias_same_signal (lr : num) (n : Neuron num) :
  same_signal n (update_bias lr n).
Proof.
  unfold update_bias. destruct (truthy_delta n); repeat split.
Qed.

Lemma find_neuron_same_signal (i : string) (ns ns' : list (Neuron num)) :
  Forall2 same_signal ns ns' ->
  match find_neuron i ns, find_neuron i ns' with
  | Some a, Some a' => same_signal a a'
  | None, None => True
  | _, _ => False
  end.
Proof.
  unfold find_neuron. induction 1 as [|n n' ns ns' Hn _ IH]; simpl; [exact I|].
  destruct Hn as (Hid & Ha & Hd). rewrite Hid.
  destruct (nid n =? i)%string; [|exact IH].
  repeat split; assumption.
Qed.

Lemma flat_same_signal (ls ls' : list (Layer num)) :
  Forall2 (fun l l' => Forall2 same_signal (neurons l) (neurons l')) ls ls' ->
  Forall2 same_signal (flatMap_neurons ls) (flatMap_neurons ls').
Proof.
  unfold flatMap_neurons. induction 1 as [|l l' ls ls' Hl _ IH]; simpl.
  - constructor.
  - apply Forall2_app; assumption.
Qed.

Lemma backprop_step_same (ns ns' : list (Neuron num)) (e : num) (c : Connection num) :
  Forall2 same_signal ns ns' -> backprop_step ns e c = backprop_step ns' e c.
Proof.
  intros H. unfold backprop_step.
  pose proof (find_neuron_same_signal (toNeuronId c) ns ns' H) as Hf.
  destruct (find_neuron (toNeuronId c) ns) as [a|],
           (find_neuron (toNeuronId c) ns') as [a'|]; try contradiction; auto.
  rewrite (truthy_delta_same a a' Hf). reflexivity.
Qed.

Lemma backprop_fold_same (ns ns' : list (Neuron num)) (cs : list (Connection num)) :
  Forall2 same_signal ns ns' ->
  forall e, fold_left (backprop_step ns) cs e = fold_left (backprop_step ns') cs e.
Proof.
  intros H. induction cs as [|c cs IH]; intros e; simpl; [reflexivity|].
  rewrite (backprop_step_same ns ns' e c H). apply IH.
Qed.

Lemma update_connection_same (lr : num) (ls ls' : list (Layer num))
  (c : Connection num) :
  Forall2 (fun l l' => Forall2 same_signal (neurons l) (neurons l')) ls ls' ->
  update_connection lr ls c = update_connection lr ls' c.
Proof.
  intros H. apply flat_same_signal in H. unfold update_connection.
  pose proof (find_neuron_same_signal (fromNeuronId c) _ _ H) as Hf.
  pose proof (find_neuron_same_signal (toNeuronId c) _ _ H) as Ht.
  destruct (find_neuron (fromNeuronId c) (flatMap_neurons ls)) as [a|],
           (find_neuron (fromNeuronId c) (flatMap_neurons ls')) as [a'|];
    try contradiction; auto.
  destruct (find_neuron (toNeuronId c) (flatMap_neurons ls)) as [b|],
           (find_neuron (toNeuronId c) (flatMap_neurons ls')) as [b'|];
    try contradiction; auto.
  rewrite (truthy_delta_same b b' Ht).
  destruct Hf as (_ & Ha & _). rewrite Ha. reflexivity.
Qed.

Lemma map_same_signal (g : Neuron num -> Neuron num) (ns : list (Neuron num)) :
  (forall n, same_signal n (g n)) -> Forall2 same_signal ns (map g ns).
Proof.
  intros Hg. induction ns; simpl; constructor; auto.
Qed.

Lemma Forall2_same_signal_refl (ns : list (Neuron num)) :
  Forall2 same_signal ns ns.
Proof. induction ns; constructor; auto using same_signal_refl. Qed.

End SameSignal.

(** ** The training step *)

Lemma runForwardPropagation_full {num} {NUM : Number num}
  (network : NeuralNetwork num) :
  exists propagated,
    runForwardPropagation network None = Some propagated /\
    List.length (layers propagated) = List.length (layers network) /\
    connections propagated = connections network /\
    activationFunction propagated = activationFunction network.
Proof.
  unfold runForwardPropagation.
  destruct (List.length (layers network) - 1) as [|m] eqn:Em.
  - exists network. destruct network; simpl. auto.
  - destruct (forward_loop_spec (activationFunction network) (connections network)
                (S m) 1 (layers network) ltac:(lia) ltac:(lia))
      as (ls' & El & Hl & _).
    rewrite El. eexists. split; [reflexivity|]. simpl. auto.
Qed.

Lemma neuron_at_some {num} (ls : list (Layer num)) (i j : nat) (n : Neuron num) :
  neuron_at ls i j = Some n ->
  exists l, nth_error ls i = Some l /\ nth_error (neurons l) j = Some n.
Proof.
  unfold neuron_at. destruct (nth_error ls i) as [l|]; [|discriminate].
  intros H. exists l. auto.
Qed.

(** C4, amended: the training step runs the full forward pass, sets error
    and delta of the output neurons, returns the mean of the squared
    output errors, sets the hidden deltas from the second-to-last layer
    down to layer 1 (counting only next-layer neurons whose delta is not
    zero), and then updates a connection (gradient and weight) only when
    its source and destination exist and the destination's delta is not
    zero, and the bias of a non-input neuron only when its delta is not
    zero; every other connection and bias is left as it was. *)
Theorem runTrainingStep_rule {num} {NUM : Number num}
  (network : NeuralNetwork num) (learningRate : num) :
  layers network <> [] ->
  training_rule network learningRate.
Proof.
  intros Hne.
  destruct (runForwardPropagation_full network) as (p & Ep & Hlp & _ & _).
  unfold training_rule, runTrainingStep. rewrite Ep.
  set (D := activationDerivatives (activationFunction p)).
  set (len := List.length (layers p)).
  assert (Hlen : 1 <= len).
  { unfold len. rewrite Hlp. destruct (layers network); [congruence|simpl; lia]. }
  destruct (nth_error (layers p) (len - 1)) as [out|] eqn:Eout.
  2:{ apply nth_error_None in Eout. fold len in Eout. lia. }
  set (out2 := set_neurons out (map (output_neuron D) (neurons out))).
  set (ls2 := set_nth (len - 1) out2 (layers p)).
  set (ls3 := backprop_loop D (connections p) (len - 2) ls2).
  set (ls5 := bias_loop learningRate 1 (len - 1) ls3).
  assert (Hl2 : List.length ls2 = len) by apply set_nth_length.
  assert (H2last : nth_error ls2 (len - 1) = Some out2).
  { apply nth_error_set_nth_eq. fold len. lia. }
  assert (H2other : forall q, q <> len - 1 -> nth_error ls2 q = nth_error (layers p) q).
  { intros q Hq. apply nth_error_set_nth_ne. lia. }
  destruct (backprop_loop_spec D (connections p) (len - 2) ls2 ltac:(lia))
    as (Hl3 & H3out & H3in).
  fold ls3 in Hl3, H3out, H3in.
  destruct (bias_loop_spec learningRate (len - 1) 1 ls3 ltac:(lia))
    as (Hl5 & H5out & H5in).
  fold ls5 in Hl5, H5out, H5in.
  assert (Hrel : Forall2 (fun l l' => Forall2 same_signal (neurons l) (neurons l'))
                         ls3 ls5).
  { apply Forall2_of_nth_error; [lia|].
    intros q a b Ha Hb.
    destruct (Nat.eq_dec q 0) as [->|Hq].
    - rewrite H5out, Ha in Hb by lia. inversion Hb; subst.
      apply Forall2_same_signal_refl.
    - assert (Hq' : q < len).
      { apply nth_error_lt in Ha. lia. }
      destruct (H5in q ltac:(lia)) as (l & El & El').
      rewrite Ha in El. inversion El; subst l.
      rewrite Hb in El'. inversion El'; subst b. simpl.
      apply map_same_signal. apply update_bias_same_signal. }
  exists p. eexists. eexists. exists out.
  split; [reflexivity|]. split; [reflexivity|].
  cbv zeta. fold len. fold D.
  split; [exact Eout|]. split; [reflexivity|]. split; [reflexivity|].
  cbn [layers connections activationFunction].
  split; [lia|]. split.
  - (* neurons *)
    intros i j n Hn.
    destruct (neuron_at_some _ _ _ _ Hn) as (l & El & Ej).
    assert (Hi : i < len) by (apply nth_error_lt in El; exact El).
    destruct (Nat.eq_dec i (len - 1)) as [Hlast|Hnl].
    + (* output layer *)
      subst i. rewrite Eout in El. inversion El; subst l.
      assert (E3 : nth_error ls3 (len - 1) = Some out2).
      { rewrite H3out by lia. exact H2last. }
      destruct (Nat.eq_dec (len - 1) 0) as [Hz|Hnz].
      * (* a single layer: no bias update *)
        assert (E5 : nth_error ls5 (len - 1) = Some out2).
        { rewrite H5out by lia. exact E3. }
        exists (output_neuron D n). split.
        { unfold neuron_at. rewrite E5. unfold out2. simpl.
          rewrite nth_error_map, Ej. reflexivity. }
        simpl. repeat split; auto; intros; lia.
      * destruct (H5in (len - 1) ltac:(lia)) as (l3 & El3 & El5).
        rewrite E3 in El3. inversion El3; subst l3.
        exists (update_bias learningRate (output_neuron D n)). split.
        { unfold neuron_at. rewrite El5. unfold out2. simpl.
          rewrite !nth_error_map, Ej. reflexivity. }
        pose proof (truthy_delta_same _ _
                      (update_bias_same_signal learningRate (output_neuron D n)))
          as Htd.
        rewrite Htd. unfold update_bias.
        destruct (truthy_delta (output_neuron D n)); simpl;
          repeat split; auto; intros; lia.
    + destruct (Nat.eq_dec i 0) as [Hz|Hnz].
      * (* input layer *)
        subst i. exists n. split.
        { unfold neuron_at. rewrite H5out, H3out, H2other, El by lia. exact Ej. }
        repeat split; auto; intros; lia.
      * (* hidden layer *)
        destruct (H3in i ltac:(lia)) as (cur & nxt3 & Ec & En3 & Ei3).
        rewrite H2other, El in Ec by lia. inversion Ec; subst cur.
        destruct (H5in i ltac:(lia)) as (l3 & El3 & El5).
        rewrite Ei3 in El3. inversion El3; subst l3.
        destruct (H5in (S i) ltac:(lia)) as (l3' & El3' & El5').
        rewrite En3 in El3'. inversion El3'; subst l3'.
        set (n3 := backprop_neuron D (connections p) (neurons nxt3) n).
        exists (update_bias learningRate n3). split.
        { unfold neuron_at. rewrite El5. simpl.
          rewrite !nth_error_map, Ej. reflexivity. }
        pose proof (truthy_delta_same _ _ (update_bias_same_signal learningRate n3))
          as Htd.
        rewrite Htd.
        assert (Hd : delta (update_bias learningRate n3) = delta n3).
        { apply (update_bias_same_signal learningRate n3). }
        assert (He : error (update_bias learningRate n3) = error n).
        { unfold update_bias. destruct (truthy_delta n3); reflexivity. }
        split; [unfold update_bias; destruct (truthy_delta n3); reflexivity|].
        split; [unfold update_bias; destruct (truthy_delta n3); reflexivity|].
        split; [unfold update_bias; destruct (truthy_delta n3); reflexivity|].
        split; [unfold update_bias; destruct (truthy_delta n3); reflexivity|].
        split; [unfold update_bias; destruct (truthy_delta n3); reflexivity|].
        split; [unfold update_bias; destruct (truthy_delta n3); reflexivity|].
        split; [unfold update_bias; destruct (truthy_delta n3); reflexivity|].
        split; [intros; lia|].
        split.
        { intros _. split; [exact He|].
          eexists. split; [exact El5'|].
          rewrite Hd. unfold n3, backprop_neuron. simpl. f_equal. f_equal.
          apply backprop_fold_same.
          apply map_same_signal. apply update_bias_same_signal. }
        split; [intros; lia|]. split; [intros; lia|].
        intros _. unfold update_bias. destruct (truthy_delta n3); reflexivity.
  - (* connections *)
    apply map_ext. intros c.
    rewrite (update_connection_same learningRate ls3 ls5 c Hrel).
    reflexivity.
Qed.

Lemma runTrainingStep_rule_witness :
  layers seed <> [] /\ training_rule seed (lit 0.1).
Proof.
  assert (H : layers seed <> []) by (simpl; discriminate).
  split; [exact H | exact (runTrainingStep_rule seed (lit 0.1) H)].
Defined.

Lemma Q2R_m1 : Q2R (-1) = (-1)%R.
Proof. unfold Q2R; simpl; lra. Qed.

(** The training step on [dead_relu_net]: the output activation is
    [relu(-1) = 0], the error [1 - 0 = 1], the delta [1 * relu'(0) = 0];
    the zero delta is falsy, so the connection keeps its weight and gets no
    gradient. *)
Lemma dead_relu_training :
  runTrainingStep dead_relu_net (lit 0.1) = Some (dead_relu_trained, 1%R).
Proof.
  run_engine.
  assert (EA : Rmax (Q2R 0) (Q2R 0 + Q2R 1 * Q2R (-1) + Q2R 0) = 0%R).
  { rewrite Q2R_0, Q2R_1, Q2R_m1. apply Rmax_left. lra. }
  rewrite !EA.
  destruct (Rlt_dec (Q2R 0) 0) as [Hlt|_].
  { rewrite Q2R_0 in Hlt. lra. }
  destruct (Req_dec_T ((Q2R 1 - 0) * Q2R 0) 0) as [_|Hne].
  2:{ exfalso. apply Hne. rewrite Q2R_0. lra. }
  rewrite !Q2R_0, !Q2R_1.
  replace ((1 - 0) * 0)%R with 0%R by lra.
  replace (1 - 0)%R with 1%R by lra.
  replace ((0 + 1 ^ 2) / INR 1)%R with 1%R by (simpl; lra).
  reflexivity.
Qed.

(** C4 as stated fails: after the training step on [dead_relu_net] the
    destination of the connection has a computed delta (0), yet the
    connection's gradient is unset instead of [1 * 0]. *)
Lemma claimed_gradient_rule_fails :
  ~ claimed_gradient_rule dead_relu_net (lit 0.1).
Proof.
  intros H.
  specialize (H dead_relu_trained 1%R
                (mkConnection "c1" "a" "o" (lit (-1)) None)
                (mkNeuron "a" 0 0 (lit 100) (lit 200) (lit 0) (lit 1) None None None)
                (mkNeuron "o" 1 0 (lit 250) (lit 200) (lit 0) 0%R (Some (lit 1))
                          (Some 1%R) (Some 0%R))
                0%R dead_relu_training).
  assert (E : @None R = Some (Q2R 1 * 0)%R).
  { apply H; try reflexivity. simpl. left. reflexivity. }
  discriminate E.
Qed.

(** ** Removing the only neuron of a layer *)

(** C2 (code defect): ["uuid-4"] is the only neuron of the output layer of
    the seed network.  [removeNeuron] keeps the layers as they are, but it
    still deletes the two connections that end in that neuron. *)
Theorem removeNeuron_sole_neuron_drops_connections :
  map (fun l => map nid (neurons l)) (layers seed)
  = [["uuid-0"; "uuid-1"]; ["uuid-2"; "uuid-3"]; ["uuid-4"]] /\
  layers (removeNeuron "uuid-4" seed) = layers seed /\
  map endpoints (connections seed)
  = [("uuid-0", "uuid-2"); ("uuid-0", "uuid-3"); ("uuid-1", "uuid-2");
     ("uuid-1", "uuid-3"); ("uuid-2", "uuid-4"); ("uuid-3", "uuid-4")] /\
  map endpoints (connections (removeNeuron "uuid-4" seed))
  = [("uuid-0", "uuid-2"); ("uuid-0", "uuid-3"); ("uuid-1", "uuid-2");
     ("uuid-1", "uuid-3")].
Proof.
  repeat split; vm_compute; reflexivity.
Qed.

(** ** Duplicate connections *)

(** C3 (code defect): the seed network with one more connection, from the
    first input neuron to the output neuron, has no duplicate pair; after
    [removeLayer] the pair occurs twice, because the reconnection of the
    layer before to the output layer adds it without looking. *)
Theorem removeLayer_duplicates_connection :
  createConnection "uuid-0" "uuid-4" seed demo_world = Some seed_skip /\
  map endpoints (connections (fst seed_skip))
  = [("uuid-0", "uuid-2"); ("uuid-0", "uuid-3"); ("uuid-1", "uuid-2");
     ("uuid-1", "uuid-3"); ("uuid-2", "uuid-4"); ("uuid-3", "uuid-4");
     ("uuid-0", "uuid-4")] /\
  (exists w, removeLayer (fst seed_skip) (snd seed_skip)
             = Some (seed_skip_removed, w)) /\
  map endpoints (connections seed_skip_removed)
  = [("uuid-0", "uuid-4"); ("uuid-0", "uuid-4"); ("uuid-1", "uuid-4")] /\
  ~ NoDup (map endpoints (connections seed_skip_removed)).
Proof.
  assert (E : map endpoints (connections seed_skip_removed)
              = [("uuid-0", "uuid-4"); ("uuid-0", "uuid-4"); ("uuid-1", "uuid-4")])
    by (vm_compute; reflexivity).
  split; [vm_compute; reflexivity|].
  split; [vm_compute; reflexivity|].
  split; [eexists; vm_compute; reflexivity|].
  split; [exact E|].
  rewrite E. intros H. inversion H as [|x l Hin _]; subst.
  apply Hin. left. reflexivity.
Qed.

(** ** createConnection *)

Lemma network_eta {num} (prev : NeuralNetwork num) :
  mkNetwork (layers prev) (connections prev) (activationFunction prev) = prev.
Proof. destruct prev; reflexivity. Qed.

(** C6: [createConnection] returns the network unchanged when an id names
    no neuron, when the source's layer index is not strictly less than the
    destination's, or when the pair is already connected; otherwise it
    appends exactly one connection between the two ids, with a weight in
    [-1, 1], and changes nothing else.  [Math.random()] returns a value in
    [0, 1). *)
Theorem createConnection_cases (prev : NeuralNetwork R) (fromId toId : string)
  (w : World R) :
  (0 <= rand_seq w (rand_ix w) < 1)%R ->
  createConnection_contract prev fromId toId w.
Proof.
  intros Hr. unfold createConnection_contract, connection_rejected, createConnection.
  destruct (find_neuron fromId (flatMap_neurons (layers prev))) as [a|] eqn:Ea.
  2:{ split; [reflexivity|]. intros H. exfalso. apply H. left. reflexivity. }
  destruct (find_neuron toId (flatMap_neurons (layers prev))) as [b|] eqn:Eb.
  2:{ split; [reflexivity|]. intros H. exfalso. apply H. right. left. reflexivity. }
  destruct (layerIndex b <=? layerIndex a) eqn:Ele.
  { split; [reflexivity|]. intros H. exfalso. apply H. right. right. left.
    exists a, b. apply Nat.leb_le in Ele. repeat split; auto. lia. }
  apply Nat.leb_gt in Ele.
  destruct (find (fun c => (fromNeuronId c =? fromId)%string
                           && (toNeuronId c =? toId)%string)
                 (connections prev)) as [c|] eqn:Ef.
  { split; [reflexivity|]. intros H. exfalso. apply H. right. right. right.
    apply find_some in Ef. destruct Ef as (Hin & Hc).
    apply andb_true_iff in Hc. destruct Hc as (Hc1 & Hc2).
    apply String.eqb_eq in Hc1, Hc2. exists c. auto. }
  split.
  - intros [H|[H|[(a' & b' & Ha' & Hb' & Hlt)|(c & Hin & Hc1 & Hc2)]]];
      try discriminate.
    + inversion Ha'; inversion Hb'; subst. lia.
    + pose proof (find_none _ _ Ef c Hin) as Hc. simpl in Hc.
      rewrite Hc1, Hc2, !String.eqb_refl in Hc. discriminate.
  - intros _. unfold bind, uuidv4, Math_random, ret. simpl.
    eexists. eexists. split; [reflexivity|]. simpl.
    repeat split; lra.
Qed.

Lemma createConnection_cases_witness :
  (0 <= rand_seq demo_world (rand_ix demo_world) < 1)%R /\
  createConnection_contract seed "uuid-0" "uuid-4" demo_world.
Proof.
  assert (H : (0 <= rand_seq demo_world (rand_ix demo_world) < 1)%R)
    by (simpl; lra).
  split; [exact H | exact (createConnection_cases seed "uuid-0" "uuid-4" demo_world H)].
Defined.

(** ** Enclosures of the exponential *)

Section ExpEnclosure.

Local Open Scope R_scope.

Lemma exp_term_decreasing (x : R) : 0 <= x <= 1 -> Un_decreasing (exp_term x).
Proof.
  intros [H0 H1] n. unfold exp_term.
  assert (Hf : 0 < INR (fact n)) by (apply lt_0_INR, lt_O_fact).
  assert (Hs : 1 <= INR (S n)).
  { replace 1 with (INR 1) by reflexivity. apply le_INR. lia. }
  assert (Ht : 0 <= x ^ n / INR (fact n)).
  { apply Rmult_le_pos; [apply pow_le; exact H0 | left; apply Rinv_0_lt_compat; exact Hf]. }
  rewrite fact_simpl, mult_INR.
  replace (x ^ S n / (INR (S n) * INR (fact n)))
    with ((x / INR (S n)) * (x ^ n / INR (fact n)))
    by (cbn [pow]; field; split; lra).
  assert (Hx : x / INR (S n) <= 1).
  { apply Rmult_le_reg_r with (INR (S n)); [lra|].
    unfold Rdiv. rewrite Rmult_assoc, Rinv_l by lra. lra. }
  assert (Hx0 : 0 <= x / INR (S n)).
  { apply Rmult_le_pos; [exact H0 | left; apply Rinv_0_lt_compat; lra]. }
  nra.
Qed.

Lemma exp_neg_series (x : R) :
  Un_cv (fun N => sum_f_R0 (tg_alt (exp_term x)) N) (exp (- x)).
Proof.
  unfold exp. destruct (exist_exp (- x)) as (l & Hl). simpl.
  intros eps Heps. destruct (Hl eps Heps) as (N & HN).
  exists N. intros n Hn.
  rewrite (sum_eq _ (fun i => / INR (fact i) * (- x) ^ i)).
  - apply HN. exact Hn.
  - intros i _. unfold tg_alt, exp_term.
    replace (- x) with (-1 * x) by ring.
    rewrite Rpow_mult_distr. unfold Rdiv. ring.
Qed.

Lemma exp_neg_bounds (x : R) (N : nat) :
  0 <= x <= 1 ->
  sum_f_R0 (tg_alt (exp_term x)) (S (2 * N)) <= exp (- x)
  <= sum_f_R0 (tg_alt (exp_term x)) (2 * N).
Proof.
  intros Hx. apply alternated_series_ineq.
  - apply exp_term_decreasing. exact Hx.
  - apply cv_speed_pow_fact.
  - apply exp_neg_series.
Qed.

Lemma exp_neg_enclosure (x : R) :
  0 <= x <= 1 -> exp_neg_lower x <= exp (- x) <= exp_neg_upper x.
Proof.
  intros Hx. pose proof (exp_neg_bounds x 3 Hx) as H.
  assert (E6 : sum_f_R0 (tg_alt (exp_term x)) (2 * 3) = exp_neg_upper x).
  { unfold exp_neg_upper, tg_alt, exp_term. 
    cbn [Nat.mul Nat.add sum_f_R0].
    rewrite !INR_IZR_INZ.
    cbn [fact Nat.mul Nat.add Z.of_nat Pos.of_succ_nat Pos.succ]. 
    field. }
  assert (E7 : sum_f_R0 (tg_alt (exp_term x)) (S (2 * 3)) = exp_neg_lower x).
  { change (S (2 * 3)) with (S (2 * 3))%nat. rewrite tech5, E6.
    unfold exp_neg_lower, tg_alt, exp_term. rewrite INR_IZR_INZ.
    cbn [Nat.mul Nat.add fact Z.of_nat Pos.of_succ_nat Pos.succ].
    field. }
  rewrite E6, E7 in H. exact H.
Qed.

End ExpEnclosure.

(** ** Known values of the seed network *)

Section KnownValues.

Local Open Scope R_scope.

Lemma recip_bounds (e lo hi : R) :
  0 < lo -> lo < e < hi -> 1 / (1 + hi) < 1 / (1 + e) < 1 / (1 + lo).
Proof.
  intros Hlo [H1 H2]. unfold Rdiv. rewrite !Rmult_1_l.
  split; apply Rinv_lt_contravar; try lra; apply Rmult_lt_0_compat; lra.
Qed.

Lemma exp_neg_half : 0.6065305 < exp (- (0.5)) < 0.6065322.
Proof.
  pose proof (exp_neg_enclosure 0.5 ltac:(lra)) as H.
  unfold exp_neg_lower, exp_neg_upper in H. cbn [pow] in H. lra.
Qed.

Lemma exp_neg_03 : 0.7408182 < exp (- (0.3)) < 0.7408183.
Proof.
  pose proof (exp_neg_enclosure 0.3 ltac:(lra)) as H.
  unfold exp_neg_lower, exp_neg_upper in H. cbn [pow] in H. lra.
Qed.

Lemma seed_h1_bounds : 0.622458 < seed_h1 < 0.622460.
Proof.
  unfold seed_h1, sigmoid. cbn [lit add div neg Math_exp RNumber].
  pose proof (recip_bounds (exp (- (0.5))) 0.6065305 0.6065322 ltac:(lra) exp_neg_half)
    as H.
  replace (Q2R 1) with 1 by lra. lra.
Qed.

Lemma seed_h2_bounds : 0.425557 < seed_h2 < 0.425558.
Proof.
  unfold seed_h2, sigmoid. cbn [lit add div neg Math_exp RNumber].
  replace (- -0.3) with (- - (0.3)) by lra.
  rewrite exp_Ropp.
  pose proof exp_neg_03 as He.
  assert (Hi : 1.3498586 < / exp (- (0.3)) < 1.3498590).
  { split.
    - apply Rmult_lt_reg_r with (exp (- (0.3))); [lra|]. rewrite Rinv_l by lra. lra.
    - apply Rmult_lt_reg_r with (exp (- (0.3))); [lra|]. rewrite Rinv_l by lra. lra. }
  pose proof (recip_bounds (/ exp (- (0.3))) 1.3498586 1.3498590 ltac:(lra) Hi) as H.
  replace (Q2R 1) with 1 by lra. lra.
Qed.

Lemma seed_pre_bounds : 0.26549 < seed_pre < 0.26550.
Proof.
  unfold seed_pre. pose proof seed_h1_bounds. pose proof seed_h2_bounds. lra.
Qed.

Lemma seed_out_bounds : 0.565985 < seed_out < 0.565988.
Proof.
  unfold seed_out, sigmoid. cbn [lit add div neg Math_exp RNumber].
  pose proof seed_pre_bounds as Hp.
  assert (He : 0.766822 < exp (- seed_pre) < 0.766831).
  { split.
    - apply Rlt_le_trans with (exp (- (0.2655))).
      + pose proof (exp_neg_enclosure 0.2655 ltac:(lra)) as H.
        unfold exp_neg_lower, exp_neg_upper in H. cbn [pow] in H. lra.
      + left. apply exp_increasing. lra.
    - apply Rlt_le_trans with (exp (- (0.26549))).
      + apply exp_increasing. lra.
      + pose proof (exp_neg_enclosure 0.26549 ltac:(lra)) as H.
        unfold exp_neg_lower, exp_neg_upper in H. cbn [pow] in H. lra. }
  pose proof (recip_bounds (exp (- seed_pre)) 0.766822 0.766831 ltac:(lra) He) as H.
  replace (Q2R 1) with 1 by lra. lra.
Qed.

Lemma seed_loss_bounds : 0.188366 < (0 + (1 - seed_out) ^ 2) / 1 < 0.188370.
Proof.
  pose proof seed_out_bounds as Ho.
  replace ((0 + (1 - seed_out) ^ 2) / 1) with ((1 - seed_out) * (1 - seed_out))
    by (simpl; field).
  split; nra.
Qed.

End KnownValues.

Ltac run_engine_ids :=
  cbv -[Q2R Rplus Rminus Rmult Rdiv Ropp Rinv exp Rmax pow Rlt_dec Req_dec_T
        Rtrigo_def.tanh INR IZR Rlt Rle String.eqb
        sigmoid seed_h1 seed_h2 seed_pre seed_out].

Lemma seed_ids_distinct (u : nat -> string) :
  NoDup [u 0; u 1; u 2; u 3; u 4] ->
  forall i j, i < 5 -> j < 5 -> i <> j -> (u i =? u j)%string = false.
Proof.
  intros Hnd i j Hi Hj Hij. apply String.eqb_neq. intros E. apply Hij.
  apply (proj1 (NoDup_nth [u 0; u 1; u 2; u 3; u 4] "") Hnd i j); auto.
  do 5 (destruct i as [|i];
        [do 5 (destruct j as [|j]; [exact E|]); simpl in Hj; lia|]).
  simpl in Hi. lia.
Qed.

(** The forward pass on the seed topology does not depend on the stale
    activations of the computed neurons. *)
Lemma seed_forward_gen (u : nat -> string) (a1 a2 a3 : R) :
  NoDup [u 0; u 1; u 2; u 3; u 4] ->
  runForwardPropagation (seed_with u a1 a2 a3) None = Some (seed_propagated u).
Proof.
  intros Hnd. pose proof (seed_ids_distinct u Hnd) as Hne.
  repeat (progress (run_engine_ids; rewrite ?String.eqb_refl, ?Hne by lia)).
  replace (Q2R 0 + Q2R 1 * 0.5 + Q2R 0 * 0.8 + Q2R 0)%R with (Q2R 0.5) by lra.
  replace (Q2R 0 + Q2R 1 * -0.3 + Q2R 0 * 0.2 + Q2R 0)%R with (Q2R (-0.3)) by lra.
  change (sigmoid (Q2R 0.5)) with seed_h1.
  change (sigmoid (Q2R (-0.3))) with seed_h2.
  replace (Q2R 0 + seed_h1 * 0.7 + seed_h2 * -0.4 + Q2R 0)%R with seed_pre
    by (unfold seed_pre; lra).
  reflexivity.
Qed.

Lemma runTrainingStep_loss {num} {NUM : Number num}
  (network p : NeuralNetwork num) (learningRate : num) (out : Layer num) :
  runForwardPropagation network None = Some p ->
  nth_error (layers p) (List.length (layers p) - 1) = Some out ->
  exists updated,
    runTrainingStep network learningRate
    = Some (updated,
            div (fold_left output_loss_step (neurons out) (lit 0))
                (ofNat (List.length (neurons out)))).
Proof.
  intros Hp Hout. unfold runTrainingStep. rewrite Hp, Hout.
  eexists. reflexivity.
Qed.

Lemma seed_training_loss (u : nat -> string) (learningRate : R) :
  NoDup [u 0; u 1; u 2; u 3; u 4] ->
  exists updated,
    runTrainingStep (seed_propagated u) learningRate
    = Some (updated, ((0 + (1 - seed_out) ^ 2) / 1)%R).
Proof.
  intros Hnd.
  destruct (runTrainingStep_loss (seed_propagated u) (seed_propagated u) learningRate
              (mkLayer "layer-2"
                 [mkNeuron (u 4) 2 0 (lit 400) (lit 200) (lit 0) seed_out
                           (Some (lit 1)) None None])
              (seed_forward_gen u seed_h1 seed_h2 seed_out Hnd) eq_refl)
    as (updated & E).
  exists updated. rewrite E. f_equal. f_equal.
  unfold output_loss_step. cbn -[seed_out pow]. 
  replace (Q2R 0) with 0%R by lra. replace (Q2R 1) with 1%R by lra.
  reflexivity.
Qed.

(** C9 as stated fails: the output activation of the propagated seed
    network is below 0.56605, so it is not 0.5661 to four decimals (and
    the pre-activation is not 0.2658, nor the loss 0.1883). *)
Lemma claimed_seed_values_fail :
  ~ seed_known_values demo_uuid (lit 0.1) 0.6225 0.4256 0.2658 0.5661 0.1883.
Proof.
  intros (result & h1 & h2 & o & updated & finalLoss
          & Hr & _ & _ & Ho & _ & _ & _ & _ & _ & Hout & _).
  assert (Hnd : NoDup [demo_uuid 0; demo_uuid 1; demo_uuid 2; demo_uuid 3; demo_uuid 4]).
  { repeat constructor; simpl; intuition discriminate. }
  change (getInitialNetwork demo_uuid) with (seed_with demo_uuid (lit 0) (lit 0) (lit 0)) in Hr.
  rewrite (seed_forward_gen demo_uuid _ _ _ Hnd) in Hr.
  inversion Hr; subst result. 
  unfold neuron_at in Ho. cbn -[seed_out seed_h1 seed_h2] in Ho.
  inversion Ho; subst o. cbn -[seed_out] in Hout.
  unfold approx4 in Hout. pose proof seed_out_bounds. lra.
Qed.

(** C9, amended: on the seed network (with pairwise distinct neuron ids)
    the full forward pass gives the hidden activations
    [sigmoid 0.5], 0.6225 to four decimals, and [sigmoid (-0.3)], 0.4256;
    the output pre-activation is 0.2655 and the output activation 0.5660
    to four decimals; a training step on that state reports the loss
    0.1884 to four decimals. *)
Theorem seed_values (u : nat -> string) (learningRate : R) :
  NoDup [u 0; u 1; u 2; u 3; u 4] ->
  seed_known_values u learningRate 0.6225 0.4256 0.2655 0.5660 0.1884.
Proof.
  intros Hnd.
  destruct (seed_training_loss u learningRate Hnd) as (updated & Et).
  exists (seed_propagated u).
  exists (mkNeuron (u 2) 1 0 (lit 250) (lit 150) (lit 0) seed_h1 None None None).
  exists (mkNeuron (u 3) 1 1 (lit 250) (lit 250) (lit 0) seed_h2 None None None).
  exists (mkNeuron (u 4) 2 0 (lit 400) (lit 200) (lit 0) seed_out (Some (lit 1)) None None).
  exists updated, ((0 + (1 - seed_out) ^ 2) / 1)%R.
  pose proof seed_h1_bounds. pose proof seed_h2_bounds.
  pose proof seed_pre_bounds. pose proof seed_out_bounds.
  pose proof seed_loss_bounds.
  split; [exact (seed_forward_gen u (lit 0) (lit 0) (lit 0) Hnd)|].
  split; [reflexivity|]. split; [reflexivity|]. split; [reflexivity|].
  cbn [activation]. unfold approx4.
  split; [reflexivity|]. split; [lra|].
  split; [reflexivity|]. split; [lra|].
  split; [exists seed_pre; split; [reflexivity | lra]|].
  split; [lra|].
  split; [exact Et | lra].
Qed.

Lemma seed_values_witness :
  NoDup [demo_uuid 0; demo_uuid 1; demo_uuid 2; demo_uuid 3; demo_uuid 4] /\
  seed_known_values demo_uuid (lit 0.1) 0.6225 0.4256 0.2655 0.5660 0.1884.
Proof.
  assert (H : NoDup [demo_uuid 0; demo_uuid 1; demo_uuid 2; demo_uuid 3; demo_uuid 4]).
  { repeat constructor; simpl; intuition discriminate. }
  split; [exact H | exact (seed_values demo_uuid (lit 0.1) H)].
Defined.

(** ** Shapes: the ids of a network, layer by layer *)

Section Shapes.

Lemma In_layer_app_l (P Q : list (list string)) (i : nat) (x : string) :
  In_layer P i x -> In_layer (P ++ Q) i x.
Proof.
  intros (xs & Hn & Hx). exists xs. split; [|exact Hx].
  rewrite nth_error_app1; [exact Hn|]. eapply nth_error_lt; eauto.
Qed.

Lemma In_layer_app_r (P Q : list (list string)) (i : nat) (x : string) :
  In_layer Q i x -> In_layer (P ++ Q) (List.length P + i) x.
Proof.
  intros (xs & Hn & Hx). exists xs. split; [|exact Hx].
  rewrite nth_error_app2 by lia.
  replace (List.length P + i - List.length P) with i by lia. exact Hn.
Qed.

Lemma In_layer_app_inv (P Q : list (list string)) (i : nat) (x : string) :
  In_layer (P ++ Q) i x ->
  (i < List.length P /\ In_layer P i x) \/
  (List.length P <= i /\ In_layer Q (i - List.length P) x).
Proof.
  intros (xs & Hn & Hx).
  destruct (le_lt_dec (List.length P) i) as [Hge|Hlt].
  - right. split; [exact Hge|]. exists xs. split; [|exact Hx].
    rewrite nth_error_app2 in Hn by lia. exact Hn.
  - left. split; [exact Hlt|]. exists xs. split; [|exact Hx].
    rewrite nth_error_app1 in Hn by lia. exact Hn.
Qed.

Lemma In_layer_cons_0 (xs : list string) (Q : list (list string)) (x : string) :
  In x xs -> In_layer (xs :: Q) 0 x.
Proof. intros Hx. exists xs. split; [reflexivity|exact Hx]. Qed.

Lemma In_layer_cons_S (xs : list string) (Q : list (list string)) (i : nat)
  (x : string) :
  In_layer Q i x -> In_layer (xs :: Q) (S i) x.
Proof. intros (ys & Hn & Hx). exists ys. split; [exact Hn|exact Hx]. Qed.

Lemma In_layer_cons_inv (xs : list string) (Q : list (list string)) (i : nat)
  (x : string) :
  In_layer (xs :: Q) i x ->
  (i = 0 /\ In x xs) \/ (exists j, i = S j /\ In_layer Q j x).
Proof.
  intros (ys & Hn & Hx). destruct i as [|j]; simpl in Hn.
  - left. inversion Hn; subst. auto.
  - right. exists j. split; [reflexivity|]. exists ys. auto.
Qed.

Lemma In_layer_nil (i : nat) (x : string) : ~ In_layer [] i x.
Proof. intros (ys & Hn & _). destruct i; discriminate. Qed.

Lemma In_layer_concat (sh : list (list string)) (i : nat) (x : string) :
  In_layer sh i x -> In x (List.concat sh).
Proof.
  intros (xs & Hn & Hx). apply in_concat. exists xs. split; [|exact Hx].
  eapply nth_error_In; eauto.
Qed.

Lemma concat_In_layer (sh : list (list string)) (x : string) :
  In x (List.concat sh) -> exists i, In_layer sh i x.
Proof.
  intros H. apply in_concat in H. destruct H as (xs & Hxs & Hx).
  apply In_nth_error in Hxs. destruct Hxs as (i & Hi).
  exists i, xs. auto.
Qed.

(** With unique ids a neuron id lives in one layer. *)
Lemma In_layer_unique (sh : list (list string)) (i j : nat) (x : string) :
  NoDup (List.concat sh) -> In_layer sh i x -> In_layer sh j x -> i = j.
Proof.
  revert i j. induction sh as [|xs sh IH]; intros i j Hnd Hi Hj.
  - exfalso. eapply In_layer_nil; eauto.
  - simpl in Hnd.
    assert (Hdis : forall y, In y xs -> ~ In y (List.concat sh)).
    { intros y Hy Hc. clear IH Hi Hj. induction xs as [|z xs IHx]; [contradiction|].
      simpl in Hnd. inversion Hnd as [|? ? Hnz Hnd']; subst.
      destruct Hy as [->|Hy].
      - apply Hnz. apply in_or_app. right. exact Hc.
      - apply IHx; assumption. }
    apply NoDup_app_remove_l in Hnd.
    apply In_layer_cons_inv in Hi. apply In_layer_cons_inv in Hj.
    destruct Hi as [(-> & Hi)|(i' & -> & Hi)], Hj as [(-> & Hj)|(j' & -> & Hj)].
    + reflexivity.
    + exfalso. apply (Hdis x Hi). eapply In_layer_concat; eauto.
    + exfalso. apply (Hdis x Hj). eapply In_layer_concat; eauto.
    + f_equal. apply IH; assumption.
Qed.

End Shapes.

Section ShapeOfLayers.

Context {num : Type}.

Lemma shape_concat (ls : list (Layer num)) :
  map nid (flatMap_neurons ls) = List.concat (shape ls).
Proof.
  unfold flatMap_neurons, shape. rewrite flat_map_concat_map, concat_map, map_map.
  reflexivity.
Qed.

Lemma shape_length (ls : list (Layer num)) : List.length (shape ls) = List.length ls.
Proof. unfold shape. apply length_map. Qed.

Lemma In_layer_shape (ls : list (Layer num)) (i : nat) (x : string) :
  In_layer (shape ls) i x <->
  exists l a, nth_error ls i = Some l /\ In a (neurons l) /\ nid a = x.
Proof.
  unfold In_layer, shape. split.
  - intros (xs & Hn & Hx). rewrite nth_error_map in Hn.
    destruct (nth_error ls i) as [l|]; [|discriminate].
    inversion Hn; subst xs. apply in_map_iff in Hx.
    destruct Hx as (a & Ha & Hin). exists l, a. auto.
  - intros (l & a & Hn & Hin & Ha). exists (map nid (neurons l)). split.
    + rewrite nth_error_map, Hn. reflexivity.
    + subst x. apply in_map. exact Hin.
Qed.

Lemma find_neuron_In (x : string) (ns : list (Neuron num)) (a : Neuron num) :
  find_neuron x ns = Some a -> In a ns /\ nid a = x.
Proof.
  intros H. apply find_some in H. destruct H as (Hin & He).
  apply String.eqb_eq in He. auto.
Qed.

Lemma find_neuron_NoDup (ns : list (Neuron num)) (a : Neuron num) :
  NoDup (map nid ns) -> In a ns -> find_neuron (nid a) ns = Some a.
Proof.
  unfold find_neuron. induction ns as [|b ns IH]; intros Hnd Hin; [contradiction|].
  simpl in *. inversion Hnd as [|? ? Hnb Hnd']; subst.
  destruct Hin as [->|Hin].
  - rewrite String.eqb_refl. reflexivity.
  - destruct (nid b =? nid a)%string eqn:E.
    + exfalso. apply String.eqb_eq in E. apply Hnb. rewrite E.
      apply in_map. exact Hin.
    + apply IH; assumption.
Qed.

Lemma In_flatMap_neurons (ls : list (Layer num)) (a : Neuron num) :
  In a (flatMap_neurons ls) <->
  exists i l, nth_error ls i = Some l /\ In a (neurons l).
Proof.
  unfold flatMap_neurons. rewrite in_flat_map. split.
  - intros (l & Hl & Ha). apply In_nth_error in Hl. destruct Hl as (i & Hi).
    exists i, l. auto.
  - intros (i & l & Hi & Ha). exists l. split; [|exact Ha].
    eapply nth_error_In; eauto.
Qed.

(** A connection that points forward by the [layerIndex] fields points
    forward by position. *)
Lemma connection_forward_edge (ls : list (Layer num)) (c : Connection num) :
  layerIndex_ok ls -> connection_forward ls c ->
  forward_edge (shape ls) (endpoints c).
Proof.
  intros Hli (a & b & Ha & Hb & Hlt).
  apply find_neuron_In in Ha, Hb. destruct Ha as (Ha & Hna), Hb as (Hb & Hnb).
  apply In_flatMap_neurons in Ha, Hb.
  destruct Ha as (i & la & Hi & Hai), Hb as (j & lb & Hj & Hbj).
  exists i, j. simpl.
  rewrite (Hli i la a Hi Hai), (Hli j lb b Hj Hbj) in Hlt.
  split; [|split; [|exact Hlt]]; apply In_layer_shape; eauto.
Qed.

(** And conversely, when the neuron ids are unique. *)
Lemma forward_edge_connection (ls : list (Layer num)) (c : Connection num) :
  layerIndex_ok ls -> NoDup (List.concat (shape ls)) ->
  forward_edge (shape ls) (endpoints c) -> connection_forward ls c.
Proof.
  intros Hli Hnd (i & j & Hi & Hj & Hlt). simpl in Hi, Hj.
  rewrite <- shape_concat in Hnd.
  apply In_layer_shape in Hi, Hj.
  destruct Hi as (la & a & Hi & Hai & Hna), Hj as (lb & b & Hj & Hbj & Hnb).
  exists a, b. rewrite <- Hna, <- Hnb.
  split; [|split].
  - apply find_neuron_NoDup; [exact Hnd|]. apply In_flatMap_neurons. eauto.
  - apply find_neuron_NoDup; [exact Hnd|]. apply In_flatMap_neurons. eauto.
  - rewrite (Hli i la a Hi Hai), (Hli j lb b Hj Hbj). exact Hlt.
Qed.

End ShapeOfLayers.

(** ** List and generator lemmas for the Graph Editor *)

Lemma NoDup_app_disjoint {A} (l1 l2 : list A) :
  NoDup (l1 ++ l2) -> forall y, In y l1 -> ~ In y l2.
Proof.
  induction l1 as [|z l1 IH]; intros Hnd y Hy Hc; [contradiction|].
  simpl in Hnd. inversion Hnd as [|? ? Hnz Hnd']; subst.
  destruct Hy as [->|Hy].
  - apply Hnz. apply in_or_app. right. exact Hc.
  - apply (IH Hnd' y Hy Hc).
Qed.

Lemma NoDup_app_swap {A} (l1 l2 : list A) : NoDup (l1 ++ l2) -> NoDup (l2 ++ l1).
Proof.
  intros H. apply NoDup_app.
  - eapply NoDup_app_remove_l; eauto.
  - eapply NoDup_app_remove_r; eauto.
  - intros y Hy Hc. exact (NoDup_app_disjoint l1 l2 H y Hc Hy).
Qed.

(** Inserting a fresh block in the middle. *)
Lemma NoDup_insert_middle {A} (l1 l2 m : list A) :
  NoDup (l1 ++ l2) -> NoDup m -> (forall y, In y m -> ~ In y (l1 ++ l2)) ->
  NoDup (l1 ++ m ++ l2).
Proof.
  intros H12 Hm Hdis. apply NoDup_app.
  - eapply NoDup_app_remove_r; eauto.
  - apply NoDup_app; [exact Hm | eapply NoDup_app_remove_l; eauto|].
    intros y Hy Hc. apply (Hdis y Hy). apply in_or_app. right. exact Hc.
  - intros y Hy Hc. apply in_app_or in Hc. destruct Hc as [Hc|Hc].
    + apply (Hdis y Hc). apply in_or_app. left. exact Hy.
    + exact (NoDup_app_disjoint l1 l2 H12 y Hy Hc).
Qed.

(** Removing a block from the middle. *)
Lemma NoDup_remove_middle {A} (l1 l2 m : list A) :
  NoDup (l1 ++ m ++ l2) -> NoDup (l1 ++ l2).
Proof.
  intros H. apply NoDup_app.
  - eapply NoDup_app_remove_r; eauto.
  - apply NoDup_app_remove_l in H. eapply NoDup_app_remove_l; eauto.
  - intros y Hy Hc. apply (NoDup_app_disjoint l1 (m ++ l2) H y Hy).
    apply in_or_app. right. exact Hc.
Qed.

Lemma snoc2_of_length {A} (l : list A) :
  2 <= List.length l -> exists pre a b, l = (pre ++ [a; b])%list.
Proof.
  intros H. destruct (rev l) as [|b [|a r]] eqn:E.
  - apply (f_equal (@List.length A)) in E. rewrite length_rev in E. simpl in E. lia.
  - apply (f_equal (@List.length A)) in E. rewrite length_rev in E. simpl in E. lia.
  - exists (rev r), a, b. rewrite <- (rev_involutive l), E. simpl.
    rewrite <- app_assoc. reflexivity.
Qed.

Lemma snoc3_of_length {A} (l : list A) :
  3 <= List.length l -> exists pre a r b, l = (pre ++ [a; r; b])%list.
Proof.
  intros H. destruct (rev l) as [|b [|r [|a t]]] eqn:E;
    try (apply (f_equal (@List.length A)) in E; rewrite length_rev in E;
         simpl in E; lia).
  exists (rev t), a, r, b. rewrite <- (rev_involutive l), E. simpl.
  rewrite <- !app_assoc. reflexivity.
Qed.

Lemma nth_error_mapi_from {A B} (f : nat -> A -> B) (l : list A) :
  forall s i, nth_error (mapi_from s f l) i = option_map (f (s + i)) (nth_error l i).
Proof.
  induction l as [|a l IH]; intros s i; simpl.
  - destruct i; reflexivity.
  - destruct i as [|i]; simpl.
    + rewrite Nat.add_0_r. reflexivity.
    + rewrite IH. replace (S s + i) with (s + S i) by lia. reflexivity.
Qed.

Lemma nth_error_mapi {A B} (f : nat -> A -> B) (l : list A) (i : nat) :
  nth_error (mapi f l) i = option_map (f i) (nth_error l i).
Proof. unfold mapi. rewrite nth_error_mapi_from. reflexivity. Qed.

Lemma length_mapi_from {A B} (f : nat -> A -> B) (l : list A) :
  forall s, List.length (mapi_from s f l) = List.length l.
Proof. induction l; intros s; simpl; auto. Qed.

Lemma length_mapi {A B} (f : nat -> A -> B) (l : list A) :
  List.length (mapi f l) = List.length l.
Proof. apply length_mapi_from. Qed.

Lemma In_mapi {A B} (f : nat -> A -> B) (l : list A) (b : B) :
  In b (mapi f l) -> exists i a, nth_error l i = Some a /\ b = f i a.
Proof.
  intros H. apply In_nth_error in H. destruct H as (i & Hi).
  rewrite nth_error_mapi in Hi.
  destruct (nth_error l i) as [a|] eqn:E; [|discriminate].
  inversion Hi. exists i, a. auto.
Qed.

Lemma map_mapi_from {A B C} (g : B -> C) (f : nat -> A -> B) (l : list A) :
  forall s, map g (mapi_from s f l) = mapi_from s (fun i a => g (f i a)) l.
Proof. induction l; intros s; simpl; [reflexivity|]. rewrite IHl. reflexivity. Qed.

Lemma mapi_from_const {A B} (g : A -> B) (l : list A) :
  forall s, mapi_from s (fun _ a => g a) l = map g l.
Proof. induction l; intros s; simpl; [reflexivity|]. rewrite IHl. reflexivity. Qed.

Lemma mapi_from_index {A} (l : list A) :
  forall s, mapi_from s (fun i _ => i) l = seq s (List.length l).
Proof. induction l; intros s; simpl; [reflexivity|]. rewrite IHl. reflexivity. Qed.

Lemma map_fst_combine_seq {A B} (g : nat -> B) (l : list A) :
  forall s, map (fun p => g (fst p)) (combine (seq s (List.length l)) l)
            = map g (seq s (List.length l)).
Proof. induction l; intros s; simpl; [reflexivity|]. rewrite IHl. reflexivity. Qed.

Lemma map_snd_combine_seq {A B} (g : A -> B) (l : list A) :
  forall s, map (fun p => g (snd p)) (combine (seq s (List.length l)) l) = map g l.
Proof. induction l; intros s; simpl; [reflexivity|]. rewrite IHl. reflexivity. Qed.

Section Generators.

Context {num : Type} {NUM : Number num}.

(** A loop that draws one id per element. *)
Lemma mapM_uuid {A B} (F : string -> A -> B) (l : list A) : forall w : World num,
  mapM (fun a => u <- uuidv4 ;; ret (F u a)) l w
  = Some (map (fun p => F (uuid_seq w (fst p)) (snd p))
              (combine (seq (uuid_ix w) (List.length l)) l),
          mkWorld (uuid_seq w) (uuid_ix w + List.length l) (rand_seq w) (rand_ix w)).
Proof.
  induction l as [|a l IH]; intros w.
  - simpl. unfold ret. rewrite Nat.add_0_r. destruct w; reflexivity.
  - cbn [mapM]. unfold bind at 1. unfold bind at 1. unfold uuidv4 at 1.
    unfold ret at 1. unfold bind at 1. rewrite IH. unfold ret. simpl.
    replace (S (uuid_ix w + List.length l)) with (uuid_ix w + S (List.length l))
      by lia.
    reflexivity.
Qed.

Lemma fresh_connection_eval (p : Neuron num * Neuron num) (w : World num) :
  fresh_connection p w
  = Some (mkConnection (uuid_seq w (uuid_ix w)) (nid (fst p)) (nid (snd p))
            (sub (mul (rand_seq w (rand_ix w)) (lit 2)) (lit 1)) None,
          mkWorld (uuid_seq w) (S (uuid_ix w)) (rand_seq w) (S (rand_ix w))).
Proof. reflexivity. Qed.

(** The connection loops always return, and connect the pairs in order. *)
Lemma mapM_fresh_connection (ps : list (Neuron num * Neuron num)) :
  forall w : World num,
  exists cs w',
    mapM fresh_connection ps w = Some (cs, w') /\
    map endpoints cs = map (fun p => (nid (fst p), nid (snd p))) ps /\
    uuid_seq w' = uuid_seq w /\ uuid_ix w' = uuid_ix w + List.length ps.
Proof.
  induction ps as [|p ps IH]; intros w.
  - exists [], w. simpl. unfold ret. repeat split; auto.
  - cbn [mapM]. unfold bind. rewrite fresh_connection_eval.
    destruct (IH (mkWorld (uuid_seq w) (S (uuid_ix w)) (rand_seq w) (S (rand_ix w))))
      as (cs & w' & E & Hcs & Hseq & Hix).
    rewrite E. unfold ret.
    eexists. eexists. split; [reflexivity|]. simpl. rewrite Hcs.
    simpl in Hseq, Hix. repeat split; auto. rewrite Hix. lia.
Qed.

Lemma NoDup_pairs (froms tos : list (Neuron num)) :
  NoDup (map nid froms) -> NoDup (map nid tos) ->
  NoDup (map (fun p : Neuron num * Neuron num => (nid (fst p), nid (snd p)))
             (list_prod froms tos)).
Proof.
  intros Hf Ht. induction froms as [|a froms IH]; simpl; [constructor|].
  simpl in Hf. inversion Hf as [|? ? Ha Hf']; subst.
  rewrite map_app, map_map. simpl. apply NoDup_app.
  - clear -Ht. induction tos as [|b tos IHt]; simpl; [constructor|].
    simpl in Ht. inversion Ht as [|? ? Hb Ht']; subst.
    constructor; [|apply IHt; exact Ht'].
    intros Hin. apply in_map_iff in Hin. destruct Hin as (b' & Eb & Hb').
    inversion Eb as [Eb']. apply Hb. rewrite <- Eb'. apply in_map. exact Hb'.
  - apply IH. exact Hf'.
  - intros e He Hc. apply in_map_iff in He. destruct He as (b & <- & _).
    apply in_map_iff in Hc. destruct Hc as ((a' & b') & Ep & Hin).
    simpl in Ep. inversion Ep as [[Ea Eb]].
    apply in_prod_iff in Hin. destruct Hin as (Ha' & _).
    apply Ha. rewrite <- Ea. apply in_map. exact Ha'.
Qed.

Lemma fully_connect_endpoints (froms tos : list (Neuron num)) (w : World num) :
  exists cs w',
    fully_connect froms tos w = Some (cs, w') /\
    (NoDup (map nid froms) -> NoDup (map nid tos) -> NoDup (map endpoints cs)) /\
    forall e, In e (map endpoints cs) <->
              In (fst e) (map nid froms) /\ In (snd e) (map nid tos).
Proof.
  unfold fully_connect.
  destruct (mapM_fresh_connection (list_prod froms tos) w)
    as (cs & w' & E & Hcs & _ & _).
  exists cs, w'. split; [exact E|].
  split; [rewrite Hcs; apply NoDup_pairs|].
  intros [x y]. rewrite Hcs. simpl. split.
  - intros H. apply in_map_iff in H. destruct H as ((a & b) & Hp & Hin).
    simpl in Hp. inversion Hp; subst. apply in_prod_iff in Hin.
    destruct Hin as (Ha & Hb). split; apply in_map; assumption.
  - intros (Hx & Hy). apply in_map_iff in Hx, Hy.
    destruct Hx as (a & Ha & Hina), Hy as (b & Hb & Hinb). subst.
    apply in_map_iff. exists (a, b). split; [reflexivity|].
    apply in_prod; assumption.
Qed.

End Generators.

(** ** Re-indexing *)

Section Relayer.

Context {num : Type}.
Variable g : nat -> Neuron num -> Neuron num.
Hypothesis g_nid : forall i n, nid (g i n) = nid n.
Hypothesis g_layerIndex : forall i n, layerIndex (g i n) = i.
Hypothesis g_neuronIndex : forall i n, neuronIndex (g i n) = neuronIndex n.

Lemma relayer_length (ls : list (Layer num)) :
  List.length (relayer g ls) = List.length ls.
Proof. apply length_mapi. Qed.

Lemma relayer_shape (ls : list (Layer num)) : shape (relayer g ls) = shape ls.
Proof.
  unfold shape, relayer, mapi. generalize 0.
  induction ls as [|l ls IH]; intros s; simpl; [reflexivity|].
  rewrite IH, map_map. f_equal. apply map_ext. intros n. apply g_nid.
Qed.

Lemma relayer_layerIndex_ok (ls : list (Layer num)) : layerIndex_ok (relayer g ls).
Proof.
  intros i l n Hl Hn. unfold relayer in Hl. rewrite nth_error_mapi in Hl.
  destruct (nth_error ls i) as [l0|]; [|discriminate].
  inversion Hl; subst l. simpl in Hn. apply in_map_iff in Hn.
  destruct Hn as (n0 & <- & _). apply g_layerIndex.
Qed.

Lemma relayer_nonempty (ls : list (Layer num)) :
  layers_nonempty ls -> layers_nonempty (relayer g ls).
Proof.
  intros H l Hl. apply In_mapi in Hl. destruct Hl as (i & l0 & Hi & ->).
  simpl. apply nth_error_In in Hi. specialize (H l0 Hi).
  destruct (neurons l0); [congruence|discriminate].
Qed.

Lemma relayer_neuronIndex_ok (ls : list (Layer num)) :
  neuronIndex_ok ls -> neuronIndex_ok (relayer g ls).
Proof.
  intros H l Hl. apply In_mapi in Hl. destruct Hl as (i & l0 & Hi & ->).
  simpl. apply nth_error_In in Hi. specialize (H l0 Hi).
  rewrite map_map, length_map, <- H. apply map_ext. intros n. apply g_neuronIndex.
Qed.

End Relayer.

Section InvariantPieces.

Context {num : Type}.

Lemma layers_nonempty_app (l1 l2 : list (Layer num)) :
  layers_nonempty (l1 ++ l2) <-> layers_nonempty l1 /\ layers_nonempty l2.
Proof.
  unfold layers_nonempty. split.
  - intros H. split; intros l Hl; apply H; apply in_or_app; auto.
  - intros (H1 & H2) l Hl. apply in_app_or in Hl. destruct Hl; auto.
Qed.

Lemma neuronIndex_ok_app (l1 l2 : list (Layer num)) :
  neuronIndex_ok (l1 ++ l2) <-> neuronIndex_ok l1 /\ neuronIndex_ok l2.
Proof.
  unfold neuronIndex_ok. split.
  - intros H. split; intros l Hl; apply H; apply in_or_app; auto.
  - intros (H1 & H2) l Hl. apply in_app_or in Hl. destruct Hl; auto.
Qed.

Lemma shape_app (l1 l2 : list (Layer num)) : shape (l1 ++ l2) = (shape l1 ++ shape l2)%list.
Proof. unfold shape. apply map_app. Qed.

End InvariantPieces.

(** ** addLayer *)

Section AddLayer.

Context {num : Type} {NUM : Number num}.

Lemma js_nth_snoc2 {A} (pre : list A) (a b : A) :
  js_nth (pre ++ [a; b]) (Z.of_nat (List.length (pre ++ [a; b])) - 1 - 1) = Some a /\
  js_nth (pre ++ [a; b]) (Z.of_nat (List.length (pre ++ [a; b])) - 1) = Some b /\
  Z.to_nat (Z.of_nat (List.length (pre ++ [a; b])) - 1) = S (List.length pre).
Proof.
  rewrite length_app. simpl List.length. unfold js_nth.
  assert (E1 : (Z.of_nat (List.length pre + 2) - 1 - 1 <? 0)%Z = false)
    by (apply Z.ltb_ge; lia).
  assert (E2 : (Z.of_nat (List.length pre + 2) - 1 <? 0)%Z = false)
    by (apply Z.ltb_ge; lia).
  rewrite E1, E2.
  replace (Z.to_nat (Z.of_nat (List.length pre + 2) - 1 - 1)) with (List.length pre + 0)
    by lia.
  replace (Z.to_nat (Z.of_nat (List.length pre + 2) - 1)) with (List.length pre + 1)
    by lia.
  rewrite !nth_error_app2 by lia.
  replace (List.length pre + 0 - List.length pre) with 0 by lia.
  replace (List.length pre + 1 - List.length pre) with 1 by lia.
  repeat split; try reflexivity. lia.
Qed.

Lemma firstn_snoc {A} (pre : list A) (a : A) (rest : list A) :
  firstn (S (List.length pre)) (pre ++ a :: rest) = (pre ++ [a])%list.
Proof.
  induction pre as [|x pre IH]; simpl; [reflexivity|]. f_equal. exact IH.
Qed.

Lemma addLayer_eval (prev : NeuralNetwork num) (w : World num)
  (pre : list (Layer num)) (a b : Layer num) :
  layers prev = (pre ++ [a; b])%list ->
  List.length (layers prev) < 10 ->
  exists newId newNeurons cs1 cs2 w',
    addLayer prev w
    = Some (mkNetwork
              (reindex_layers
                 ((pre ++ [a])
                  ++ [mkLayer newId newNeurons;
                      set_neurons b
                        (map (fun n => set_nx n (add (nx n) (lit 150))) (neurons b))])%list)
              (filter (fun c => negb (Set_has (map nid (neurons a)) (fromNeuronId c)
                                      && Set_has (map nid (neurons b)) (toNeuronId c)))
                      (connections prev)
               ++ cs1 ++ cs2)%list
              (activationFunction prev), w') /\
    map nid newNeurons
    = map (uuid_seq w) (seq (S (uuid_ix w)) (List.length (neurons a))) /\
    map neuronIndex newNeurons = seq 0 (List.length (neurons a)) /\
    (forall e, In e (map endpoints cs1) <->
               In (fst e) (map nid (neurons a)) /\ In (snd e) (map nid newNeurons)) /\
    (forall e, In e (map endpoints cs2) <->
               In (fst e) (map nid newNeurons) /\ In (snd e) (map nid (neurons b))) /\
    (NoDup (map nid (neurons a)) -> NoDup (map nid newNeurons) ->
     NoDup (map nid (neurons b)) ->
     NoDup (map endpoints cs1) /\ NoDup (map endpoints cs2)).
Proof.
  intros Hls Hlen. unfold addLayer.
  assert (E10 : (10 <=? List.length (layers prev)) = false) by (apply Nat.leb_gt; lia).
  rewrite E10, Hls.
  destruct (js_nth_snoc2 pre a b) as (Ea & Eb & Ei).
  unfold bind at 1. unfold bind at 1. unfold uuidv4 at 1. unfold ret at 1.
  cbv beta iota. rewrite Ea, Eb, Ei.
  unfold bind at 1. rewrite mapM_uuid.
  cbn [uuid_seq uuid_ix rand_seq rand_ix].
  set (newNeurons := map _ (combine _ _)).
  set (w1 := mkWorld _ _ _ _).
  set (out' := set_neurons b _).
  destruct (fully_connect_endpoints (neurons a) newNeurons w1)
    as (cs1 & w2 & E1 & N1 & H1).
  destruct (fully_connect_endpoints newNeurons (neurons out') w2)
    as (cs2 & w3 & E2 & N2 & H2).
  cbn [neurons]. unfold bind at 1. rewrite E1.
  unfold bind at 1. fold out'. 
  change (neurons {| lid := "layer-" ++ uuid_seq w (uuid_ix w); neurons := newNeurons |})
    with newNeurons in *.
  rewrite E2. unfold ret.
  replace (firstn (S (List.length pre)) (pre ++ [a; b])) with (pre ++ [a])%list.
  2:{ symmetry. apply firstn_snoc. }
  exists ("layer-" ++ uuid_seq w (uuid_ix w))%string, newNeurons, cs1, cs2, w3.
  split; [reflexivity|].
  split.
  { unfold newNeurons. rewrite map_map. cbn [nid].
    rewrite <- (length_seq 0 (List.length (neurons a))) at 1.
    rewrite (map_fst_combine_seq (uuid_seq w)). rewrite length_seq. reflexivity. }
  split.
  { unfold newNeurons. rewrite map_map. cbn [neuronIndex].
    rewrite <- (length_seq 0 (List.length (neurons a))) at 1.
    rewrite (map_snd_combine_seq (fun i => i)). apply map_id. }
  split; [exact H1|].
  assert (Hout : map nid (neurons out') = map nid (neurons b)).
  { unfold out'. simpl. rewrite map_map. reflexivity. }
  split.
  { intros e. rewrite H2, Hout. reflexivity. }
  intros Ha HN Hb. split; [apply N1; assumption|].
  apply N2; [exact HN|]. rewrite Hout. exact Hb.
Qed.

End AddLayer.

(** ** Forward edges under the edits of the shape *)

Section ForwardEdges.

Lemma forward_edge_embed (sh sh' : list (list string)) (phi : nat -> nat)
  (keep : string -> Prop) (e : string * string) :
  (forall i x, keep x -> In_layer sh i x -> In_layer sh' (phi i) x) ->
  (forall i j x y, keep x -> keep y -> In_layer sh i x -> In_layer sh j y ->
                   i < j -> phi i < phi j) ->
  keep (fst e) -> keep (snd e) ->
  forward_edge sh e -> forward_edge sh' e.
Proof.
  intros Hin Hmono Kx Ky (i & j & Hi & Hj & Hlt).
  exists (phi i), (phi j). repeat split; eauto.
Qed.

Lemma In_layer_at (P Q : list (list string)) (k : nat) (xs : list string)
  (x : string) :
  nth_error Q k = Some xs -> In x xs -> In_layer (P ++ Q) (List.length P + k) x.
Proof. intros Hn Hx. apply In_layer_app_r. exists xs. auto. Qed.

Lemma In_layer_tail_inv (P Q : list (list string)) (i : nat) (x : string) :
  In_layer (P ++ Q) i x ->
  (i < List.length P /\ In_layer P i x) \/
  (exists k xs, i = List.length P + k /\ nth_error Q k = Some xs /\ In x xs).
Proof.
  intros H. apply In_layer_app_inv in H. destruct H as [H|(Hge & xs & Hn & Hx)].
  - left. exact H.
  - right. exists (i - List.length P), xs. repeat split; auto. lia.
Qed.

(** A layer inserted before the last one. *)
Lemma forward_edge_insert (P : list (list string)) (A N B : list string)
  (e : string * string) :
  forward_edge (P ++ [A; B]) e -> forward_edge (P ++ [A; N; B]) e.
Proof.
  apply (forward_edge_embed _ _
           (fun i => if i <=? List.length P then i else S i) (fun _ => True));
    try exact I.
  - intros i x _ H. apply In_layer_tail_inv in H.
    destruct H as [(Hlt & H)|(k & xs & -> & Hn & Hx)].
    + replace (i <=? List.length P) with true by (symmetry; apply Nat.leb_le; lia).
      apply In_layer_app_l. exact H.
    + destruct k as [|[|k]]; simpl in Hn.
      * inversion Hn; subst xs.
        replace (List.length P + 0 <=? List.length P) with true
          by (symmetry; apply Nat.leb_le; lia).
        apply (In_layer_at P [A; N; B] 0 A); auto.
      * inversion Hn; subst xs.
        replace (List.length P + 1 <=? List.length P) with false
          by (symmetry; apply Nat.leb_gt; lia).
        replace (S (List.length P + 1)) with (List.length P + 2) by lia.
        apply (In_layer_at P [A; N; B] 2 B); auto.
      * destruct k; discriminate.
  - intros i j x y _ _ _ _ Hlt.
    destruct (i <=? List.length P) eqn:Ei, (j <=? List.length P) eqn:Ej;
      try apply Nat.leb_le in Ei; try apply Nat.leb_le in Ej;
      try apply Nat.leb_gt in Ei; try apply Nat.leb_gt in Ej; lia.
Qed.

(** The layer before the last one removed; the edge does not touch it. *)
Lemma forward_edge_remove (P : list (list string)) (A R B : list string)
  (e : string * string) :
  ~ In (fst e) R -> ~ In (snd e) R ->
  forward_edge (P ++ [A; R; B]) e -> forward_edge (P ++ [A; B]) e.
Proof.
  intros Kx Ky.
  apply (forward_edge_embed _ _
           (fun i => if i <=? List.length P then i else i - 1) (fun x => ~ In x R));
    try assumption.
  - intros i x Hk H. apply In_layer_tail_inv in H.
    destruct H as [(Hlt & H)|(k & xs & -> & Hn & Hx)].
    + replace (i <=? List.length P) with true by (symmetry; apply Nat.leb_le; lia).
      apply In_layer_app_l. exact H.
    + destruct k as [|[|[|k]]]; simpl in Hn.
      * inversion Hn; subst xs.
        replace (List.length P + 0 <=? List.length P) with true
          by (symmetry; apply Nat.leb_le; lia).
        apply (In_layer_at P [A; B] 0 A); auto.
      * inversion Hn; subst xs. contradiction.
      * inversion Hn; subst xs.
        replace (List.length P + 2 <=? List.length P) with false
          by (symmetry; apply Nat.leb_gt; lia).
        replace (List.length P + 2 - 1) with (List.length P + 1) by lia.
        apply (In_layer_at P [A; B] 1 B); auto.
      * destruct k; discriminate.
  - intros i j x y Hkx Hky Hi Hj Hlt.
    assert (Hne : forall i0 z, ~ In z R -> In_layer (P ++ [A; R; B]) i0 z ->
                               i0 <> List.length P + 1).
    { intros i0 z Hz H ->. destruct H as (xs & Hn & Hx).
      rewrite nth_error_app2 in Hn by lia.
      replace (List.length P + 1 - List.length P) with 1 in Hn by lia.
      simpl in Hn. inversion Hn; subst xs. contradiction. }
    pose proof (Hne i x Hkx Hi). pose proof (Hne j y Hky Hj).
    destruct (i <=? List.length P) eqn:Ei, (j <=? List.length P) eqn:Ej;
      try apply Nat.leb_le in Ei; try apply Nat.leb_le in Ej;
      try apply Nat.leb_gt in Ei; try apply Nat.leb_gt in Ej; lia.
Qed.

(** One more id in a layer. *)
Lemma In_layer_grow (P Q : list (list string)) (xs : list string) (u : string)
  (i : nat) (x : string) :
  In_layer (P ++ xs :: Q) i x -> In_layer (P ++ (xs ++ [u])%list :: Q) i x.
Proof.
  intros H. apply In_layer_tail_inv in H.
  destruct H as [(Hlt & H)|(k & ys & -> & Hn & Hx)].
  - apply In_layer_app_l. exact H.
  - destruct k as [|k]; simpl in Hn.
    + inversion Hn; subst ys.
      apply (In_layer_at P ((xs ++ [u])%list :: Q) 0 (xs ++ [u])%list); [reflexivity|].
      apply in_or_app. left. exact Hx.
    + apply (In_layer_at P ((xs ++ [u])%list :: Q) (S k) ys); auto.
Qed.

Lemma forward_edge_grow (P Q : list (list string)) (xs : list string) (u : string)
  (e : string * string) :
  forward_edge (P ++ xs :: Q) e -> forward_edge (P ++ (xs ++ [u])%list :: Q) e.
Proof.
  intros (i & j & Hi & Hj & Hlt). exists i, j.
  repeat split; auto using In_layer_grow.
Qed.

(** Ids filtered out of the layers; the edge does not touch them. *)
Lemma forward_edge_map (h : list string -> list string) (x0 : string)
  (sh : list (list string)) (e : string * string) :
  (forall xs y, In y xs -> y <> x0 -> In y (h xs)) ->
  fst e <> x0 -> snd e <> x0 ->
  forward_edge sh e -> forward_edge (map h sh) e.
Proof.
  intros Hh Kx Ky (i & j & (xs & Hi & Hx) & (ys & Hj & Hy) & Hlt).
  exists i, j. repeat split; [| |exact Hlt].
  - exists (h xs). rewrite nth_error_map, Hi. auto.
  - exists (h ys). rewrite nth_error_map, Hj. auto.
Qed.

End ForwardEdges.

(** ** The invariants after addLayer *)

Section AddLayerInvariants.

Context {num : Type} {NUM : Number num}.

Lemma NoDup_map_seq (f : nat -> string) (s n : nat) :
  (forall k k', s <= k -> s <= k' -> f k = f k' -> k = k') ->
  NoDup (map f (seq s n)).
Proof.
  intros Hinj. apply NoDup_map_NoDup_ForallPairs; [|apply seq_NoDup].
  intros k k' Hk Hk' E. apply in_seq in Hk, Hk'. apply Hinj; auto; lia.
Qed.

Lemma well_formed_edges (prev : NeuralNetwork num) :
  well_formed prev ->
  NoDup (List.concat (shape (layers prev))) /\
  forall c, In c (connections prev) ->
            forward_edge (shape (layers prev)) (endpoints c).
Proof.
  intros [Hinv Hids _]. split.
  - rewrite <- shape_concat. exact Hids.
  - intros c Hc. apply connection_forward_edge.
    + apply Hinv.
    + apply Hinv. exact Hc.
Qed.

Lemma unchanged_invariants (prev : NeuralNetwork num) :
  well_formed prev -> editor_invariants prev.
Proof. intros H. apply H. Qed.

Lemma addLayer_invariants (prev : NeuralNetwork num) (w : World num) :
  well_formed prev -> fresh_uuids w prev ->
  exists net' w', addLayer prev w = Some (net', w') /\ editor_invariants net'.
Proof.
  intros Hwf (Hfresh & Hinj).
  destruct (le_lt_dec 10 (List.length (layers prev))) as [Hcap|Hlt].
  { exists prev, w. split; [|apply Hwf].
    unfold addLayer.
    replace (10 <=? List.length (layers prev)) with true
      by (symmetry; apply Nat.leb_le; exact Hcap).
    reflexivity. }
  destruct (well_formed_edges prev Hwf) as (Hnd & Hedges).
  destruct Hwf as [[Hcount Hne Hli Hni Hfw] Hids Hlids].
  destruct (snoc2_of_length (layers prev) ltac:(lia)) as (pre & a & b & Hls).
  destruct (addLayer_eval prev w pre a b Hls Hlt)
    as (newId & newNeurons & cs1 & cs2 & w' & E & HNid & HNix & H1 & H2 & _).
  eexists. exists w'. split; [exact E|].
  rewrite Hls in *.
  set (b' := set_neurons b (map (fun n => set_nx n (add (nx n) (lit 150))) (neurons b))).
  set (X := ((pre ++ [a]) ++ [mkLayer newId newNeurons; b'])%list).
  change (reindex_layers X) with (relayer (fun i n => set_layerIndex n i) X).
  assert (Ha : neurons a <> []).
  { apply Hne. apply in_or_app. right. left. reflexivity. }
  assert (HlenN : List.length newNeurons = List.length (neurons a)).
  { rewrite <- (length_map nid newNeurons), HNid, length_map, length_seq. reflexivity. }
  assert (HneX : layers_nonempty X).
  { unfold X. apply layers_nonempty_app. split.
    - intros l Hl. apply Hne. apply in_app_or in Hl. apply in_or_app.
      destruct Hl as [Hl|[<-|[]]]; [left; exact Hl | right; left; reflexivity].
    - intros l [<-|[<-|[]]]; simpl.
      + destruct newNeurons; [|discriminate]. simpl in HlenN.
        destruct (neurons a); [congruence|discriminate].
      + assert (Hb : neurons b <> []).
        { apply Hne. apply in_or_app. right. right. left. reflexivity. }
        destruct (neurons b); [congruence|discriminate]. }
  assert (HniX : neuronIndex_ok X).
  { unfold X. apply neuronIndex_ok_app. split.
    - intros l Hl. apply Hni. apply in_app_or in Hl. apply in_or_app.
      destruct Hl as [Hl|[<-|[]]]; [left; exact Hl | right; left; reflexivity].
    - intros l [<-|[<-|[]]]; simpl.
      + rewrite HNix, HlenN. reflexivity.
      + rewrite map_map, length_map. simpl.
        apply Hni. apply in_or_app. right. right. left. reflexivity. }
  assert (HshX : shape X
                 = (shape pre ++ [map nid (neurons a); map nid newNeurons;
                                  map nid (neurons b)])%list).
  { unfold X. rewrite !shape_app, <- app_assoc. simpl. rewrite map_map. reflexivity. }
  assert (Hsh : shape (pre ++ [a; b])
                = (shape pre ++ [map nid (neurons a); map nid (neurons b)])%list).
  { rewrite shape_app. reflexivity. }
  rewrite Hsh in Hnd, Hedges.
  assert (HNfresh : forall y, In y (map nid newNeurons) ->
                              ~ In y (List.concat (shape (pre ++ [a; b])))).
  { intros y Hy. rewrite HNid in Hy. apply in_map_iff in Hy.
    destruct Hy as (k & <- & Hk). apply in_seq in Hk.
    rewrite <- shape_concat. apply Hfresh. lia. }
  rewrite Hsh in HNfresh.
  assert (HndX : NoDup (List.concat (shape X))).
  { rewrite HshX. rewrite concat_app in *. simpl in *. rewrite app_nil_r in *.
    rewrite app_assoc in *. apply NoDup_insert_middle.
    - exact Hnd.
    - rewrite HNid. apply NoDup_map_seq. intros k k' Hk Hk'. apply Hinj; lia.
    - exact HNfresh. }
  constructor; cbn [layers connections].
  - rewrite relayer_length. unfold X. rewrite !length_app in *. simpl in *. lia.
  - apply relayer_nonempty. exact HneX.
  - apply relayer_layerIndex_ok. reflexivity.
  - apply relayer_neuronIndex_ok; [reflexivity | exact HniX].
  - intros c Hc. apply forward_edge_connection.
    + apply relayer_layerIndex_ok. reflexivity.
    + rewrite relayer_shape by reflexivity. exact HndX.
    + rewrite relayer_shape by reflexivity. rewrite HshX.
      apply in_app_or in Hc. destruct Hc as [Hc|Hc].
      * apply forward_edge_insert. apply Hedges.
        apply filter_In in Hc. apply Hc.
      * assert (Hat : forall k xs x,
                   nth_error [map nid (neurons a); map nid newNeurons;
                              map nid (neurons b)] k = Some xs ->
                   In x xs ->
                   In_layer (shape pre ++ [map nid (neurons a); map nid newNeurons;
                                           map nid (neurons b)])
                            (List.length (shape pre) + k) x).
        { intros k xs x. apply In_layer_at. }
        apply in_app_or in Hc. destruct Hc as [Hc|Hc].
        -- apply (in_map endpoints) in Hc. apply H1 in Hc. destruct Hc as (Hf & Ht).
           exists (List.length (shape pre) + 0), (List.length (shape pre) + 1).
           split; [apply (Hat 0 _ _ eq_refl Hf)|].
           split; [apply (Hat 1 _ _ eq_refl Ht)|lia].
        -- apply (in_map endpoints) in Hc. apply H2 in Hc. destruct Hc as (Hf & Ht).
           exists (List.length (shape pre) + 1), (List.length (shape pre) + 2).
           split; [apply (Hat 1 _ _ eq_refl Hf)|].
           split; [apply (Hat 2 _ _ eq_refl Ht)|lia].
Qed.

End AddLayerInvariants.

(** ** removeLayer *)

Section RemoveLayer.

Context {num : Type} {NUM : Number num}.

Lemma filter_all {A} (p : A -> bool) (l : list A) :
  (forall x, In x l -> p x = true) -> filter p l = l.
Proof.
  induction l as [|x l IH]; intros H; simpl; [reflexivity|].
  rewrite (H x (or_introl eq_refl)). f_equal. apply IH.
  intros y Hy. apply H. right. exact Hy.
Qed.

(** With unique layer ids, filtering a layer's id out removes that layer
    only. *)
Lemma filter_lid_unique (l1 l2 : list (Layer num)) (r : Layer num) :
  NoDup (map lid (l1 ++ r :: l2)) ->
  filter (fun l => negb (lid l =? lid r)%string) (l1 ++ r :: l2) = (l1 ++ l2)%list.
Proof.
  intros Hnd. rewrite map_app in Hnd. simpl in Hnd.
  pose proof (NoDup_remove_2 _ _ _ Hnd) as Hnot.
  rewrite filter_app. simpl. rewrite String.eqb_refl. simpl.
  rewrite !filter_all; [reflexivity| |].
  - intros x Hx. apply negb_true_iff. apply String.eqb_neq. intros E.
    apply Hnot. apply in_or_app. right. rewrite <- E. apply in_map. exact Hx.
  - intros x Hx. apply negb_true_iff. apply String.eqb_neq. intros E.
    apply Hnot. apply in_or_app. left. rewrite <- E. apply in_map. exact Hx.
Qed.

Lemma nth_error_snoc3 {A} (pre : list A) (a r b : A) :
  let l := (pre ++ [a; r; b])%list in
  nth_error l (List.length l - 2) = Some r /\
  nth_error l (List.length l - 2 - 1) = Some a /\
  nth_error l (List.length l - 1) = Some b.
Proof.
  cbv zeta. rewrite length_app. cbn [List.length].
  replace (List.length pre + 3 - 2) with (List.length pre + 1) by lia.
  replace (List.length pre + 1 - 1) with (List.length pre + 0) by lia.
  replace (List.length pre + 3 - 1) with (List.length pre + 2) by lia.
  rewrite !nth_error_app2 by lia.
  replace (List.length pre + 1 - List.length pre) with 1 by lia.
  replace (List.length pre + 0 - List.length pre) with 0 by lia.
  replace (List.length pre + 2 - List.length pre) with 2 by lia.
  auto.
Qed.

Lemma removeLayer_eval (prev : NeuralNetwork num) (w : World num)
  (pre : list (Layer num)) (a r b : Layer num) :
  layers prev = (pre ++ [a; r; b])%list ->
  NoDup (map lid (layers prev)) ->
  exists g cs w',
    removeLayer prev w
    = Some (mkNetwork
              (relayer g (pre ++ [a; b]))
              (filter (fun c => negb (Set_has (map nid (neurons r)) (fromNeuronId c))
                                && negb (Set_has (map nid (neurons r)) (toNeuronId c)))
                      (connections prev)
               ++ cs)%list
              (activationFunction prev), w') /\
    (forall i n, nid (g i n) = nid n) /\
    (forall i n, layerIndex (g i n) = i) /\
    (forall i n, neuronIndex (g i n) = neuronIndex n) /\
    (forall e, In e (map endpoints cs) <->
               In (fst e) (map nid (neurons a)) /\ In (snd e) (map nid (neurons b))).
Proof.
  intros Hls Hnd. unfold removeLayer.
  assert (Hlen : List.length (layers prev) = List.length pre + 3).
  { rewrite Hls, length_app. reflexivity. }
  replace (List.length (layers prev) <=? 2) with false
    by (symmetry; apply Nat.leb_gt; lia).
  destruct (nth_error_snoc3 pre a r b) as (Er & Ea & Eb).
  rewrite Hls in *. rewrite Er, Ea, Eb.
  replace (pre ++ [a; r; b])%list with ((pre ++ [a]) ++ r :: [b])%list in *
    by (rewrite <- app_assoc; reflexivity).
  rewrite (filter_lid_unique (pre ++ [a]) [b] r Hnd).
  replace ((pre ++ [a]) ++ [b])%list with (pre ++ [a; b])%list
    by (rewrite <- app_assoc; reflexivity).
  destruct (fully_connect_endpoints (neurons a) (neurons b) w)
    as (cs & w' & E & _ & Hcs).
  unfold bind. rewrite E. unfold ret.
  exists (fun index neuron =>
            if index =? List.length (pre ++ [a; b]) - 1
            then set_nx (set_layerIndex neuron index)
                        (sub (nx (set_layerIndex neuron index)) (lit 150))
            else set_layerIndex neuron index),
         cs, w'.
  split; [reflexivity|].
  split; [intros i n; destruct (i =? _); reflexivity|].
  split; [intros i n; destruct (i =? _); reflexivity|].
  split; [intros i n; destruct (i =? _); reflexivity|].
  exact Hcs.
Qed.

Lemma Set_has_false (ids : list string) (x : string) :
  Set_has ids x = false <-> ~ In x ids.
Proof.
  unfold Set_has. split.
  - intros H Hin. assert (E : existsb (String.eqb x) ids = true).
    { apply existsb_exists. exists x. split; [exact Hin|apply String.eqb_refl]. }
    congruence.
  - intros H. destruct (existsb (String.eqb x) ids) eqn:E; [|reflexivity].
    apply existsb_exists in E. destruct E as (y & Hy & Exy).
    apply String.eqb_eq in Exy. subst y. contradiction.
Qed.

Lemma removeLayer_invariants (prev : NeuralNetwork num) (w : World num) :
  well_formed prev ->
  exists net' w', removeLayer prev w = Some (net', w') /\ editor_invariants net'.
Proof.
  intros Hwf.
  destruct (le_lt_dec (List.length (layers prev)) 2) as [Hmin|Hgt].
  { exists prev, w. split; [|apply Hwf].
    unfold removeLayer.
    replace (List.length (layers prev) <=? 2) with true
      by (symmetry; apply Nat.leb_le; exact Hmin).
    reflexivity. }
  destruct (well_formed_edges prev Hwf) as (Hnd & Hedges).
  destruct Hwf as [[Hcount Hne Hli Hni Hfw] Hids Hlids].
  destruct (snoc3_of_length (layers prev) ltac:(lia)) as (pre & a & r & b & Hls).
  destruct (removeLayer_eval prev w pre a r b Hls Hlids)
    as (g & cs & w' & E & Hg1 & Hg2 & Hg3 & Hcs).
  eexists. exists w'. split; [exact E|].
  rewrite Hls in *.
  assert (Hsub : forall l, In l (pre ++ [a; b]) -> In l (pre ++ [a; r; b])).
  { intros l Hl. apply in_app_or in Hl. apply in_or_app.
    destruct Hl as [Hl|[<-|[<-|[]]]]; simpl; auto. }
  assert (Hsh : shape (pre ++ [a; r; b])
                = (shape pre ++ [map nid (neurons a); map nid (neurons r);
                                 map nid (neurons b)])%list).
  { rewrite shape_app. reflexivity. }
  assert (Hsh' : shape (pre ++ [a; b])
                 = (shape pre ++ [map nid (neurons a); map nid (neurons b)])%list).
  { rewrite shape_app. reflexivity. }
  rewrite Hsh in Hnd, Hedges.
  assert (Hnd' : NoDup (List.concat (shape (pre ++ [a; b])))).
  { rewrite Hsh'. rewrite concat_app in *. simpl in *. rewrite app_nil_r in *.
    rewrite app_assoc in *.
    apply NoDup_remove_middle with (m := map nid (neurons r)). exact Hnd. }
  constructor; cbn [layers connections].
  - rewrite relayer_length. rewrite !length_app in *. simpl in *. lia.
  - apply relayer_nonempty. intros l Hl. apply Hne. apply Hsub. exact Hl.
  - apply relayer_layerIndex_ok. exact Hg2.
  - apply relayer_neuronIndex_ok; [exact Hg3|].
    intros l Hl. apply Hni. apply Hsub. exact Hl.
  - intros c Hc. apply forward_edge_connection.
    + apply relayer_layerIndex_ok. exact Hg2.
    + rewrite relayer_shape by exact Hg1. exact Hnd'.
    + rewrite relayer_shape by exact Hg1. rewrite Hsh'.
      apply in_app_or in Hc. destruct Hc as [Hc|Hc].
      * apply filter_In in Hc. destruct Hc as (Hc & Hk).
        apply andb_true_iff in Hk. destruct Hk as (Hk1 & Hk2).
        apply negb_true_iff in Hk1, Hk2. apply Set_has_false in Hk1, Hk2.
        apply forward_edge_remove with (R := map nid (neurons r)); auto.
      * apply (in_map endpoints) in Hc. apply Hcs in Hc. destruct Hc as (Hf & Ht).
        exists (List.length (shape pre) + 0), (List.length (shape pre) + 1).
        split; [apply (In_layer_at (shape pre)
                         [map nid (neurons a); map nid (neurons b)] 0 _ _ eq_refl Hf)|].
        split; [apply (In_layer_at (shape pre)
                         [map nid (neurons a); map nid (neurons b)] 1 _ _ eq_refl Ht)|lia].
Qed.

End RemoveLayer.

(** ** addNeuronToLayer *)

Section AddNeuron.

Context {num : Type} {NUM : Number num}.

Lemma set_nth_app {A} (P Q : list A) (x v : A) :
  set_nth (List.length P) v (P ++ x :: Q) = (P ++ v :: Q)%list.
Proof. induction P as [|p P IH]; simpl; [reflexivity|]. f_equal. exact IH. Qed.

Lemma addNeuronToLayer_eval (k : nat) (prev : NeuralNetwork num) (w : World num)
  (P Q : list (Layer num)) (layer : Layer num) :
  layers prev = (P ++ layer :: Q)%list -> List.length P = k ->
  exists new cs1 cs2 w',
    addNeuronToLayer k prev w
    = Some (mkNetwork
              (P ++ set_neurons layer (neurons layer ++ [new]) :: Q)
              (connections prev ++ cs1 ++ cs2)%list
              (activationFunction prev), w') /\
    nid new = uuid_seq w (uuid_ix w) /\
    layerIndex new = k /\
    neuronIndex new = List.length (neurons layer) /\
    (forall e, In e (map endpoints cs1) ->
       exists previousLayer,
         0 < k /\ nth_error (layers prev) (k - 1) = Some previousLayer /\
         In (fst e) (map nid (neurons previousLayer)) /\ snd e = nid new) /\
    (forall e, In e (map endpoints cs2) ->
       exists nextLayer,
         nth_error (layers prev) (k + 1) = Some nextLayer /\
         fst e = nid new /\ In (snd e) (map nid (neurons nextLayer))) /\
    ((forall l, In l (layers prev) -> NoDup (map nid (neurons l))) ->
     NoDup (map endpoints cs1) /\ NoDup (map endpoints cs2)).
Proof.
  intros Hls Hk. unfold addNeuronToLayer.
  assert (El : nth_error (layers prev) k = Some layer).
  { rewrite Hls, <- Hk, nth_error_app2 by lia.
    rewrite Nat.sub_diag. reflexivity. }
  rewrite El. unfold bind at 1. unfold uuidv4 at 1.
  set (new := mkNeuron (uuid_seq w (uuid_ix w)) k (List.length (neurons layer)) _ _ _ _
                       None None None).
  set (w1 := mkWorld _ _ _ _).
  assert (Hc1 : exists cs1 w2,
             (if 0 <? k
              then match nth_error (layers prev) (k - 1) with
                   | Some previousLayer => fully_connect (neurons previousLayer) [new]
                   | None => throw
                   end
              else ret []) w1 = Some (cs1, w2) /\
             (forall e, In e (map endpoints cs1) ->
                exists previousLayer,
                  0 < k /\ nth_error (layers prev) (k - 1) = Some previousLayer /\
                  In (fst e) (map nid (neurons previousLayer)) /\ snd e = nid new) /\
             ((forall l, In l (layers prev) -> NoDup (map nid (neurons l))) ->
              NoDup (map endpoints cs1))).
  { destruct (0 <? k) eqn:E0.
    - apply Nat.ltb_lt in E0.
      destruct (nth_error (layers prev) (k - 1)) as [pl|] eqn:Ep.
      2:{ apply nth_error_None in Ep. apply nth_error_lt in El. lia. }
      destruct (fully_connect_endpoints (neurons pl) [new] w1)
        as (cs & w2 & E & N & H).
      exists cs, w2. split; [exact E|]. split.
      + intros e He. apply H in He.
        destruct He as (Hf & Ht). exists pl. repeat split; auto.
        simpl in Ht. destruct Ht as [Ht|[]]. auto.
      + intros Hall. apply N.
        * apply Hall. eapply nth_error_In; eauto.
        * simpl. constructor; [intros []|constructor].
    - exists [], w1. split; [reflexivity|]. split; [intros e []|].
      intros _. constructor. }
  destruct Hc1 as (cs1 & w2 & E1 & H1 & N1).
  assert (Hc2 : exists cs2 w3,
             (if k <? List.length (layers prev) - 1
              then match nth_error (layers prev) (k + 1) with
                   | Some nextLayer => fully_connect [new] (neurons nextLayer)
                   | None => throw
                   end
              else ret []) w2 = Some (cs2, w3) /\
             (forall e, In e (map endpoints cs2) ->
                exists nextLayer,
                  nth_error (layers prev) (k + 1) = Some nextLayer /\
                  fst e = nid new /\ In (snd e) (map nid (neurons nextLayer))) /\
             ((forall l, In l (layers prev) -> NoDup (map nid (neurons l))) ->
              NoDup (map endpoints cs2))).
  { destruct (k <? List.length (layers prev) - 1) eqn:E0.
    - apply Nat.ltb_lt in E0.
      destruct (nth_error (layers prev) (k + 1)) as [nl|] eqn:En.
      2:{ apply nth_error_None in En. lia. }
      destruct (fully_connect_endpoints [new] (neurons nl) w2)
        as (cs & w3 & E & N & H).
      exists cs, w3. split; [exact E|]. split.
      + intros e He. apply H in He.
        destruct He as (Hf & Ht). exists nl. repeat split; auto.
        simpl in Hf. destruct Hf as [Hf|[]]. auto.
      + intros Hall. apply N.
        * simpl. constructor; [intros []|constructor].
        * apply Hall. eapply nth_error_In; eauto.
    - exists [], w2. split; [reflexivity|]. split; [intros e []|].
      intros _. constructor. }
  destruct Hc2 as (cs2 & w3 & E2 & H2 & N2).
  cbv beta iota. unfold bind at 1. rewrite E1. unfold bind at 1. rewrite E2.
  unfold ret. exists new, cs1, cs2, w3.
  split.
  { rewrite Hls. clear E1 E2 H1 H2 El. subst k. rewrite set_nth_app. reflexivity. }
  repeat split; auto.
Qed.

Lemma addNeuronToLayer_invariants (k : nat) (prev : NeuralNetwork num)
  (w : World num) :
  well_formed prev -> fresh_uuids w prev ->
  exists net' w',
    addNeuronToLayer k prev w = Some (net', w') /\ editor_invariants net'.
Proof.
  intros Hwf (Hfresh & _).
  destruct (nth_error (layers prev) k) as [layer|] eqn:El.
  2:{ exists prev, w. split; [|apply Hwf].
      unfold addNeuronToLayer. rewrite El. reflexivity. }
  destruct (well_formed_edges prev Hwf) as (Hnd & Hedges).
  destruct Hwf as [[Hcount Hne Hli Hni Hfw] Hids Hlids].
  destruct (nth_error_split _ _ El) as (P & Q & Hls & Hk).
  destruct (addNeuronToLayer_eval k prev w P Q layer Hls Hk)
    as (new & cs1 & cs2 & w' & E & Hnid & Hnli & Hnni & H1 & H2 & _).
  eexists. exists w'. split; [exact E|].
  set (layer' := set_neurons layer (neurons layer ++ [new])).
  assert (Hsh : shape (layers prev)
                = (shape P ++ map nid (neurons layer) :: shape Q)%list).
  { rewrite Hls, shape_app. reflexivity. }
  assert (Hsh' : shape (P ++ layer' :: Q)
                 = (shape P ++ (map nid (neurons layer) ++ [nid new])%list
                            :: shape Q)%list).
  { rewrite shape_app. simpl. rewrite map_app. reflexivity. }
  assert (Hu : ~ In (nid new) (List.concat (shape (layers prev)))).
  { rewrite Hnid, <- shape_concat. apply Hfresh. lia. }
  rewrite Hsh in Hnd, Hedges, Hu.
  assert (Hnd' : NoDup (List.concat (shape (P ++ layer' :: Q)))).
  { rewrite Hsh'. rewrite concat_app in *. simpl in *.
    rewrite <- app_assoc. rewrite app_assoc. rewrite app_assoc in Hnd, Hu.
    apply NoDup_insert_middle.
    - exact Hnd.
    - constructor; [intros []|constructor].
    - intros y [<-|[]]. exact Hu. }
  assert (Hli' : layerIndex_ok (P ++ layer' :: Q)).
  { intros i l n Hl Hn. rewrite Hls in Hli.
    destruct (Nat.eq_dec i k) as [->|Hik].
    - rewrite <- Hk, nth_error_app2 in Hl by lia.
      rewrite Nat.sub_diag in Hl. simpl in Hl. inversion Hl; subst l.
      simpl in Hn. apply in_app_or in Hn. destruct Hn as [Hn|[<-|[]]].
      + rewrite <- Hk. apply (Hli (List.length P) layer n); [|exact Hn].
        rewrite nth_error_app2 by lia. rewrite Nat.sub_diag. reflexivity.
      + lia.
    - apply (Hli i l n); [|exact Hn].
      destruct (le_lt_dec (List.length P) i) as [Hge|Hlt].
      + rewrite nth_error_app2 in * by lia.
        destruct (i - List.length P) as [|d] eqn:Ed; [lia|]. exact Hl.
      + rewrite nth_error_app1 in * by lia. exact Hl. }
  rewrite Hls in *.
  constructor; cbn [layers connections].
  - rewrite !length_app in *. simpl in *. lia.
  - intros l Hl. apply in_app_or in Hl. destruct Hl as [Hl|[<-|Hl]].
    + apply Hne. apply in_or_app. left. exact Hl.
    + simpl. destruct (neurons layer); discriminate.
    + apply Hne. apply in_or_app. right. right. exact Hl.
  - exact Hli'.
  - intros l Hl. apply in_app_or in Hl. destruct Hl as [Hl|[<-|Hl]].
    + apply Hni. apply in_or_app. left. exact Hl.
    + simpl. rewrite map_app, length_app. simpl.
      rewrite (Hni layer) by (apply in_or_app; right; left; reflexivity).
      rewrite Hnni. rewrite Nat.add_1_r. rewrite seq_S. reflexivity.
    + apply Hni. apply in_or_app. right. right. exact Hl.
  - intros c Hc. apply forward_edge_connection; [exact Hli'|exact Hnd'|].
    rewrite Hsh'.
    assert (Hnew : In_layer (shape P ++ (map nid (neurons layer) ++ [nid new])%list
                                     :: shape Q) k (nid new)).
    { replace k with (List.length (shape P) + 0) by (rewrite shape_length; lia).
      eapply In_layer_at; [reflexivity|]. apply in_or_app. right. left. reflexivity. }
    assert (Hold : forall i l x,
               nth_error (P ++ layer :: Q) i = Some l ->
               In x (map nid (neurons l)) ->
               In_layer (shape P ++ (map nid (neurons layer) ++ [nid new])%list
                                 :: shape Q) i x).
    { intros i l x Hl Hx. apply In_layer_grow. rewrite <- Hsh.
      exists (map nid (neurons l)). split; [|exact Hx].
      unfold shape. rewrite nth_error_map, Hl. reflexivity. }
    apply in_app_or in Hc. destruct Hc as [Hc|Hc].
    + apply forward_edge_grow. apply Hedges. exact Hc.
    + apply in_app_or in Hc. destruct Hc as [Hc|Hc].
      * apply (in_map endpoints) in Hc. apply H1 in Hc.
        destruct Hc as (pl & Hk0 & Hpl & Hf & Ht).
        exists (k - 1), k. rewrite Ht.
        split; [apply (Hold _ pl); auto|]. split; [exact Hnew|lia].
      * apply (in_map endpoints) in Hc. apply H2 in Hc.
        destruct Hc as (nl & Hnl & Hf & Ht).
        exists k, (k + 1). rewrite Hf.
        split; [exact Hnew|]. split; [apply (Hold _ nl); auto|lia].
Qed.

End AddNeuron.

(** ** removeNeuron *)

Section RemoveNeuron.

Context {num : Type} {NUM : Number num}.
Variable neuronId : string.

Local Abbreviation G := (removeNeuron_layer neuronId).

Lemma removeNeuron_layers (prev : NeuralNetwork num) :
  layers (removeNeuron neuronId prev) = map G (layers prev).
Proof. reflexivity. Qed.

Lemma map_filter_nid (p : string -> bool) (ns : list (Neuron num)) :
  map nid (filter (fun n => p (nid n)) ns) = filter p (map nid ns).
Proof.
  induction ns as [|n ns IH]; simpl; [reflexivity|].
  destruct (p (nid n)); simpl; rewrite IH; reflexivity.
Qed.

Lemma map_nid_reindexed (ns : list (Neuron num)) :
  map nid (mapi (fun nIndex n => set_neuronIndex n nIndex) ns) = map nid ns.
Proof.
  unfold mapi. rewrite map_mapi_from. simpl.
  apply (mapi_from_const nid ns 0).
Qed.

(** The ids of a layer after the callback are a filter of the ids before
    that keeps every id but [neuronId]. *)
Lemma G_ids (l : Layer num) :
  exists p, (forall y, y <> neuronId -> p y = true) /\
            map nid (neurons (G l)) = filter p (map nid (neurons l)).
Proof.
  unfold removeNeuron_layer.
  destruct (negb (existsb _ (neurons l))).
  { exists (fun _ => true). split; [reflexivity|].
    symmetry. apply filter_all. reflexivity. }
  destruct (List.length (neurons l) =? 1).
  { exists (fun _ => true). split; [reflexivity|].
    symmetry. apply filter_all. reflexivity. }
  exists (fun y => negb (y =? neuronId)%string). split.
  - intros y Hy. apply negb_true_iff. apply String.eqb_neq. exact Hy.
  - simpl. rewrite map_nid_reindexed.
    apply (map_filter_nid (fun y => negb (y =? neuronId)%string)).
Qed.

Lemma G_layerIndex (l : Layer num) (n' : Neuron num) :
  In n' (neurons (G l)) ->
  exists n, In n (neurons l) /\ layerIndex n' = layerIndex n.
Proof.
  unfold removeNeuron_layer.
  destruct (negb (existsb _ (neurons l))); [eauto|].
  destruct (List.length (neurons l) =? 1); [eauto|].
  simpl. intros H. apply In_mapi in H. destruct H as (i & n & Hn & ->).
  apply nth_error_In in Hn. apply filter_In in Hn. exists n. split; [apply Hn|].
  reflexivity.
Qed.

Lemma G_neuronIndex (l : Layer num) :
  map neuronIndex (neurons l) = seq 0 (List.length (neurons l)) ->
  map neuronIndex (neurons (G l)) = seq 0 (List.length (neurons (G l))).
Proof.
  unfold removeNeuron_layer.
  destruct (negb (existsb _ (neurons l))); [auto|].
  destruct (List.length (neurons l) =? 1); [auto|].
  intros _. simpl. rewrite length_mapi. unfold mapi. rewrite map_mapi_from. simpl.
  apply mapi_from_index.
Qed.

Lemma G_nonempty (l : Layer num) :
  neurons l <> [] -> NoDup (map nid (neurons l)) -> neurons (G l) <> [].
Proof.
  unfold removeNeuron_layer. intros Hne Hnd.
  destruct (negb (existsb _ (neurons l))); [exact Hne|].
  destruct (List.length (neurons l) =? 1) eqn:E1; [exact Hne|].
  apply Nat.eqb_neq in E1. simpl.
  destruct (neurons l) as [|n1 [|n2 rest]]; [congruence|simpl in E1; lia|].
  simpl in Hnd. inversion Hnd as [|? ? Hn1 _]; subst.
  assert (Hdiff : nid n1 <> nid n2) by (intros E; apply Hn1; left; auto).
  intros Hnil. apply (f_equal (@List.length (Neuron num))) in Hnil.
  rewrite length_mapi in Hnil. simpl in Hnil.
  destruct (nid n1 =? neuronId)%string eqn:Ea; simpl in Hnil; [|discriminate].
  destruct (nid n2 =? neuronId)%string eqn:Eb; simpl in Hnil; [|discriminate].
  apply String.eqb_eq in Ea, Eb. congruence.
Qed.

Lemma NoDup_concat_elt {A} (sh : list (list A)) (xs : list A) :
  NoDup (List.concat sh) -> In xs sh -> NoDup xs.
Proof.
  induction sh as [|ys sh IH]; intros Hnd Hin; [contradiction|].
  simpl in Hnd. destruct Hin as [->|Hin].
  - eapply NoDup_app_remove_r; eauto.
  - apply IH; [|exact Hin]. eapply NoDup_app_remove_l; eauto.
Qed.

Lemma NoDup_concat_filter {A} (f g : A -> list string) (ls : list A) :
  (forall l, exists p, g l = filter p (f l)) ->
  NoDup (List.concat (map f ls)) -> NoDup (List.concat (map g ls)).
Proof.
  intros Hg. induction ls as [|l ls IH]; intros Hnd; simpl in *; [constructor|].
  assert (Hsub : forall y, In y (List.concat (map g ls)) ->
                           In y (List.concat (map f ls))).
  { intros y Hy. apply in_concat in Hy. destruct Hy as (ys & Hys & Hy).
    apply in_map_iff in Hys. destruct Hys as (l0 & <- & Hl0).
    destruct (Hg l0) as (p & Ep). rewrite Ep in Hy. apply filter_In in Hy.
    apply in_concat. exists (f l0). split; [apply in_map; exact Hl0|apply Hy]. }
  destruct (Hg l) as (p & Ep). rewrite Ep.
  apply NoDup_app.
  - apply NoDup_filter. eapply NoDup_app_remove_r; eauto.
  - apply IH. eapply NoDup_app_remove_l; eauto.
  - intros y Hy Hc. apply filter_In in Hy.
    apply (NoDup_app_disjoint _ _ Hnd y (proj1 Hy)). apply Hsub. exact Hc.
Qed.

Lemma removeNeuron_invariants (prev : NeuralNetwork num) :
  well_formed prev -> editor_invariants (removeNeuron neuronId prev).
Proof.
  intros Hwf.
  destruct (well_formed_edges prev Hwf) as (Hnd & Hedges).
  destruct Hwf as [[Hcount Hne Hli Hni Hfw] Hids Hlids].
  assert (Hshape : shape (map G (layers prev))
                   = map (fun l => map nid (neurons (G l))) (layers prev)).
  { unfold shape. rewrite map_map. reflexivity. }
  assert (Hnd' : NoDup (List.concat (shape (map G (layers prev))))).
  { rewrite Hshape.
    apply (NoDup_concat_filter (fun l => map nid (neurons l))); [|exact Hnd].
    intros l. destruct (G_ids l) as (p & _ & Ep). exists p. exact Ep. }
  assert (Hli' : layerIndex_ok (map G (layers prev))).
  { intros i l n' Hl Hn'. rewrite nth_error_map in Hl.
    destruct (nth_error (layers prev) i) as [l0|] eqn:El0; [|discriminate].
    inversion Hl; subst l. apply G_layerIndex in Hn'.
    destruct Hn' as (n & Hn & ->). apply (Hli i l0 n El0 Hn). }
  constructor; rewrite ?removeNeuron_layers.
  - rewrite length_map. exact Hcount.
  - intros l Hl. apply in_map_iff in Hl. destruct Hl as (l0 & <- & Hl0).
    apply G_nonempty; [apply Hne; exact Hl0|].
    apply (NoDup_concat_elt (shape (layers prev))); [exact Hnd|].
    unfold shape. apply (in_map (fun l => map nid (neurons l))). exact Hl0.
  - exact Hli'.
  - intros l Hl. apply in_map_iff in Hl. destruct Hl as (l0 & <- & Hl0).
    apply G_neuronIndex. apply Hni. exact Hl0.
  - intros c Hc. simpl in Hc. apply filter_In in Hc. destruct Hc as (Hc & Hk).
    apply andb_true_iff in Hk. destruct Hk as (Hk1 & Hk2).
    apply negb_true_iff in Hk1, Hk2. apply String.eqb_neq in Hk1, Hk2.
    apply forward_edge_connection; [exact Hli'|exact Hnd'|].
    destruct (Hedges c Hc) as (i & j & (xs & Hi & Hx) & (ys & Hj & Hy) & Hlt).
    simpl in Hx, Hy.
    assert (Hkeep : forall k zs z,
               nth_error (shape (layers prev)) k = Some zs -> In z zs ->
               z <> neuronId -> In_layer (shape (map G (layers prev))) k z).
    { intros k zs z Hk Hz Hzne. unfold shape in Hk. rewrite nth_error_map in Hk.
      destruct (nth_error (layers prev) k) as [l0|] eqn:El0; [|discriminate].
      inversion Hk; subst zs.
      destruct (G_ids l0) as (p & Hp & Ep).
      exists (map nid (neurons (G l0))). split.
      - rewrite Hshape, nth_error_map, El0. reflexivity.
      - rewrite Ep. apply filter_In. split; [exact Hz|apply Hp; exact Hzne]. }
    exists i, j. simpl. split; [eapply Hkeep; eauto|].
    split; [eapply Hkeep; eauto|exact Hlt].
Qed.

End RemoveNeuron.

(** ** createConnection and deleteConnection *)

Section Connections.

Context {num : Type} {NUM : Number num}.

Lemma createConnection_invariants (fromId toId : string)
  (prev : NeuralNetwork num) (w : World num) :
  well_formed prev ->
  exists net' w',
    createConnection fromId toId prev w = Some (net', w') /\ editor_invariants net'.
Proof.
  intros Hwf. pose proof (wf_inv prev Hwf) as Hinv. unfold createConnection.
  destruct (find_neuron fromId (flatMap_neurons (layers prev))) as [a|] eqn:Ea;
    [|exists prev, w; auto].
  destruct (find_neuron toId (flatMap_neurons (layers prev))) as [b|] eqn:Eb;
    [|exists prev, w; auto].
  destruct (layerIndex b <=? layerIndex a) eqn:Ele; [exists prev, w; auto|].
  apply Nat.leb_gt in Ele.
  destruct (find _ (connections prev)); [exists prev, w; auto|].
  unfold bind, uuidv4, Math_random, ret. eexists. eexists.
  split; [reflexivity|].
  destruct Hinv as [Hcount Hne Hli Hni Hfw].
  constructor; cbn [layers connections]; auto.
  intros c Hc. apply in_app_or in Hc. destruct Hc as [Hc|[<-|[]]]; [auto|].
  exists a, b. simpl. auto.
Qed.

Lemma deleteConnection_invariants (connectionId : string)
  (prev : NeuralNetwork num) :
  well_formed prev -> editor_invariants (deleteConnection connectionId prev).
Proof.
  intros Hwf. destruct (wf_inv prev Hwf) as [Hcount Hne Hli Hni Hfw].
  constructor; cbn [layers connections deleteConnection]; auto.
  intros c Hc. apply filter_In in Hc. apply Hfw. apply Hc.
Qed.

End Connections.

(** C5: on a network that satisfies the data-model invariants, with an id
    generator that is collision-free, every Graph Editor operation returns
    a network in which every layer has at least one neuron, the number of
    layers is between 2 and 10, every neuron's [layerIndex] is the position
    of its layer, the [neuronIndex] values of each layer are 0..n-1, and
    every connection goes from a layer to a strictly later one. *)
Theorem editor_preserves_invariants {num} {NUM : Number num}
  (op : editor_op) (prev : NeuralNetwork num) (w : World num) :
  well_formed prev -> fresh_uuids w prev ->
  exists net' w', run_op op prev w = Some (net', w') /\ editor_invariants net'.
Proof.
  intros Hwf Hfresh. destruct op as [| |k|i|f t|i]; cbn [run_op].
  - apply addLayer_invariants; assumption.
  - apply removeLayer_invariants; assumption.
  - apply addNeuronToLayer_invariants; assumption.
  - exists (removeNeuron i prev), w. split; [reflexivity|].
    apply removeNeuron_invariants. exact Hwf.
  - apply createConnection_invariants. exact Hwf.
  - exists (deleteConnection i prev), w. split; [reflexivity|].
    apply deleteConnection_invariants. exact Hwf.
Qed.

(** The demonstration id generator is collision-free, and the seed network
    is well formed. *)

Lemma demo_uuid_injective (k k' : nat) : demo_uuid k = demo_uuid k' -> k = k'.
Proof.
  unfold demo_uuid. intros E. simpl in E. inversion E as [E'].
  apply (f_equal NilEmpty.uint_of_string) in E'.
  rewrite !NilEmpty.usu in E'. inversion E' as [E''].
  apply (f_equal Nat.of_uint) in E''.
  rewrite !DecimalNat.Unsigned.of_to in E''. exact E''.
Qed.

Lemma seed_well_formed : well_formed seed.
Proof.
  constructor.
  - constructor.
    + simpl. lia.
    + intros l [<-|[<-|[<-|[]]]]; discriminate.
    + intros i l n Hl Hn.
      destruct i as [|[|[|i]]]; simpl in Hl; try (destruct i; discriminate);
        inversion Hl; subst l; simpl in Hn;
        repeat (destruct Hn as [<-|Hn]; [reflexivity|]); contradiction.
    + intros l [<-|[<-|[<-|[]]]]; reflexivity.
    + intros c Hc. simpl in Hc.
      repeat (destruct Hc as [<-|Hc];
              [eexists; eexists; split; [vm_compute; reflexivity|];
               split; [vm_compute; reflexivity|simpl; lia]|]).
      contradiction.
  - vm_compute. repeat constructor; simpl; intuition discriminate.
  - vm_compute. repeat constructor; simpl; intuition discriminate.
Qed.

Lemma demo_world_fresh : fresh_uuids demo_world seed.
Proof.
  split.
  - intros k Hk Hin. simpl in Hk.
    change (map nid (flatMap_neurons (layers seed)))
      with [demo_uuid 0; demo_uuid 1; demo_uuid 2; demo_uuid 3; demo_uuid 4] in Hin.
    simpl in Hin.
    repeat (destruct Hin as [Hin|Hin];
            [apply demo_uuid_injective in Hin; lia|]).
    contradiction.
  - intros k k' _ _. apply demo_uuid_injective.
Qed.

Lemma editor_preserves_invariants_witness :
  well_formed seed /\ fresh_uuids demo_world seed /\
  exists net' w', run_op AddLayer seed demo_world = Some (net', w') /\
                  editor_invariants net'.
Proof.
  split; [exact seed_well_formed|]. split; [exact demo_world_fresh|].
  exact (editor_preserves_invariants AddLayer seed demo_world
           seed_well_formed demo_world_fresh).
Defined.

(** ** The forward pass on the object store *)

Section StoreLemmas.

Context {num : Type} {NUM : Number num}.





Lemma layer_eta (l : Layer num) : mkLayer (lid l) (neurons l) = l.
Proof. destruct l; reflexivity. Qed.









End StoreLemmas.

Section StoreRefinement.

Context {num : Type} {NUM : Number num}.
Variable k : ActivationFunction.
Variable conns : list (Connection num).



End StoreRefinement.

(** ** The frame of the forward pass *)

Lemma same_but_activation_refl {num} (n : Neuron num) : same_but_activation n n.
Proof. unfold same_but_activation. destruct n; reflexivity. Qed.

Lemma forward_neuron_same_but_activation {num} {NUM : Number num}
  (k : ActivationFunction) (conns : list (Connection num))
  (prevNeurons : list (Neuron num)) (n : Neuron num) :
  same_but_activation n (forward_neuron k conns prevNeurons n).
Proof. reflexivity. Qed.

Lemma runForwardPropagation_frame {num} {NUM : Number num}
  (network : NeuralNetwork num) (untilLayer : option nat) :
  maxLayer_of network untilLayer <= List.length (layers network) - 1 ->
  exists result,
    runForwardPropagation network untilLayer = Some result /\
    forward_frame network (maxLayer_of network untilLayer) result.
Proof.
  intros Hmax. unfold runForwardPropagation.
  fold (maxLayer_of network untilLayer).
  destruct (maxLayer_of network untilLayer) as [|m] eqn:Em.
  - exists network. simpl. split; [destruct network; reflexivity|].
    repeat split; auto. intros i l Hl. exists l. repeat split; auto.
    clear. induction (neurons l); constructor; auto using same_but_activation_refl.
  - destruct (forward_loop_spec (activationFunction network) (connections network)
                (S m) 1 (layers network) ltac:(lia) ltac:(lia))
      as (ls' & El & Hl & Hout & Hin).
    rewrite El. eexists. split; [reflexivity|].
    unfold forward_frame. cbn [layers connections activationFunction].
    repeat split; auto.
    intros i l Hil.
    destruct (le_lt_dec 1 i) as [H1|H0].
    + destruct (le_lt_dec i (S m)) as [Hle|Hgt].
      * destruct (Hin i ltac:(lia)) as (cur & prv' & Ec & _ & Ei).
        rewrite Hil in Ec. inversion Ec; subst cur.
        eexists. split; [exact Ei|]. split; [reflexivity|]. split.
        -- simpl. clear. induction (neurons l); simpl; constructor; auto.
           apply forward_neuron_same_but_activation.
        -- intros [H|H]; lia.
      * exists l. rewrite Hout by lia. repeat split; auto.
        clear. induction (neurons l); constructor; auto using same_but_activation_refl.
    + exists l. rewrite Hout by lia. repeat split; auto.
      clear. induction (neurons l); constructor; auto using same_but_activation_refl.
Qed.


Lemma seed_loaded : load seed_store seed_ref = Some seed.
Proof. reflexivity. Qed.



(** ** Determinism of forward propagation *)

Section Determinism.

Context {num : Type} {NUM : Number num}.

Lemma forward_neuron_stale (k : ActivationFunction) (conns : list (Connection num))
  (prevNeurons : list (Neuron num)) (n1 n2 : Neuron num) :
  same_but_activation n1 n2 ->
  forward_neuron k conns prevNeurons n1 = forward_neuron k conns prevNeurons n2.
Proof. intros ->. reflexivity. Qed.

Lemma map_forward_neuron_stale (k : ActivationFunction)
  (conns : list (Connection num)) (prevNeurons : list (Neuron num))
  (ns1 ns2 : list (Neuron num)) :
  Forall2 same_but_activation ns1 ns2 ->
  map (forward_neuron k conns prevNeurons) ns1
  = map (forward_neuron k conns prevNeurons) ns2.
Proof.
  induction 1 as [|n1 n2 ns1 ns2 Hn _ IH]; simpl; [reflexivity|].
  rewrite (forward_neuron_stale k conns prevNeurons n1 n2 Hn), IH. reflexivity.
Qed.

(** The full forward pass reads the stale activations of no neuron past
    layer 0. *)
Lemma runForwardPropagation_stale (n1 n2 : NeuralNetwork num) :
  same_inputs n1 n2 ->
  runForwardPropagation n1 None = runForwardPropagation n2 None.
Proof.
  intros (Hc & Hk & Hlen & Hl). unfold runForwardPropagation.
  rewrite Hc, Hk, Hlen.
  destruct (List.length (layers n1) - 1) as [|m] eqn:Em.
  - simpl. f_equal. f_equal. apply nth_error_ext. intros i.
    destruct (nth_error (layers n1) i) as [l1|] eqn:E1.
    + destruct (Hl i l1 E1) as (l2 & E2 & _ & _ & H0).
      assert (i = 0) by (apply nth_error_lt in E1; lia).
      rewrite E2, (H0 H). reflexivity.
    + apply nth_error_None in E1. symmetry. apply nth_error_None. lia.
  - destruct (forward_loop_spec (activationFunction n1) (connections n1)
                (S m) 1 (layers n1) ltac:(lia) ltac:(lia))
      as (ls1 & El1 & Hl1 & Hout1 & Hin1).
    destruct (forward_loop_spec (activationFunction n1) (connections n1)
                (S m) 1 (layers n2) ltac:(lia) ltac:(lia))
      as (ls2 & El2 & Hl2 & Hout2 & Hin2).
    rewrite El1, El2. f_equal. f_equal.
    apply nth_error_ext. intros p.
    induction p as [p IH] using lt_wf_ind.
    destruct (le_lt_dec (List.length (layers n1)) p) as [Hge|Hlt].
    { assert (E1 : nth_error ls1 p = None) by (apply nth_error_None; lia).
      assert (E2 : nth_error ls2 p = None) by (apply nth_error_None; lia).
      rewrite E1, E2. reflexivity. }
    destruct (Nat.eq_dec p 0) as [->|Hp].
    + rewrite Hout1, Hout2 by lia.
      destruct (nth_error (layers n1) 0) as [l1|] eqn:E1.
      * destruct (Hl 0 l1 E1) as (l2 & E2 & _ & _ & H0).
        rewrite E2, (H0 eq_refl). reflexivity.
      * apply nth_error_None in E1. lia.
    + destruct (Hin1 p ltac:(lia)) as (cur1 & prv1 & Ec1 & Ep1 & En1).
      destruct (Hin2 p ltac:(lia)) as (cur2 & prv2 & Ec2 & Ep2 & En2).
      rewrite En1, En2.
      assert (Eprv : prv1 = prv2).
      { specialize (IH (p - 1) ltac:(lia)). rewrite Ep1, Ep2 in IH.
        inversion IH. reflexivity. }
      destruct (Hl p cur1 Ec1) as (l2 & E2 & Hlid & Hns & _).
      rewrite Ec2 in E2. inversion E2; subst l2.
      subst prv2. unfold set_neurons. rewrite Hlid.
      rewrite (map_forward_neuron_stale _ _ _ _ _ Hns). reflexivity.
Qed.

End Determinism.




(** ** Which operations keep the connection pairs distinct

    Every Graph Editor operation but [removeLayer] keeps the pairs
    distinct: [createConnection] checks for an existing pair, and the
    loops of [addLayer] and [addNeuronToLayer] connect a new neuron. *)

Section DistinctPairs.

Context {num : Type} {NUM : Number num}.

(** Dropping connections keeps the remaining pairs distinct. *)
Lemma filter_pairs_distinct (keep : Connection num -> bool)
  (cs : list (Connection num)) :
  NoDup (map endpoints cs) -> NoDup (map endpoints (filter keep cs)).
Proof.
  intros Hnd. induction cs as [|c cs IH]; [constructor|].
  cbn [map] in Hnd. apply NoDup_cons_iff in Hnd. destruct Hnd as (Hc & Hnd).
  cbn [filter]. destruct (keep c); [|exact (IH Hnd)].
  cbn [map]. apply NoDup_cons; [|exact (IH Hnd)].
  intros Hin. apply Hc. apply in_map_iff in Hin. destruct Hin as (c' & Ec & Hc').
  apply filter_In in Hc'. rewrite <- Ec. apply in_map. apply Hc'.
Qed.

(** The endpoints of a connection of a well-formed network are ids of
    the network. *)
Lemma well_formed_endpoints (prev : NeuralNetwork num) (e : string * string) :
  well_formed prev -> In e (map endpoints (connections prev)) ->
  In (fst e) (List.concat (shape (layers prev))) /\
  In (snd e) (List.concat (shape (layers prev))).
Proof.
  intros Hwf He. apply in_map_iff in He. destruct He as (c & <- & Hc).
  destruct (well_formed_edges prev Hwf) as (_ & Hedges).
  destruct (Hedges c Hc) as (i & j & Hi & Hj & _).
  split; eapply In_layer_concat; eauto.
Qed.

Lemma well_formed_layer_ids (prev : NeuralNetwork num) (l : Layer num) :
  well_formed prev -> In l (layers prev) ->
  NoDup (map nid (neurons l)) /\
  forall x, In x (map nid (neurons l)) -> In x (List.concat (shape (layers prev))).
Proof.
  intros Hwf Hl. destruct (well_formed_edges prev Hwf) as (Hnd & _).
  assert (Hin : In (map nid (neurons l)) (shape (layers prev))).
  { unfold shape. apply (in_map (fun l => map nid (neurons l))). exact Hl. }
  split.
  - eapply NoDup_concat_elt; eauto.
  - intros x Hx. apply in_concat. eauto.
Qed.

Lemma removeNeuron_pairs (neuronId : string) (prev : NeuralNetwork num) :
  no_duplicate_pairs prev -> no_duplicate_pairs (removeNeuron neuronId prev).
Proof. apply filter_pairs_distinct. Qed.

Lemma deleteConnection_pairs (connectionId : string) (prev : NeuralNetwork num) :
  no_duplicate_pairs prev -> no_duplicate_pairs (deleteConnection connectionId prev).
Proof. apply filter_pairs_distinct. Qed.

Lemma createConnection_pairs (fromId toId : string) (prev : NeuralNetwork num)
  (w : World num) :
  no_duplicate_pairs prev ->
  exists net' w',
    createConnection fromId toId prev w = Some (net', w') /\ no_duplicate_pairs net'.
Proof.
  intros Hnd. unfold createConnection.
  destruct (find_neuron fromId _) as [a|]; [|exists prev, w; auto].
  destruct (find_neuron toId _) as [b|]; [|exists prev, w; auto].
  destruct (layerIndex b <=? layerIndex a); [exists prev, w; auto|].
  destruct (find _ (connections prev)) eqn:Ef; [exists prev, w; auto|].
  unfold bind, uuidv4, Math_random, ret. eexists. eexists.
  split; [reflexivity|].
  unfold no_duplicate_pairs. cbn [connections]. rewrite map_app.
  apply NoDup_app; [exact Hnd | repeat constructor; intros [] |].
  intros e He [<-|[]]. apply in_map_iff in He. destruct He as (c & Ec & Hc).
  pose proof (find_none _ _ Ef c Hc) as Hn. simpl in Hn.
  unfold endpoints in Ec. inversion Ec as [[E1 E2]].
  rewrite E1, E2, !String.eqb_refl in Hn. discriminate.
Qed.

Lemma addNeuronToLayer_pairs (k : nat) (prev : NeuralNetwork num) (w : World num) :
  well_formed prev -> fresh_uuids w prev -> no_duplicate_pairs prev ->
  exists net' w',
    addNeuronToLayer k prev w = Some (net', w') /\ no_duplicate_pairs net'.
Proof.
  intros Hwf (Hfresh & _) Hnd.
  destruct (nth_error (layers prev) k) as [layer|] eqn:El.
  2:{ exists prev, w. split; [|exact Hnd].
      unfold addNeuronToLayer. rewrite El. reflexivity. }
  destruct (nth_error_split _ _ El) as (P & Q & Hls & Hk).
  destruct (addNeuronToLayer_eval k prev w P Q layer Hls Hk)
    as (new & cs1 & cs2 & w' & E & Hnid & _ & _ & H1 & H2 & HN).
  destruct (HN (fun l Hl => proj1 (well_formed_layer_ids prev l Hwf Hl)))
    as (N1 & N2).
  eexists. exists w'. split; [exact E|].
  assert (Hu : ~ In (nid new) (List.concat (shape (layers prev)))).
  { rewrite Hnid, <- shape_concat. apply Hfresh. lia. }
  unfold no_duplicate_pairs. cbn [connections]. rewrite !map_app.
  apply NoDup_app; [exact Hnd | apply NoDup_app; [exact N1 | exact N2 |] |].
  - intros e He1 He2. destruct (H1 e He1) as (pl & _ & Hpl & Hf & _).
    destruct (H2 e He2) as (_ & _ & Hf2 & _).
    apply Hu. rewrite <- Hf2.
    apply (proj2 (well_formed_layer_ids prev pl Hwf (nth_error_In _ _ Hpl))).
    exact Hf.
  - intros e He Hnew. destruct (well_formed_endpoints prev e Hwf He) as (Hf & Ht).
    apply in_app_or in Hnew. destruct Hnew as [Hnew|Hnew].
    + destruct (H1 e Hnew) as (_ & _ & _ & _ & Hs). apply Hu. rewrite <- Hs. exact Ht.
    + destruct (H2 e Hnew) as (_ & _ & Hs & _). apply Hu. rewrite <- Hs. exact Hf.
Qed.

Lemma addLayer_pairs (prev : NeuralNetwork num) (w : World num) :
  well_formed prev -> fresh_uuids w prev -> no_duplicate_pairs prev ->
  exists net' w', addLayer prev w = Some (net', w') /\ no_duplicate_pairs net'.
Proof.
  intros Hwf (Hfresh & Hinj) Hnd.
  destruct (le_lt_dec 10 (List.length (layers prev))) as [Hcap|Hlt].
  { exists prev, w. split; [|exact Hnd].
    unfold addLayer.
    replace (10 <=? List.length (layers prev)) with true
      by (symmetry; apply Nat.leb_le; exact Hcap).
    reflexivity. }
  pose proof (inv_count prev (wf_inv prev Hwf)) as Hcount.
  destruct (snoc2_of_length (layers prev) ltac:(lia)) as (pre & a & b & Hls).
  destruct (addLayer_eval prev w pre a b Hls Hlt)
    as (newId & newNeurons & cs1 & cs2 & w' & E & HNid & _ & H1 & H2 & HN).
  assert (Ha : In a (layers prev)).
  { rewrite Hls. apply in_or_app. right. left. reflexivity. }
  assert (Hb : In b (layers prev)).
  { rewrite Hls. apply in_or_app. right. right. left. reflexivity. }
  assert (HNnd : NoDup (map nid newNeurons)).
  { rewrite HNid. apply NoDup_map_seq. intros i j Hi Hj. apply Hinj; lia. }
  assert (HNfresh : forall y, In y (map nid newNeurons) ->
                              ~ In y (List.concat (shape (layers prev)))).
  { intros y Hy. rewrite HNid in Hy. apply in_map_iff in Hy.
    destruct Hy as (i & <- & Hi). apply in_seq in Hi.
    rewrite <- shape_concat. apply Hfresh. lia. }
  destruct (HN (proj1 (well_formed_layer_ids prev a Hwf Ha)) HNnd
               (proj1 (well_formed_layer_ids prev b Hwf Hb))) as (N1 & N2).
  eexists. exists w'. split; [exact E|].
  unfold no_duplicate_pairs. cbn [connections]. rewrite !map_app.
  apply NoDup_app;
    [apply filter_pairs_distinct; exact Hnd
    | apply NoDup_app; [exact N1 | exact N2 |] |].
  - intros e He1 He2. apply H1 in He1. apply H2 in He2.
    apply (HNfresh (fst e) (proj1 He2)).
    apply (proj2 (well_formed_layer_ids prev a Hwf Ha)). apply He1.
  - intros e He Hnew.
    assert (He' : In e (map endpoints (connections prev))).
    { apply in_map_iff in He. destruct He as (c & Ec & Hc).
      apply filter_In in Hc. rewrite <- Ec. apply in_map. apply Hc. }
    destruct (well_formed_endpoints prev e Hwf He') as (Hf & Ht).
    apply in_app_or in Hnew. destruct Hnew as [Hnew|Hnew].
    + apply H1 in Hnew. exact (HNfresh (snd e) (proj2 Hnew) Ht).
    + apply H2 in Hnew. exact (HNfresh (fst e) (proj1 Hnew) Hf).
Qed.

Lemma other_operations_keep_pairs_distinct (op : editor_op)
  (prev : NeuralNetwork num) (w : World num) :
  op <> RemoveLayer ->
  well_formed prev -> fresh_uuids w prev -> no_duplicate_pairs prev ->
  exists net' w', run_op op prev w = Some (net', w') /\ no_duplicate_pairs net'.
Proof.
  intros Hop Hwf Hfresh Hnd. destruct op as [| |k|i|f t|i]; cbn [run_op].
  - apply addLayer_pairs; assumption.
  - congruence.
  - apply addNeuronToLayer_pairs; assumption.
  - exists (removeNeuron i prev), w. split; [reflexivity|].
    apply removeNeuron_pairs. exact Hnd.
  - apply createConnection_pairs. exact Hnd.
  - exists (deleteConnection i prev), w. split; [reflexivity|].
    apply deleteConnection_pairs. exact Hnd.
Qed.

End DistinctPairs.

(** ** removeNeuron on the only neuron of its layer, in general *)

(** When every layer that holds [neuronId] has exactly one neuron, the
    layers come back unchanged; the connections are filtered all the
    same. *)
Lemma removeNeuron_sole_neuron {num} {NUM : Number num} (neuronId : string)
  (prev : NeuralNetwork num) :
  (forall l, In l (layers prev) ->
     existsb (fun n => (nid n =? neuronId)%string) (neurons l) = true ->
     List.length (neurons l) = 1) ->
  layers (removeNeuron neuronId prev) = layers prev /\
  connections (removeNeuron neuronId prev)
  = filter (fun c => negb (fromNeuronId c =? neuronId)%string
                     && negb (toNeuronId c =? neuronId)%string)
           (connections prev).
Proof.
  intros H. split; [|reflexivity].
  cbn [removeNeuron layers]. rewrite <- (map_id (layers prev)) at 2.
  apply map_ext_in. intros l Hl. unfold removeNeuron_layer.
  destruct (existsb _ (neurons l)) eqn:Ee; [|reflexivity].
  rewrite (H l Hl Ee). reflexivity.
Qed.

(** * Further properties: the engine and the application handlers *)

(** ** The structure of a network carries its invariants *)

Lemma map_factor {A B C} (F : A -> B) (h : B -> C) (l l' : list A) :
  map F l' = map F l ->
  map (fun a => h (F a)) l' = map (fun a => h (F a)) l.
Proof. intros H. rewrite <- !(map_map F h). rewrite H. reflexivity. Qed.

Section Skeleton.

Context {num : Type}.

Lemma skeleton_shape (ls ls' : list (Layer num)) :
  map layer_skeleton ls' = map layer_skeleton ls -> shape ls' = shape ls.
Proof.
  intros E. unfold shape.
  assert (F : forall l : list (Layer num),
             map (fun x => map nid (neurons x)) l
             = map (fun x => map (fun p => fst (fst p)) (snd (layer_skeleton x))) l).
  { intros l. apply map_ext. intros x. unfold layer_skeleton. simpl.
    rewrite map_map. reflexivity. }
  rewrite !F.
  apply (map_factor layer_skeleton (fun s => map (fun p => fst (fst p)) (snd s))).
  exact E.
Qed.

Lemma skeleton_nth (ls ls' : list (Layer num)) (i : nat) (l' : Layer num) :
  map layer_skeleton ls' = map layer_skeleton ls ->
  nth_error ls' i = Some l' ->
  exists l, nth_error ls i = Some l /\ lid l = lid l' /\
            map place (neurons l) = map place (neurons l').
Proof.
  intros E H. apply (map_nth_error layer_skeleton) in H.
  rewrite E, nth_error_map in H.
  destruct (nth_error ls i) as [l|]; simpl in H; [|discriminate].
  exists l. split; [reflexivity|]. unfold layer_skeleton in H.
  inversion H. auto.
Qed.

(** A network with the structure of a well-formed one is well formed. *)
Lemma skeleton_well_formed (net net' : NeuralNetwork num) :
  skeleton net' = skeleton net -> well_formed net -> well_formed net'.
Proof.
  intros E [[Hcount Hne Hli Hni Hfw] Hids Hlids].
  unfold skeleton in E. injection E as El Ec.
  pose proof (skeleton_shape _ _ El) as Hsh.
  assert (Hlen : List.length (layers net') = List.length (layers net)).
  { rewrite <- (length_map layer_skeleton (layers net')), El. apply length_map. }
  assert (Hli' : layerIndex_ok (layers net')).
  { intros i l' n' Hi Hin.
    destruct (skeleton_nth _ _ i l' El Hi) as (l & Hl & _ & Ep).
    assert (Hp : In (place n') (map place (neurons l)))
      by (rewrite Ep; apply in_map; exact Hin).
    apply in_map_iff in Hp. destruct Hp as (n & En & Hn).
    unfold place in En. injection En as E1 E2 E3.
    rewrite <- E2. exact (Hli i l n Hl Hn). }
  assert (Hnd : NoDup (List.concat (shape (layers net')))).
  { rewrite Hsh, <- shape_concat. exact Hids. }
  constructor; [constructor|..].
  - rewrite Hlen. exact Hcount.
  - intros l' Hin Hnil. apply In_nth_error in Hin. destruct Hin as [i Hi].
    destruct (skeleton_nth _ _ i l' El Hi) as (l & Hl & _ & Ep).
    rewrite Hnil in Ep. simpl in Ep. apply map_eq_nil in Ep.
    apply (Hne l); [eapply nth_error_In; exact Hl | exact Ep].
  - exact Hli'.
  - intros l' Hin. apply In_nth_error in Hin. destruct Hin as [i Hi].
    destruct (skeleton_nth _ _ i l' El Hi) as (l & Hl & _ & Ep).
    assert (Hl' : List.length (neurons l') = List.length (neurons l)).
    { rewrite <- (length_map place (neurons l')), <- Ep. apply length_map. }
    rewrite Hl'. rewrite <- (Hni l) by (eapply nth_error_In; exact Hl).
    symmetry. apply (map_factor place (fun p => snd p)). exact Ep.
  - intros c' Hc'. apply forward_edge_connection; [exact Hli' | exact Hnd |].
    rewrite Hsh.
    assert (Hin : In (endpoints c') (map endpoints (connections net)))
      by (rewrite <- Ec; apply in_map; exact Hc').
    apply in_map_iff in Hin. destruct Hin as (c & E & Hc). rewrite <- E.
    apply connection_forward_edge; [exact Hli | apply Hfw; exact Hc].
  - rewrite shape_concat. exact Hnd.
  - replace (map lid (layers net')) with (map lid (layers net)); [exact Hlids|].
    apply (map_factor layer_skeleton (fun s => fst s)). symmetry. exact El.
Qed.

Lemma skeleton_pairs (net net' : NeuralNetwork num) :
  skeleton net' = skeleton net -> no_duplicate_pairs net -> no_duplicate_pairs net'.
Proof.
  intros E H. unfold skeleton in E. injection E as _ Ec.
  unfold no_duplicate_pairs. rewrite Ec. exact H.
Qed.

(** A write to the neurons of one layer that keeps their places. *)
Lemma skeleton_set_nth (g : Neuron num -> Neuron num) (ls : list (Layer num)) :
  (forall n, place (g n) = place n) ->
  forall i l, nth_error ls i = Some l ->
    map layer_skeleton (set_nth i (set_neurons l (map g (neurons l))) ls)
    = map layer_skeleton ls.
Proof.
  intros Hg. induction ls as [|h t IH]; intros [|i] l H; simpl in H;
    try discriminate.
  - inversion H; subst h. simpl. f_equal. unfold layer_skeleton. simpl.
    f_equal. rewrite map_map. apply map_ext. exact Hg.
  - simpl. f_equal. apply IH. exact H.
Qed.

Lemma skeleton_map_neurons (g : Neuron num -> Neuron num) (ls : list (Layer num)) :
  (forall n, place (g n) = place n) ->
  map layer_skeleton (map_neurons g ls) = map layer_skeleton ls.
Proof.
  intros Hg. unfold map_neurons. rewrite map_map. apply map_ext.
  intros l. unfold layer_skeleton. simpl. f_equal. rewrite map_map.
  apply map_ext. exact Hg.
Qed.

End Skeleton.

Section EngineSkeleton.

Context {num : Type} {NUM : Number num}.

Lemma forward_loop_skeleton (k : ActivationFunction) (conns : list (Connection num))
  (fuel : nat) : forall (i : nat) (ls ls' : list (Layer num)),
  forward_loop k conns i fuel ls = Some ls' ->
  map layer_skeleton ls' = map layer_skeleton ls.
Proof.
  induction fuel as [|fuel IH]; intros i ls ls' H; simpl in H.
  - inversion H. reflexivity.
  - unfold forward_layer in H.
    destruct (nth_error ls i) as [cur|] eqn:Ec; [|discriminate].
    destruct (nth_error ls (i - 1)) as [prv|]; [|discriminate].
    rewrite (IH _ _ _ H). apply skeleton_set_nth; [|exact Ec].
    intros n. reflexivity.
Qed.

Lemma backprop_loop_skeleton (D : num -> num) (conns : list (Connection num))
  (i : nat) : forall ls : list (Layer num),
  map layer_skeleton (backprop_loop D conns i ls) = map layer_skeleton ls.
Proof.
  induction i as [|i IH]; intros ls; [reflexivity|].
  cbn [backprop_loop]. rewrite IH. unfold backprop_layer.
  destruct (nth_error ls (S i)) as [cur|] eqn:Ec; [|reflexivity].
  destruct (nth_error ls (S (S i))) as [nxt|]; [|reflexivity].
  apply skeleton_set_nth; [|exact Ec]. intros n. reflexivity.
Qed.

Lemma update_bias_place (learningRate : num) (n : Neuron num) :
  place (update_bias learningRate n) = place n.
Proof. unfold update_bias. destruct (truthy_delta n); reflexivity. Qed.

Lemma bias_loop_skeleton (learningRate : num) (fuel : nat) :
  forall (i : nat) (ls : list (Layer num)),
  map layer_skeleton (bias_loop learningRate i fuel ls) = map layer_skeleton ls.
Proof.
  induction fuel as [|fuel IH]; intros i ls; [reflexivity|].
  cbn [bias_loop]. destruct (nth_error ls i) as [l|] eqn:El; [|reflexivity].
  rewrite IH. apply skeleton_set_nth; [|exact El].
  apply update_bias_place.
Qed.

Lemma reset_loop_skeleton (fuel : nat) : forall (i : nat) (ls : list (Layer num)),
  map layer_skeleton (reset_loop i fuel ls) = map layer_skeleton ls.
Proof.
  induction fuel as [|fuel IH]; intros i ls; [reflexivity|].
  cbn [reset_loop]. destruct (nth_error ls i) as [l|] eqn:El; [|reflexivity].
  rewrite IH. apply skeleton_set_nth; [|exact El]. intros n. reflexivity.
Qed.

Lemma update_connection_endpoints (learningRate : num) (ls : list (Layer num))
  (c : Connection num) :
  endpoints (update_connection learningRate ls c) = endpoints c.
Proof.
  unfold update_connection.
  destruct (find_neuron (fromNeuronId c) _); [|reflexivity].
  destruct (find_neuron (toNeuronId c) _) as [b|]; [|reflexivity].
  destruct (truthy_delta b); reflexivity.
Qed.

Lemma runForwardPropagation_skeleton (network result : NeuralNetwork num)
  (untilLayer : option nat) :
  runForwardPropagation network untilLayer = Some result ->
  skeleton result = skeleton network.
Proof.
  unfold runForwardPropagation. cbv zeta.
  destruct (forward_loop _ _ 1 _ (layers network)) as [ls|] eqn:E; [|discriminate].
  intros H. inversion H. unfold skeleton. cbn [layers connections].
  rewrite (forward_loop_skeleton _ _ _ _ _ _ E). reflexivity.
Qed.

Lemma runTrainingStep_skeleton (network updated : NeuralNetwork num)
  (learningRate finalLoss : num) :
  runTrainingStep network learningRate = Some (updated, finalLoss) ->
  skeleton updated = skeleton network.
Proof.
  unfold runTrainingStep.
  destruct (runForwardPropagation network None) as [p|] eqn:Ef; [|discriminate].
  apply runForwardPropagation_skeleton in Ef.
  destruct (nth_error (layers p) (List.length (layers p) - 1)) as [out|] eqn:Eo;
    [|discriminate].
  cbv zeta. intros H. inversion H. rewrite <- Ef.
  unfold skeleton. cbn [layers connections]. f_equal.
  - rewrite bias_loop_skeleton, backprop_loop_skeleton.
    apply skeleton_set_nth; [|exact Eo].
    intros n. reflexivity.
  - rewrite map_map. apply map_ext. intros c. apply update_connection_endpoints.
Qed.

Lemma run_value_edit_skeleton (e : value_edit num) (prev : NeuralNetwork num) :
  skeleton (run_value_edit e prev) = skeleton prev.
Proof.
  destruct e as [i x y|s k v|f|]; cbn [run_value_edit].
  - unfold updateNeuronPosition, skeleton. cbn [layers connections].
    rewrite skeleton_map_neurons; [reflexivity|].
    intros n. destruct (nid n =? i)%string; reflexivity.
  - unfold updateSelectedValue. destruct s as [[id|id]|]; [| |reflexivity].
    + unfold skeleton. cbn [layers connections].
      rewrite skeleton_map_neurons; [reflexivity|].
      intros n. destruct (nid n =? id)%string; [|reflexivity].
      destruct k; reflexivity.
    + destruct k; try reflexivity.
      unfold skeleton. cbn [layers connections]. f_equal.
      rewrite map_map. apply map_ext. intros c.
      destruct (cid c =? id)%string; reflexivity.
  - reflexivity.
  - unfold resetNetwork, skeleton. cbn [layers connections].
    rewrite reset_loop_skeleton. reflexivity.
Qed.

End EngineSkeleton.

(** X1: a completed forward pass keeps the data-model invariants: for an
    [untilLayer] within the layers (or none) of a well-formed network,
    [runForwardPropagation] returns a well-formed network with the same
    layer ids, neuron places and connection endpoints. *)
Theorem runForwardPropagation_well_formed {num} {NUM : Number num}
  (network : NeuralNetwork num) (untilLayer : option nat) :
  well_formed network ->
  maxLayer_of network untilLayer <= List.length (layers network) - 1 ->
  exists result,
    runForwardPropagation network untilLayer = Some result /\
    skeleton result = skeleton network /\ well_formed result.
Proof.
  intros Hwf Hmax.
  destruct (runForwardPropagation_frame network untilLayer Hmax) as (r & Er & _).
  exists r. split; [exact Er|].
  pose proof (runForwardPropagation_skeleton _ _ _ Er) as Es.
  split; [exact Es|]. exact (skeleton_well_formed _ _ Es Hwf).
Qed.

Lemma runForwardPropagation_well_formed_witness :
  exists result,
    runForwardPropagation seed (Some 1) = Some result /\
    skeleton result = skeleton seed /\ well_formed result.
Proof.
  apply (runForwardPropagation_well_formed seed (Some 1)).
  - exact seed_well_formed.
  - simpl. lia.
Defined.

(** X2: a training step on a well-formed network returns a well-formed
    network: training changes weights, biases, activations and the
    error, delta and gradient annotations, never an id, an index or an
    endpoint. *)
Theorem runTrainingStep_well_formed {num} {NUM : Number num}
  (network : NeuralNetwork num) (learningRate : num) :
  well_formed network ->
  exists updated finalLoss,
    runTrainingStep network learningRate = Some (updated, finalLoss) /\
    skeleton updated = skeleton network /\ well_formed updated.
Proof.
  intros Hwf.
  destruct (runForwardPropagation_full network) as (p & Ep & Hlen & _).
  assert (Hpos : 2 <= List.length (layers network)) by apply Hwf.
  destruct (nth_error (layers p) (List.length (layers p) - 1)) as [out|] eqn:Eo.
  2:{ apply nth_error_None in Eo. lia. }
  assert (E : exists r, runTrainingStep network learningRate = Some r).
  { unfold runTrainingStep. rewrite Ep, Eo. eexists. reflexivity. }
  destruct E as ([updated finalLoss] & E).
  exists updated, finalLoss. split; [exact E|].
  pose proof (runTrainingStep_skeleton _ _ _ _ E) as Es.
  split; [exact Es|]. exact (skeleton_well_formed _ _ Es Hwf).
Qed.

Lemma runTrainingStep_well_formed_witness :
  exists updated finalLoss,
    runTrainingStep seed (lit 0.1) = Some (updated, finalLoss) /\
    skeleton updated = skeleton seed /\ well_formed updated.
Proof.
  apply (runTrainingStep_well_formed seed (lit 0.1)). exact seed_well_formed.
Defined.

(** X3: dragging a neuron, moving a slider of the sidebar, choosing the
    activation function and pressing Reset keep the data-model invariants
    and the distinctness of the connection pairs: none of them changes an
    id, an index or an endpoint. *)
Theorem value_edits_keep_structure {num} {NUM : Number num}
  (e : value_edit num) (prev : NeuralNetwork num) :
  well_formed prev ->
  skeleton (run_value_edit e prev) = skeleton prev /\
  well_formed (run_value_edit e prev) /\
  (no_duplicate_pairs prev -> no_duplicate_pairs (run_value_edit e prev)).
Proof.
  intros Hwf. pose proof (run_value_edit_skeleton e prev) as Es.
  split; [exact Es|]. split.
  - exact (skeleton_well_formed _ _ Es Hwf).
  - exact (skeleton_pairs _ _ Es).
Qed.

Lemma value_edits_keep_structure_witness :
  well_formed
    (run_value_edit (UpdateSelectedValue (Some (sel_neuron "uuid-0"))
                                         key_activation (lit 0.5)) seed).
Proof.
  apply (value_edits_keep_structure
           (UpdateSelectedValue (Some (sel_neuron "uuid-0")) key_activation (lit 0.5))
           seed).
  exact seed_well_formed.
Defined.

(** ** Edits that the engine does not see *)

Lemma map_set_nth {A B} (F : A -> B) (v : A) (l : list A) : forall i,
  map F (set_nth i v l) = set_nth i (F v) (map F l).
Proof.
  induction l as [|h t IH]; intros [|i]; simpl; try reflexivity.
  f_equal. apply IH.
Qed.

Lemma fold_left_pointwise {A B} (f f' : A -> B -> A) (l : list B) :
  (forall a b, f a b = f' a b) ->
  forall a, fold_left f l a = fold_left f' l a.
Proof.
  intros H. induction l as [|b l IH]; intros a; simpl; [reflexivity|].
  rewrite H. apply IH.
Qed.

Section Cosmetic.

Context {num : Type} {NUM : Number num}.

(** [g] rewrites a neuron without touching what the engine reads or
    writes. *)
Variable g : Neuron num -> Neuron num.
Hypothesis g_nid : forall n, nid (g n) = nid n.
Hypothesis g_activation : forall n, activation (g n) = activation n.
Hypothesis g_bias : forall n, bias (g n) = bias n.
Hypothesis g_target : forall n, target (g n) = target n.
Hypothesis g_delta : forall n, delta (g n) = delta n.
Hypothesis g_set_activation : forall n v,
  g (set_activation n v) = set_activation (g n) v.
Hypothesis g_set_bias : forall n v, g (set_bias n v) = set_bias (g n) v.
Hypothesis g_set_error : forall n v, g (set_error n v) = set_error (g n) v.
Hypothesis g_set_delta : forall n v, g (set_delta n v) = set_delta (g n) v.

Local Abbreviation gl := (fun layer : Layer num => set_neurons layer (map g (neurons layer))).

Lemma find_neuron_map (i : string) (ns : list (Neuron num)) :
  find_neuron i (map g ns) = option_map g (find_neuron i ns).
Proof.
  unfold find_neuron. induction ns as [|a ns IH]; simpl; [reflexivity|].
  rewrite g_nid. destruct (nid a =? i)%string; [reflexivity | exact IH].
Qed.

Lemma flatMap_map_neurons (ls : list (Layer num)) :
  flatMap_neurons (map_neurons g ls) = map g (flatMap_neurons ls).
Proof.
  unfold flatMap_neurons, map_neurons.
  induction ls as [|l ls IH]; simpl; [reflexivity|].
  rewrite IH, map_app. reflexivity.
Qed.

Lemma truthy_delta_map (n : Neuron num) : truthy_delta (g n) = truthy_delta n.
Proof. unfold truthy_delta. rewrite g_delta. reflexivity. Qed.

Lemma forward_neuron_map (k : ActivationFunction) (conns : list (Connection num))
  (prevNeurons : list (Neuron num)) (n : Neuron num) :
  forward_neuron k conns (map g prevNeurons) (g n)
  = g (forward_neuron k conns prevNeurons n).
Proof.
  unfold forward_neuron. rewrite g_set_activation, g_bias. do 3 f_equal.
  unfold weightedSum, incomingConnections. rewrite g_nid.
  apply fold_left_pointwise. intros s c. unfold weightedSum_step.
  rewrite find_neuron_map. destruct (find_neuron _ prevNeurons); simpl;
    [rewrite g_activation|]; reflexivity.
Qed.

Lemma forward_layer_map (k : ActivationFunction) (conns : list (Connection num))
  (i : nat) (ls : list (Layer num)) :
  forward_layer k conns i (map_neurons g ls)
  = option_map (map_neurons g) (forward_layer k conns i ls).
Proof.
  unfold forward_layer, map_neurons. rewrite !nth_error_map.
  destruct (nth_error ls i) as [cur|]; [|reflexivity].
  destruct (nth_error ls (i - 1)) as [prv|]; [|reflexivity].
  simpl. f_equal. rewrite map_set_nth. f_equal.
  unfold set_neurons. simpl. f_equal. rewrite !map_map.
  apply map_ext. intros n. apply forward_neuron_map.
Qed.

Lemma forward_loop_map (k : ActivationFunction) (conns : list (Connection num))
  (fuel : nat) : forall (i : nat) (ls : list (Layer num)),
  forward_loop k conns i fuel (map_neurons g ls)
  = option_map (map_neurons g) (forward_loop k conns i fuel ls).
Proof.
  induction fuel as [|fuel IH]; intros i ls; simpl; [reflexivity|].
  rewrite forward_layer_map.
  destruct (forward_layer k conns i ls) as [ls'|]; simpl; [apply IH | reflexivity].
Qed.

Lemma runForwardPropagation_map (network : NeuralNetwork num)
  (untilLayer : option nat) :
  runForwardPropagation (map_network g network) untilLayer
  = option_map (map_network g) (runForwardPropagation network untilLayer).
Proof.
  unfold runForwardPropagation, map_network. cbn [layers connections activationFunction].
  rewrite forward_loop_map.
  replace (List.length (map_neurons g (layers network)))
    with (List.length (layers network)) by (unfold map_neurons; now rewrite length_map).
  destruct (forward_loop _ _ 1 _ (layers network)); reflexivity.
Qed.

Lemma output_neuron_map (D : num -> num) (n : Neuron num) :
  output_neuron D (g n) = g (output_neuron D n).
Proof.
  unfold output_neuron. rewrite g_set_delta, g_set_error, g_target, g_activation.
  reflexivity.
Qed.

Lemma backprop_neuron_map (D : num -> num) (conns : list (Connection num))
  (nextNeurons : list (Neuron num)) (n : Neuron num) :
  backprop_neuron D conns (map g nextNeurons) (g n)
  = g (backprop_neuron D conns nextNeurons n).
Proof.
  unfold backprop_neuron. rewrite g_set_delta, g_activation. do 2 f_equal.
  unfold outgoingConnections. rewrite g_nid.
  apply fold_left_pointwise. intros e c. unfold backprop_step.
  rewrite find_neuron_map. destruct (find_neuron _ nextNeurons); simpl;
    [rewrite truthy_delta_map|]; reflexivity.
Qed.

Lemma backprop_loop_map (D : num -> num) (conns : list (Connection num))
  (i : nat) : forall ls : list (Layer num),
  backprop_loop D conns i (map_neurons g ls)
  = map_neurons g (backprop_loop D conns i ls).
Proof.
  induction i as [|i IH]; intros ls; [reflexivity|].
  cbn [backprop_loop]. rewrite <- IH. f_equal.
  unfold backprop_layer, map_neurons. rewrite !nth_error_map.
  destruct (nth_error ls (S i)) as [cur|]; [|reflexivity].
  destruct (nth_error ls (S (S i))) as [nxt|]; [|reflexivity].
  cbv beta iota. cbn [option_map]. rewrite map_set_nth. f_equal.
  unfold set_neurons. simpl. f_equal. rewrite !map_map.
  apply map_ext. intros n. apply backprop_neuron_map.
Qed.

Lemma update_bias_map (learningRate : num) (n : Neuron num) :
  update_bias learningRate (g n) = g (update_bias learningRate n).
Proof.
  unfold update_bias. rewrite truthy_delta_map.
  destruct (truthy_delta n); [|reflexivity].
  rewrite g_set_bias, g_bias. reflexivity.
Qed.

Lemma bias_loop_map (learningRate : num) (fuel : nat) :
  forall (i : nat) (ls : list (Layer num)),
  bias_loop learningRate i fuel (map_neurons g ls)
  = map_neurons g (bias_loop learningRate i fuel ls).
Proof.
  induction fuel as [|fuel IH]; intros i ls; [reflexivity|].
  cbn [bias_loop]. unfold map_neurons at 1. rewrite nth_error_map.
  destruct (nth_error ls i) as [l|]; [|reflexivity].
  simpl. rewrite <- IH. f_equal. unfold map_neurons. rewrite map_set_nth.
  f_equal. unfold set_neurons. simpl. f_equal. rewrite !map_map.
  apply map_ext. intros n. apply update_bias_map.
Qed.

Lemma update_connection_map (learningRate : num) (ls : list (Layer num))
  (c : Connection num) :
  update_connection learningRate (map_neurons g ls) c
  = update_connection learningRate ls c.
Proof.
  unfold update_connection. rewrite flatMap_map_neurons, !find_neuron_map.
  destruct (find_neuron (fromNeuronId c) _) as [a|]; [|reflexivity].
  destruct (find_neuron (toNeuronId c) _) as [b|]; [|reflexivity].
  simpl. rewrite truthy_delta_map, g_activation. reflexivity.
Qed.

Lemma length_map_neurons (ls : list (Layer num)) :
  List.length (map_neurons g ls) = List.length ls.
Proof. unfold map_neurons. apply length_map. Qed.

Lemma nth_error_map_neurons (ls : list (Layer num)) (i : nat) :
  nth_error (map_neurons g ls) i = option_map gl (nth_error ls i).
Proof. unfold map_neurons. apply nth_error_map. Qed.

Lemma output_step_map (D : num -> num) (j : nat) (out : Layer num)
  (ls : list (Layer num)) :
  set_nth j (set_neurons (gl out) (map (output_neuron D) (neurons (gl out))))
          (map_neurons g ls)
  = map_neurons g
      (set_nth j (set_neurons out (map (output_neuron D) (neurons out))) ls).
Proof.
  unfold map_neurons. rewrite map_set_nth. f_equal.
  unfold set_neurons. simpl. f_equal. rewrite !map_map.
  apply map_ext. intros n. apply output_neuron_map.
Qed.

Lemma output_loss_map (ns : list (Neuron num)) : forall a : num,
  fold_left output_loss_step (map g ns) a = fold_left output_loss_step ns a.
Proof.
  induction ns as [|n ns IH]; intros a; simpl; [reflexivity|].
  rewrite IH. f_equal. unfold output_loss_step.
  rewrite g_target, g_activation. reflexivity.
Qed.

Lemma runTrainingStep_map (network : NeuralNetwork num) (learningRate : num) :
  runTrainingStep (map_network g network) learningRate
  = option_map (fun r => (map_network g (fst r), snd r))
               (runTrainingStep network learningRate).
Proof.
  unfold runTrainingStep. rewrite runForwardPropagation_map.
  destruct (runForwardPropagation network None) as [p|]; [|reflexivity].
  cbn [option_map]. cbv zeta.
  change (layers (map_network g p)) with (map_neurons g (layers p)).
  change (connections (map_network g p)) with (connections p).
  change (activationFunction (map_network g p)) with (activationFunction p).
  rewrite length_map_neurons, nth_error_map_neurons.
  destruct (nth_error (layers p) (List.length (layers p) - 1)) as [out|];
    [|reflexivity].
  cbn [option_map fst snd].
  rewrite output_step_map, backprop_loop_map, bias_loop_map.
  rewrite (map_ext _ _ (update_connection_map learningRate _)).
  cbn [neurons set_neurons].
  rewrite length_map, output_loss_map. reflexivity.
Qed.

End Cosmetic.

(** X4: the position of a neuron is invisible to the engine: a forward
    pass (full or partial) and a training step of a network in which a
    neuron was dragged to [(x, y)] return (or throw) as they do on the
    network before the drag, and return the same network with that neuron
    dragged, and the same loss. *)
Theorem updateNeuronPosition_commutes_with_engine {num} {NUM : Number num}
  (neuronId : string) (x y : num) (network : NeuralNetwork num)
  (untilLayer : option nat) (learningRate : num) :
  runForwardPropagation (updateNeuronPosition neuronId x y network) untilLayer
  = option_map (updateNeuronPosition neuronId x y)
               (runForwardPropagation network untilLayer) /\
  runTrainingStep (updateNeuronPosition neuronId x y network) learningRate
  = option_map (fun r => (updateNeuronPosition neuronId x y (fst r), snd r))
               (runTrainingStep network learningRate).
Proof.
  set (g := fun n : Neuron num =>
              if (nid n =? neuronId)%string then set_position n x y else n).
  assert (E : forall net, updateNeuronPosition neuronId x y net = map_network g net)
    by reflexivity.
  split.
  - rewrite E, (runForwardPropagation_map g).
    + destruct (runForwardPropagation network untilLayer); reflexivity.
    + intros n. unfold g. destruct (nid n =? neuronId)%string; reflexivity.
    + intros n. unfold g. destruct (nid n =? neuronId)%string; reflexivity.
    + intros n. unfold g. destruct (nid n =? neuronId)%string; reflexivity.
    + intros n v. unfold g. simpl. destruct (nid n =? neuronId)%string; reflexivity.
  - rewrite E, (runTrainingStep_map g).
    + destruct (runTrainingStep network learningRate); reflexivity.
    + intros n. unfold g. destruct (nid n =? neuronId)%string; reflexivity.
    + intros n. unfold g. destruct (nid n =? neuronId)%string; reflexivity.
    + intros n. unfold g. destruct (nid n =? neuronId)%string; reflexivity.
    + intros n. unfold g. destruct (nid n =? neuronId)%string; reflexivity.
    + intros n. unfold g. destruct (nid n =? neuronId)%string; reflexivity.
    + intros n v. unfold g. simpl. destruct (nid n =? neuronId)%string; reflexivity.
    + intros n v. unfold g. simpl. destruct (nid n =? neuronId)%string; reflexivity.
    + intros n v. unfold g. simpl. destruct (nid n =? neuronId)%string; reflexivity.
    + intros n v. unfold g. simpl. destruct (nid n =? neuronId)%string; reflexivity.
Qed.

(** ** The sliders of the sidebar *)

(** X5: lookup after [updateSelectedValue].  With a neuron selected,
    looking up an id in the updated network gives the neuron the old
    network had under that id, with the field [key] set to [value] when
    the id is the selected one and untouched otherwise; with a connection
    selected and the key ['weight'], the same holds of the connections and
    their weight. *)
Theorem updateSelectedValue_lookup {num} {NUM : Number num}
  (id i : string) (key : ValueKey) (value : num) (prev : NeuralNetwork num) :
  find_neuron i
    (flatMap_neurons
       (layers (updateSelectedValue (Some (sel_neuron id)) key value prev)))
  = option_map (fun n => if (i =? id)%string then set_key n key value else n)
               (find_neuron i (flatMap_neurons (layers prev))) /\
  find (fun c => (cid c =? i)%string)
       (connections
          (updateSelectedValue (Some (sel_connection id)) key_weight value prev))
  = option_map (fun c => if (i =? id)%string then set_weight c value else c)
               (find (fun c => (cid c =? i)%string) (connections prev)).
Proof.
  split.
  - cbn [updateSelectedValue layers].
    rewrite flatMap_map_neurons, find_neuron_map.
    + destruct (find_neuron i (flatMap_neurons (layers prev))) as [n|] eqn:E;
        [|reflexivity].
      apply find_neuron_In in E. destruct E as [_ E]. simpl. rewrite E.
      reflexivity.
    + intros n. destruct (nid n =? id)%string; [|reflexivity].
      destruct key; reflexivity.
  - cbn [updateSelectedValue connections].
    induction (connections prev) as [|c cs IH]; simpl; [reflexivity|].
    destruct (cid c =? id)%string eqn:Eid; simpl.
    + destruct (cid c =? i)%string eqn:Ei; [|exact IH].
      apply String.eqb_eq in Eid, Ei. subst. simpl.
      rewrite String.eqb_refl. reflexivity.
    + destruct (cid c =? i)%string eqn:Ei; [|exact IH].
      apply String.eqb_eq in Ei. subst. simpl. rewrite Eid. reflexivity.
Qed.

Lemma map_neurons_fixed {num} (f : Neuron num -> Neuron num) (ls : list (Layer num)) :
  (forall n, In n (flatMap_neurons ls) -> f n = n) -> map_neurons f ls = ls.
Proof.
  unfold map_neurons, flatMap_neurons.
  induction ls as [|l ls IH]; intros H; simpl; [reflexivity|]. f_equal.
  - rewrite <- layer_eta. unfold set_neurons. f_equal.
    rewrite <- (map_id (neurons l)) at 2. apply map_ext_in.
    intros n Hn. apply H. simpl. apply in_or_app. left. exact Hn.
  - apply IH. intros n Hn. apply H. simpl. apply in_or_app. right. exact Hn.
Qed.

(** X6: a slider moved under a stale selection changes nothing: with
    nothing selected, with a selected neuron id or connection id that the
    network no longer has, or with a connection selected and a key other
    than ['weight'], [updateSelectedValue] leaves the network as it is. *)
Theorem updateSelectedValue_stale_selection {num} {NUM : Number num}
  (selectedElement : option SelectedElement) (key : ValueKey) (value : num)
  (prev : NeuralNetwork num) :
  match selectedElement with
  | None => True
  | Some (sel_neuron id) => find_neuron id (flatMap_neurons (layers prev)) = None
  | Some (sel_connection id) =>
      key <> key_weight \/
      find (fun c => (cid c =? id)%string) (connections prev) = None
  end ->
  updateSelectedValue selectedElement key value prev = prev.
Proof.
  destruct selectedElement as [[id|id]|]; cbn [updateSelectedValue]; intros H.
  - rewrite map_neurons_fixed; [apply network_eta|].
    intros n Hn. unfold find_neuron in H.
    rewrite (find_none _ _ H n Hn). reflexivity.
  - destruct H as [H|H].
    + destruct key; try reflexivity. congruence.
    + destruct key; try reflexivity.
      transitivity (mkNetwork (layers prev) (connections prev)
                              (activationFunction prev)); [|apply network_eta].
      f_equal.
      rewrite <- (map_id (connections prev)) at 2. apply map_ext_in.
      intros c Hc. rewrite (find_none _ _ H c Hc). reflexivity.
  - reflexivity.
Qed.

Lemma updateSelectedValue_stale_selection_witness :
  updateSelectedValue (Some (sel_neuron "uuid-99")) key_bias (lit 0.5) seed = seed.
Proof.
  apply (updateSelectedValue_stale_selection
           (Some (sel_neuron "uuid-99")) key_bias (lit 0.5) seed).
  reflexivity.
Defined.

(** ** The Reset button *)

Section Reset.

Context {num : Type} {NUM : Number num}.

Lemma reset_loop_length (fuel : nat) : forall (i : nat) (ls : list (Layer num)),
  List.length (reset_loop i fuel ls) = List.length ls.
Proof.
  induction fuel as [|fuel IH]; intros i ls; [reflexivity|].
  cbn [reset_loop]. destruct (nth_error ls i); [|reflexivity].
  rewrite IH. apply set_nth_length.
Qed.

(** The loop over the layers [i .. i+fuel-1] resets exactly those. *)
Lemma reset_loop_nth (fuel : nat) : forall (i : nat) (ls : list (Layer num)),
  i + fuel <= List.length ls ->
  forall p,
    nth_error (reset_loop i fuel ls) p
    = if (i <=? p) && (p <? i + fuel)
      then option_map reset_layer (nth_error ls p)
      else nth_error ls p.
Proof.
  induction fuel as [|fuel IH]; intros i ls Hlen p.
  - simpl. destruct (Nat.leb_spec i p), (Nat.ltb_spec p (i + 0)); simpl;
      try reflexivity. lia.
  - cbn [reset_loop]. destruct (nth_error ls i) as [l|] eqn:El.
    2:{ apply nth_error_None in El. lia. }
    rewrite IH by (rewrite set_nth_length; lia).
    destruct (Nat.eq_dec p i) as [->|Hne].
    + rewrite nth_error_set_nth_eq by lia. rewrite El.
      destruct (Nat.leb_spec (S i) i), (Nat.leb_spec i i),
               (Nat.ltb_spec i (i + S fuel)); simpl; try lia. reflexivity.
    + rewrite nth_error_set_nth_ne by lia.
      destruct (Nat.leb_spec (S i) p), (Nat.leb_spec i p),
               (Nat.ltb_spec p (S i + fuel)), (Nat.ltb_spec p (i + S fuel));
        simpl; try lia; reflexivity.
Qed.

Lemma resetNetwork_nth (net : NeuralNetwork num) (p : nat) :
  nth_error (layers (resetNetwork net)) p
  = if (1 <=? p) then option_map reset_layer (nth_error (layers net) p)
    else nth_error (layers net) p.
Proof.
  unfold resetNetwork. cbn [layers].
  destruct (layers net) as [|l0 ls0] eqn:E0.
  { cbn [List.length Nat.sub reset_loop]. rewrite nth_error_nil.
    destruct (1 <=? p); reflexivity. }
  rewrite <- E0. assert (Hpos : 0 < List.length (layers net))
    by (rewrite E0; simpl; lia).
  clear E0 l0 ls0.
  rewrite reset_loop_nth by lia.
  destruct (Nat.leb_spec 1 p); cbn [andb]; [|reflexivity].
  destruct (Nat.ltb_spec p (1 + (List.length (layers net) - 1))); [reflexivity|].
  assert (E : nth_error (layers net) p = None) by (apply nth_error_None; lia).
  rewrite E. reflexivity.
Qed.

Lemma reset_same_but_activation (ns : list (Neuron num)) :
  Forall2 same_but_activation ns (map (fun n => set_activation n (lit 0)) ns).
Proof.
  induction ns as [|n ns IH]; simpl; constructor; [|exact IH]. reflexivity.
Qed.

Lemma same_inputs_reset (net : NeuralNetwork num) : same_inputs net (resetNetwork net).
Proof.
  unfold same_inputs. split; [reflexivity|]. split; [reflexivity|]. split.
  - unfold resetNetwork. cbn [layers]. apply reset_loop_length.
  - intros i l Hl. rewrite resetNetwork_nth, Hl.
    destruct (Nat.leb_spec 1 i); simpl.
    + eexists. split; [reflexivity|]. split; [reflexivity|]. split.
      * apply reset_same_but_activation.
      * intros ->. lia.
    + exists l. repeat split; auto.
      clear. induction (neurons l); constructor; auto using same_but_activation_refl.
Qed.

Lemma resetNetwork_idempotent (net : NeuralNetwork num) :
  resetNetwork (resetNetwork net) = resetNetwork net.
Proof.
  transitivity (mkNetwork (layers (resetNetwork net)) (connections (resetNetwork net))
                          (activationFunction (resetNetwork net)));
    [|apply network_eta].
  unfold resetNetwork at 1. cbv zeta. f_equal.
  change (reset_loop 1 (List.length (layers (resetNetwork net)) - 1)
                     (layers (resetNetwork net)))
    with (layers (resetNetwork (resetNetwork net))).
  apply nth_error_ext. intros p. rewrite resetNetwork_nth.
  destruct (Nat.leb_spec 1 p); [|reflexivity].
  rewrite resetNetwork_nth.
  destruct (Nat.leb_spec 1 p); [|lia].
  destruct (nth_error (layers net) p) as [l|]; [|reflexivity].
  simpl. f_equal. unfold reset_layer, set_neurons. simpl. f_equal.
  rewrite map_map. reflexivity.
Qed.

End Reset.

(** X7: pressing Reset before a full forward pass is immaterial: the pass
    computes every activation past the input layer anew, so it returns the
    same network on the reset network and on the original. *)
Theorem reset_then_forward {num} {NUM : Number num} (network : NeuralNetwork num) :
  runForwardPropagation (resetNetwork network) None
  = runForwardPropagation network None.
Proof.
  symmetry. apply runForwardPropagation_stale. apply same_inputs_reset.
Qed.

Lemma seed_at_rest : at_rest seed.
Proof.
  intros i l n Hi Hl Hn.
  cbv [seed getInitialNetwork layers] in Hl.
  destruct i as [|[|[|i]]]; [lia| | |].
  - cbn [nth_error] in Hl. injection Hl as <-. cbn [neurons] in Hn.
    destruct Hn as [<-|[<-|[]]]; reflexivity.
  - cbn [nth_error] in Hl. injection Hl as <-. cbn [neurons] in Hn.
    destruct Hn as [<-|[]]; reflexivity.
  - cbn [nth_error] in Hl. destruct i; discriminate.
Qed.

(** X8: Reset undoes a forward pass.  On a network whose neurons past the
    input layer are at rest (activation 0, as in the initial network), a
    forward pass up to a layer the network has, followed by Reset, gives
    back the network, whatever the pass computed; and Reset is idempotent. *)
Theorem reset_undoes_forward {num} {NUM : Number num}
  (network : NeuralNetwork num) (untilLayer : option nat) :
  at_rest network ->
  maxLayer_of network untilLayer <= List.length (layers network) - 1 ->
  exists result,
    runForwardPropagation network untilLayer = Some result /\
    resetNetwork result = network /\
    resetNetwork (resetNetwork result) = resetNetwork result.
Proof.
  intros Hrest Hmax.
  destruct (runForwardPropagation_frame network untilLayer Hmax)
    as (r & Er & Hc & Hk & Hlen & Hl).
  exists r. split; [exact Er|].
  assert (E : resetNetwork r = network).
  { transitivity (mkNetwork (layers network) (connections network)
                            (activationFunction network)); [|apply network_eta].
    unfold resetNetwork at 1. cbv zeta.
    rewrite Hc, Hk. f_equal.
    change (reset_loop 1 (List.length (layers r) - 1) (layers r))
      with (layers (resetNetwork r)).
    apply nth_error_ext. intros p. rewrite resetNetwork_nth.
    destruct (nth_error (layers network) p) as [l|] eqn:El.
    - destruct (Hl p l El) as (l' & El' & Hlid & Hns & H0). rewrite El'.
      destruct (Nat.leb_spec 1 p); simpl.
      + f_equal. rewrite <- (layer_eta l). unfold reset_layer, set_neurons.
        rewrite Hlid. f_equal.
        assert (Ha : forall n, In n (neurons l) -> activation n = lit 0)
          by (intros n Hn; exact (Hrest p l n H El Hn)).
        clear -Hns Ha. induction Hns as [|n n' ns ns' Hn _ IH]; simpl;
          [reflexivity|]. f_equal.
        * rewrite Hn. rewrite <- (Ha n) by (left; reflexivity).
          destruct n; reflexivity.
        * apply IH. intros m Hm. apply Ha. right. exact Hm.
      + rewrite H0 by lia. reflexivity.
    - assert (E' : nth_error (layers r) p = None).
      { apply nth_error_None. apply nth_error_None in El. lia. }
      rewrite E'. destruct (1 <=? p); reflexivity. }
  split; [exact E|]. apply resetNetwork_idempotent.
Qed.

Lemma reset_undoes_forward_witness :
  exists result,
    runForwardPropagation seed None = Some result /\
    resetNetwork result = seed /\
    resetNetwork (resetNetwork result) = resetNetwork result.
Proof.
  apply (reset_undoes_forward seed None).
  - exact seed_at_rest.
  - simpl. lia.
Defined.

(** ** Partial and repeated forward passes *)

Lemma forward_loop_split {num} {NUM : Number num} (k : ActivationFunction)
  (conns : list (Connection num)) (a : nat) :
  forall (b i : nat) (ls : list (Layer num)),
  forward_loop k conns i (a + b) ls
  = match forward_loop k conns i a ls with
    | Some ls' => forward_loop k conns (i + a) b ls'
    | None => None
    end.
Proof.
  induction a as [|a IH]; intros b i ls; simpl.
  - rewrite Nat.add_0_r. reflexivity.
  - destruct (forward_layer k conns i ls) as [ls1|]; [|reflexivity].
    rewrite IH. replace (S i + a) with (i + S a) by lia. reflexivity.
Qed.

(** X9: a partial pass is a prefix of the full pass.  For [u] within the
    layers, [runForwardPropagation network u] and the full pass both
    return; they agree on the connections and on every layer up to [u],
    and the partial result still has the layers past [u] as the input had
    them.  (These are the frames that the Forward Pass animation shows.) *)
Theorem partial_pass_is_prefix {num} {NUM : Number num}
  (network : NeuralNetwork num) (u : nat) :
  u <= List.length (layers network) - 1 ->
  exists partial full,
    runForwardPropagation network (Some u) = Some partial /\
    runForwardPropagation network None = Some full /\
    connections partial = connections full /\
    (forall i, i <= u -> nth_error (layers partial) i = nth_error (layers full) i) /\
    (forall i, u < i -> nth_error (layers partial) i = nth_error (layers network) i).
Proof.
  intros Hu. unfold runForwardPropagation. cbv zeta.
  set (m := List.length (layers network) - 1) in *.
  destruct (Nat.eq_dec m 0) as [Hm|Hm].
  - assert (u = 0) by lia. subst u. rewrite Hm. simpl.
    eexists. eexists. repeat split; reflexivity.
  - assert (Efull : forward_loop (activationFunction network) (connections network)
                      1 m (layers network)
                    = match forward_loop (activationFunction network)
                              (connections network) 1 u (layers network) with
                      | Some ls' =>
                          forward_loop (activationFunction network)
                            (connections network) (1 + u) (m - u) ls'
                      | None => None
                      end).
    { rewrite <- forward_loop_split. f_equal. lia. }
    rewrite Efull. clear Efull.
    destruct (forward_loop_spec (activationFunction network) (connections network)
                u 1 (layers network) ltac:(lia) ltac:(lia))
      as (lu & Elu & Hlu & Houtu & _).
    rewrite Elu.
    destruct (forward_loop_spec (activationFunction network) (connections network)
                (m - u) (1 + u) lu ltac:(lia) ltac:(lia))
      as (lf & Elf & Hlf & Houtf & _).
    rewrite Elf.
    eexists. eexists. split; [reflexivity|]. split; [reflexivity|].
    cbn [layers connections]. split; [reflexivity|]. split.
    + intros i Hi. symmetry. apply Houtf. lia.
    + intros i Hi. apply Houtu. lia.
Qed.

Lemma partial_pass_is_prefix_witness :
  exists partial full,
    runForwardPropagation seed (Some 1) = Some partial /\
    runForwardPropagation seed None = Some full /\
    connections partial = connections full /\
    (forall i, i <= 1 -> nth_error (layers partial) i = nth_error (layers full) i) /\
    (forall i, 1 < i -> nth_error (layers partial) i = nth_error (layers seed) i).
Proof.
  apply (partial_pass_is_prefix seed 1). simpl. lia.
Defined.

(** X10: the full forward pass is idempotent: it always returns, and
    running it again on its result returns that result unchanged. *)
Theorem runForwardPropagation_idempotent {num} {NUM : Number num}
  (network : NeuralNetwork num) :
  exists result,
    runForwardPropagation network None = Some result /\
    runForwardPropagation result None = Some result.
Proof.
  destruct (runForwardPropagation_frame network None (le_n _))
    as (r & Er & Hc & Hk & Hlen & Hl).
  exists r. split; [exact Er|].
  rewrite <- Er. symmetry. apply runForwardPropagation_stale.
  split; [exact Hc|]. split; [exact Hk|]. split; [exact Hlen|].
  intros i l Hil. destruct (Hl i l Hil) as (l' & El' & Hlid & Hns & H0).
  exists l'. repeat split; auto.
Qed.

(** ** The Train Step button *)

(** X11: [handleTrainingStep] throws exactly on a network without layers
    (where [outputLayer] is undefined); on every other network it sets the
    trained network and a loss and leaves the rest of the state alone. *)
Theorem handleTrainingStep_throws_iff_no_layers {num} {NUM : Number num}
  (st : AppState num) :
  (layers (app_network st) = [] <-> handleTrainingStep st = None) /\
  (layers (app_network st) <> [] ->
   exists updated finalLoss,
     runTrainingStep (app_network st) (app_learningRate st)
     = Some (updated, finalLoss) /\
     handleTrainingStep st
     = Some (mkApp updated (app_selectedElement st) (app_theme st)
                   (app_isSimulating st) (app_simulationLayer st)
                   (app_learningRate st) (Some finalLoss))).
Proof.
  assert (Hpos : layers (app_network st) <> [] ->
    exists updated finalLoss,
      runTrainingStep (app_network st) (app_learningRate st)
      = Some (updated, finalLoss)).
  { intros Hne.
    destruct (runForwardPropagation_full (app_network st)) as (p & Ep & Hlen & _).
    destruct (nth_error (layers p) (List.length (layers p) - 1)) as [out|] eqn:Eo.
    - destruct (runTrainingStep_loss _ _ (app_learningRate st) _ Ep Eo) as (u & Eu).
      eexists. eexists. exact Eu.
    - apply nth_error_None in Eo.
      destruct (layers (app_network st)); [congruence|]. simpl in Hlen. lia. }
  split; [split|].
  - intros Hnil. unfold handleTrainingStep, runTrainingStep, runForwardPropagation.
    rewrite Hnil. reflexivity.
  - intros Hnone.
    destruct (layers (app_network st)) as [|l ls] eqn:El; [reflexivity|].
    destruct Hpos as (u & f & E); [discriminate|].
    unfold handleTrainingStep in Hnone. rewrite E in Hnone. discriminate.
  - intros Hne. destruct (Hpos Hne) as (u & f & E).
    exists u, f. split; [exact E|].
    unfold handleTrainingStep. rewrite E. reflexivity.
Qed.

Lemma handleTrainingStep_throws_iff_no_layers_witness :
  handleTrainingStep
    (mkApp (mkNetwork [] [] sigmoid_k) None dark false None (lit 0.1) None)
  = None.
Proof.
  apply (proj1 (handleTrainingStep_throws_iff_no_layers
                  (mkApp (mkNetwork [] [] sigmoid_k) None dark false None
                         (lit 0.1) None))).
  reflexivity.
Defined.

(** ** The Forward Pass animation *)

Section Simulation.

Context {num : Type} {NUM : Number num}.

Lemma runForwardPropagation_last (network : NeuralNetwork num) :
  runForwardPropagation network (Some (List.length (layers network) - 1))
  = runForwardPropagation network None.
Proof. reflexivity. Qed.

Lemma run_timers_S (fuel : nat)
  (edits : nat -> NeuralNetwork num -> NeuralNetwork num)
  (a : Animation num) (st : AppState num) :
  run_timers (S fuel) edits a st
  = match animateLayer a (setNetwork (edits (currentLayer a)) st) with
    | None => Threw
    | Some (st', Some a') => run_timers fuel edits a' st'
    | Some (st', None) => Finished st'
    end.
Proof. reflexivity. Qed.

Variable network : NeuralNetwork num.
Variable result : NeuralNetwork num.
Variable outputLayer : Layer num.
Variable edits : nat -> NeuralNetwork num -> NeuralNetwork num.
Hypothesis Hresult : runForwardPropagation network None = Some result.
Hypothesis Hout :
  nth_error (layers result) (List.length (layers result) - 1) = Some outputLayer.

Local Abbreviation n := (List.length (layers network)).

(** The timers from the one that finds the counter at [k]. *)
Lemma run_timers_spec (m : nat) : forall (k : nat) (st : AppState num),
  k + m = n -> 1 <= k ->
  (k = n -> app_network st = result /\ app_loss st = simulation_loss outputLayer) ->
  run_timers (S m) edits (mkAnimation network n k) st
  = Finished
      (mkApp (edits n result) (app_selectedElement st) (app_theme st) false None
             (app_learningRate st) (simulation_loss outputLayer)).
Proof.
  induction m as [|m IH]; intros k st Hk H1 Hlast.
  - assert (Ek : k = n) by lia. destruct (Hlast Ek) as (En & El).
    cbn [run_timers]. unfold animateLayer. cbn [currentLayer layerCount].
    rewrite Ek, Nat.ltb_irrefl. unfold setNetwork.
    cbn [app_network app_selectedElement app_theme app_learningRate app_loss].
    rewrite En, El. reflexivity.
  - rewrite run_timers_S. unfold animateLayer.
    cbn [currentLayer layerCount anim_network].
    assert (Hlt : (k <? n) = true) by (apply Nat.ltb_lt; lia).
    rewrite Hlt.
    destruct (Nat.eqb_spec k (n - 1)) as [Ek|Ek].
    + assert (Erk : runForwardPropagation network (Some k) = Some result).
      { rewrite Ek, runForwardPropagation_last. exact Hresult. }
      rewrite Erk, Hout.
      etransitivity; [apply (IH (S k)); [lia | lia |] | reflexivity].
      intros _. split; reflexivity.
    + destruct (runForwardPropagation_frame network (Some k)) as (rk & Erk & _).
      { simpl. lia. }
      rewrite Erk.
      etransitivity; [apply (IH (S k)); [lia | lia | lia] | reflexivity].
Qed.

Lemma run_timers_from_1 (st : AppState num) :
  0 < n ->
  (1 = n -> app_network st = result /\ app_loss st = simulation_loss outputLayer) ->
  run_timers n edits (mkAnimation network n 1) st
  = Finished
      (mkApp (edits n result) (app_selectedElement st) (app_theme st) false None
             (app_learningRate st) (simulation_loss outputLayer)).
Proof.
  intros Hpos Hlast.
  generalize (run_timers_spec (n - 1) 1 st).
  replace (S (n - 1)) with n by lia.
  intros H. apply H; [lia | lia | exact Hlast].
Qed.

End Simulation.

(** X12: the Forward Pass animation runs to completion.  A click while a
    simulation runs is ignored.  Otherwise no callback throws; on a network
    with n >= 1 layers the click and n timers end the simulation, the flags
    are cleared, the loss is that of the output layer of the full forward
    pass of the network as it was at the click, and so is the network:
    every frame overwrites it, so what an edit changed between two frames
    is lost, and only an edit made after the last frame survives.  With no
    layers the click only clears the flags. *)
Theorem simulation_runs_to_completion {num} {NUM : Number num}
  (st : AppState num) (edits : nat -> NeuralNetwork num -> NeuralNetwork num) :
  (app_isSimulating st = true ->
   forall fuel, simulate fuel edits st = Finished st) /\
  (app_isSimulating st = false -> layers (app_network st) = [] ->
   forall fuel,
     simulate fuel edits st
     = Finished (mkApp (app_network st) (app_selectedElement st) (app_theme st)
                       false None (app_learningRate st) (app_loss st))) /\
  (app_isSimulating st = false -> layers (app_network st) <> [] ->
   exists result outputLayer,
     runForwardPropagation (app_network st) None = Some result /\
     nth_error (layers result) (List.length (layers result) - 1)
     = Some outputLayer /\
     simulate (List.length (layers (app_network st))) edits st
     = Finished (simulation_end st result outputLayer
                   (edits (List.length (layers (app_network st)))))).
Proof.
  split; [|split].
  - intros Hs fuel. unfold simulate, handleRunSimulation. rewrite Hs. reflexivity.
  - intros Hs Hnil fuel. unfold simulate, handleRunSimulation, animateLayer.
    rewrite Hs, Hnil. reflexivity.
  - intros Hs Hne.
    destruct (runForwardPropagation_full (app_network st))
      as (r & Er & Hlen & _).
    assert (Hpos : 0 < List.length (layers (app_network st))).
    { destruct (layers (app_network st)); [congruence | simpl; lia]. }
    destruct (nth_error (layers r) (List.length (layers r) - 1)) as [out|] eqn:Eo.
    2:{ apply nth_error_None in Eo. lia. }
    exists r, out. split; [exact Er|]. split; [exact Eo|].
    unfold simulate, handleRunSimulation. rewrite Hs.
    unfold animateLayer at 1. cbn [currentLayer layerCount anim_network].
    assert (Hlt : (0 <? List.length (layers (app_network st))) = true)
      by (apply Nat.ltb_lt; exact Hpos).
    rewrite Hlt.
    cbn [app_network app_selectedElement app_theme app_isSimulating
         app_learningRate app_loss].
    destruct (Nat.eqb_spec 0 (List.length (layers (app_network st)) - 1))
      as [E0|E0].
    + pose proof (runForwardPropagation_last (app_network st)) as El.
      rewrite <- E0 in El. rewrite El, Er, Eo.
      etransitivity;
        [apply (run_timers_from_1 (app_network st) r out edits Er Eo);
         [exact Hpos | intros _; split; reflexivity]
        | reflexivity].
    + destruct (runForwardPropagation_frame (app_network st) (Some 0))
        as (r0 & Er0 & _).
      { simpl. lia. }
      rewrite Er0.
      etransitivity;
        [apply (run_timers_from_1 (app_network st) r out edits Er Eo);
         [exact Hpos | lia]
        | reflexivity].
Qed.

Lemma simulation_runs_to_completion_witness :
  exists result outputLayer,
    runForwardPropagation seed None = Some result /\
    nth_error (layers result) (List.length (layers result) - 1)
    = Some outputLayer /\
    simulate 3 (fun _ net => net)
      (mkApp seed None dark false None (lit 0.1) None)
    = Finished (simulation_end (mkApp seed None dark false None (lit 0.1) None)
                  result outputLayer (fun net => net)).
Proof.
  apply (proj2 (proj2 (simulation_runs_to_completion
                         (mkApp seed None dark false None (lit 0.1) None)
                         (fun _ net => net)))).
  - reflexivity.
  - discriminate.
Defined.

(** ** The two losses *)

Lemma loss_step_all_targets {num} {NUM : Number num} (ns : list (Neuron num)) :
  (forall n, In n ns -> target n <> None) ->
  forall (a : num) (c : nat),
    fold_left loss_step ns (a, c)
    = (fold_left output_loss_step ns a, c + List.length ns).
Proof.
  induction ns as [|n ns IH]; intros H a c; simpl.
  - rewrite Nat.add_0_r. reflexivity.
  - unfold loss_step at 2. unfold output_loss_step at 2.
    destruct (target n) as [t|] eqn:Et.
    + cbn [fst snd]. rewrite IH by (intros m Hm; apply H; right; exact Hm).
      f_equal. lia.
    + exfalso. apply (H n); [left; reflexivity | exact Et].
Qed.

(** X13: the loss that the Forward Pass animation displays is the loss
    that a training step reports, provided the output layer is not empty
    and each of its neurons has a target: both are the mean squared error
    of the output layer after the full forward pass. *)
Theorem simulation_loss_is_training_loss {num} {NUM : Number num}
  (network : NeuralNetwork num) (learningRate : num) (out0 : Layer num) :
  nth_error (layers network) (List.length (layers network) - 1) = Some out0 ->
  all_targets out0 -> neurons out0 <> [] ->
  exists result outputLayer updated finalLoss,
    runForwardPropagation network None = Some result /\
    nth_error (layers result) (List.length (layers result) - 1)
    = Some outputLayer /\
    runTrainingStep network learningRate = Some (updated, finalLoss) /\
    simulation_loss outputLayer = Some finalLoss.
Proof.
  intros Hout0 Htargets Hne.
  destruct (runForwardPropagation_frame network None (le_n _))
    as (r & Er & _ & _ & Hlen & Hl).
  destruct (Hl _ _ Hout0) as (out & Eout & _ & Hns & _).
  rewrite <- Hlen in Eout.
  destruct (runTrainingStep_loss network r learningRate out Er Eout) as (u & Eu).
  exists r, out, u. eexists. split; [exact Er|]. split; [exact Eout|].
  split; [exact Eu|].
  assert (Ht : forall n, In n (neurons out) -> target n <> None).
  { clear -Hns Htargets. unfold all_targets in Htargets.
    induction Hns as [|n n' ns ns' Hn _ IH]; intros m Hm; [contradiction|].
    destruct Hm as [<-|Hm].
    - rewrite Hn. simpl. apply Htargets. left. reflexivity.
    - apply IH; [|exact Hm]. intros q Hq. apply Htargets. right. exact Hq. }
  unfold simulation_loss. rewrite (loss_step_all_targets _ Ht). cbn [fst snd].
  assert (Hpos : 0 < List.length (neurons out)).
  { apply Forall2_length in Hns. destruct (neurons out0); [congruence|].
    simpl in Hns. lia. }
  simpl Nat.add.
  destruct (Nat.ltb_spec 0 (List.length (neurons out))); [reflexivity | lia].
Qed.

Lemma simulation_loss_is_training_loss_witness :
  exists result outputLayer updated finalLoss,
    runForwardPropagation seed None = Some result /\
    nth_error (layers result) (List.length (layers result) - 1)
    = Some outputLayer /\
    runTrainingStep seed (lit 0.1) = Some (updated, finalLoss) /\
    simulation_loss outputLayer = Some finalLoss.
Proof.
  eapply (simulation_loss_is_training_loss seed (lit 0.1)).
  - reflexivity.
  - intros n Hn. cbn [neurons] in Hn. destruct Hn as [<-|[]]. discriminate.
  - discriminate.
Defined.

(** * The view: panning and zooming *)

Section PanZoomReal.

Local Open Scope R_scope.


Lemma Object_is_refl (a : R) : Object_is a a = true.
Proof. simpl. destruct (Req_dec_T a a); [reflexivity | congruence]. Qed.


End PanZoomReal.



Section ZoomReal.

Local Open Scope R_scope.

Lemma Q2R_5 : Q2R 5 = 5.
Proof. unfold Q2R. simpl. lra. Qed.

Lemma setViewBox_scale (vb : ViewBox R) (h : PanZoom R) :
  viewBox (setViewBox vb h) = vb /\
  vb_scale (zoom_viewBox (setViewBox vb h)) = vb_scale vb.
Proof.
  split; [reflexivity|]. unfold setViewBox. cbn [zoom_viewBox].
  simpl Object_is. destruct (Req_dec_T _ _) as [E|E]; [symmetry; exact E | reflexivity].
Qed.

Lemma zoom_scale (rect : DOMRect R) (delta x y : R) (h : PanZoom R) :
  0.1 <= vb_scale (viewBox (zoom (Some rect) delta x y h)) <= 5.
Proof.
  unfold zoom. cbv zeta. rewrite (proj1 (setViewBox_scale _ h)).
  cbn [vb_scale]. simpl Math_min. simpl Math_max.
  rewrite Q2R_5. split.
  - apply Rmin_glb; [apply Rmax_l | lra].
  - apply Rmin_r.
Qed.

Lemma panzoom_step_invariant (c : PanZoomCall R) (h : PanZoom R) :
  0.1 <= vb_scale (viewBox h) <= 5 /\
  vb_scale (zoom_viewBox h) = vb_scale (viewBox h) ->
  0.1 <= vb_scale (viewBox (panzoom_step c h)) <= 5 /\
  vb_scale (zoom_viewBox (panzoom_step c h)) = vb_scale (viewBox (panzoom_step c h)).
Proof.
  intros (Hs & Hz). destruct c as [x y|x y| |rect d x y]; cbn [panzoom_step].
  - split; assumption.
  - unfold pan_move. destruct (isPanning h); cbn [negb]; [|split; assumption].
    cbv zeta. rewrite (proj1 (setViewBox_scale _ _)), (proj2 (setViewBox_scale _ _)).
    cbn [vb_scale]. split; [exact Hs | reflexivity].
  - split; assumption.
  - destruct rect as [rect|]; [|split; assumption].
    split; [apply zoom_scale|].
    unfold zoom. cbv zeta.
    rewrite (proj1 (setViewBox_scale _ _)), (proj2 (setViewBox_scale _ _)).
    reflexivity.
Qed.

End ZoomReal.

(** X15: the zoom limits.  From the first render on, whatever the sequence
    of [pan.start], [pan.move], [pan.end] and [zoom] calls, the scale of
    the view stays between 0.1 and 5, and the scale that the memoised
    [zoom] callback sees is the current one. *)
Theorem zoom_scale_stays_within_limits (calls : list (PanZoomCall R)) :
  let h := panzoom_run calls usePanAndZoom_init in
  (0.1 <= vb_scale (viewBox h) <= 5)%R /\
  vb_scale (zoom_viewBox h) = vb_scale (viewBox h).
Proof.
  cbv zeta. unfold panzoom_run.
  assert (H0 : (0.1 <= vb_scale (viewBox (@usePanAndZoom_init R _)) <= 5)%R /\
               vb_scale (zoom_viewBox (@usePanAndZoom_init R _))
               = vb_scale (viewBox (@usePanAndZoom_init R _))).
  { split; [|reflexivity]. cbn [usePanAndZoom_init viewBox vb_scale].
    change (lit 1) with (Q2R 1). rewrite Q2R_1. lra. }
  revert H0. generalize (@usePanAndZoom_init R _).
  induction calls as [|c calls IH]; intros h H; simpl; [exact H|].
  apply IH. apply panzoom_step_invariant. exact H.
Qed.



Section StaleZoom.

Lemma pan_moves_keep_zoom_closure (ps : list (Point R)) : forall h : PanZoom R,
  vb_scale (zoom_viewBox h) = vb_scale (viewBox h) ->
  zoom_viewBox (pan_moves ps h) = zoom_viewBox h.
Proof.
  induction ps as [|p ps IH]; intros h Hz; cbn [pan_moves]; [reflexivity|].
  assert (E : zoom_viewBox (pan_move (pt_x p) (pt_y p) h) = zoom_viewBox h).
  { unfold pan_move. destruct (isPanning h); cbn [negb]; [|reflexivity].
    cbv zeta. unfold setViewBox. cbn [zoom_viewBox vb_scale].
    rewrite Hz, Object_is_refl. reflexivity. }
  rewrite IH; [exact E|]. rewrite E.
  unfold pan_move. destruct (isPanning h); cbn [negb]; [|exact Hz].
  cbv zeta. rewrite (proj1 (setViewBox_scale _ _)). exact Hz.
Qed.

End StaleZoom.

(** X17: a wheel event discards the panning done since the scale last
    changed.  [zoom] is memoised on the scale alone, so it computes the new
    view box from the view box of the render in which the scale last
    changed: after a drag of the background (which leaves the scale alone)
    it sets the very view box it would have set without the drag. *)
Theorem zoom_discards_pan (p0 : Point R) (ps : list (Point R))
  (rect : DOMRect R) (delta clientX clientY : R) (h : PanZoom R) :
  vb_scale (zoom_viewBox h) = vb_scale (viewBox h) ->
  viewBox (zoom (Some rect) delta clientX clientY
             (pan_end (pan_moves ps (pan_start (pt_x p0) (pt_y p0) h))))
  = viewBox (zoom (Some rect) delta clientX clientY h).
Proof.
  intros Hz. unfold zoom. cbv zeta.
  rewrite !(proj1 (setViewBox_scale _ _)).
  cbn [pan_end zoom_viewBox].
  rewrite pan_moves_keep_zoom_closure by exact Hz.
  reflexivity.
Qed.

Lemma zoom_discards_pan_witness :
  viewBox (zoom (Some (mkDOMRect 0%R 0%R)) (-1)%R 0%R 0%R
             (pan_end (pan_moves [mkPoint 30%R 40%R]
                         (pan_start 10%R 10%R usePanAndZoom_init))))
  = viewBox (zoom (Some (mkDOMRect 0%R 0%R)) (-1)%R 0%R 0%R usePanAndZoom_init).
Proof.
  apply (zoom_discards_pan (mkPoint 10%R 10%R) [mkPoint 30%R 40%R]
           (mkDOMRect 0%R 0%R) (-1)%R 0%R 0%R usePanAndZoom_init).
  reflexivity.
Defined.

(** * The canvas gestures *)

Section CanvasGestures.

Context {num : Type} {NUM : Number num} {VNUM : ViewNumber num}.

Lemma truthy_id_nonempty (s : option string) (i : string) :
  truthy_id s = Some i -> s = Some i /\ i <> EmptyString.
Proof.
  destruct s as [[|a r]|]; simpl; intros H; inversion H. split; [reflexivity|].
  discriminate.
Qed.

Lemma canvas_step_invariant (ev : CanvasEvent num) (c : CanvasState num) :
  one_gesture c ->
  one_gesture (fst (canvas_step ev c)) /\
  Forall proper_call (snd (canvas_step ev c)).
Proof.
  unfold one_gesture. intros Hc.
  assert (Hkeep : forall s, truthy_id (stickyDraggingNeuron c) = Some s ->
                            truthy_id (connectionStart c) = None).
  { intros s Hs. destruct Hc as [Hc|Hc]; [congruence | exact Hc]. }
  destruct ev as [e|ctm e| | |rect d x y|i e|i|i]; cbn [canvas_step].
  - unfold handleMouseDown.
    destruct (truthy_id (stickyDraggingNeuron c)) eqn:Es.
    + split; [left; reflexivity | constructor].
    + destruct (target_is_svg e); cbn [fst snd].
      * split; [right; reflexivity | repeat constructor].
      * split; [left; exact Es | constructor].
  - unfold handleMouseMove. destruct ctm as [CTM|]; [|split; [exact Hc|constructor]].
    cbv zeta. destruct (truthy_id (stickyDraggingNeuron c)) as [s|] eqn:Es;
      cbn [fst snd stickyDraggingNeuron connectionStart].
    + split; [right; exact (Hkeep s eq_refl) | repeat constructor].
    + split; [left; exact Es | constructor].
  - split; [exact Hc | constructor].
  - split; [exact Hc | constructor].
  - split; [exact Hc | constructor].
  - unfold handleNeuronMouseDown.
    destruct (truthy_id (stickyDraggingNeuron c)) as [s|] eqn:Es.
    + cbn [fst snd]. split; [left; reflexivity|].
      destruct (negb (s =? i)%string); repeat constructor.
    + destruct (ctrlKey e || metaKey e); cbn [fst snd].
      * split; [left; exact Es | constructor].
      * split; [left; exact Es | repeat constructor].
  - unfold handleNeuronMouseUp. cbn [fst snd]. split; [right; reflexivity|].
    destruct (truthy_id (connectionStart c)) as [s|] eqn:Es; [|constructor].
    destruct (s =? i)%string eqn:Ei; cbn [negb]; [constructor|].
    constructor; [|constructor]. split.
    + apply String.eqb_neq. exact Ei.
    + apply truthy_id_nonempty in Es. apply Es.
  - unfold handleNeuronDoubleClick.
    destruct (truthy_id (stickyDraggingNeuron c)) as [s|] eqn:Es; cbn [fst snd].
    + split; [right; exact (Hkeep s eq_refl) | constructor].
    + split; [right; reflexivity | repeat constructor].
Qed.

Lemma canvas_run_invariant (evs : list (CanvasEvent num)) :
  forall c : CanvasState num,
  one_gesture c ->
  one_gesture (fst (canvas_run evs c)) /\ Forall proper_call (snd (canvas_run evs c)).
Proof.
  induction evs as [|ev evs IH]; intros c Hc; cbn [canvas_run].
  - split; [exact Hc | constructor].
  - destruct (canvas_step_invariant ev c Hc) as (H1 & F1).
    destruct (canvas_step ev c) as [c1 calls1]. cbn [fst snd] in *.
    destruct (IH c1 H1) as (H2 & F2).
    destruct (canvas_run evs c1) as [c2 calls2]. cbn [fst snd] in *.
    split; [exact H2|]. apply Forall_app. split; assumption.
Qed.

(** Mouse moves while a connection is being drawn: no call is made and
    the start of the connection is kept. *)
Lemma canvas_moves_keep_connectionStart
  (moves : list (option (DOMMatrix num) * MouseEvent num)) :
  forall c : CanvasState num,
  truthy_id (stickyDraggingNeuron c) = None ->
  let r := canvas_run (map (fun m => MouseMove (fst m) (snd m)) moves) c in
  snd r = [] /\ connectionStart (fst r) = connectionStart c /\
  stickyDraggingNeuron (fst r) = stickyDraggingNeuron c.
Proof.
  induction moves as [|[ctm e] moves IH]; intros c Hs; cbv zeta; cbn [map canvas_run].
  - auto.
  - cbn [fst snd canvas_step]. unfold handleMouseMove.
    destruct ctm as [CTM|].
    + cbv zeta. rewrite Hs.
      specialize (IH (mkCanvas (stickyDraggingNeuron c) (connectionStart c)
                               (mkPoint (clientX e) (clientY e))
                               (pan_move (clientX e) (clientY e) (panZoom c))) Hs).
      cbv zeta in IH. destruct (canvas_run _ _) as [c2 calls2].
      cbn [fst snd] in *. destruct IH as (-> & E1 & E2). auto.
    + specialize (IH c Hs). cbv zeta in IH.
      destruct (canvas_run _ _) as [c2 calls2].
      cbn [fst snd] in *. destruct IH as (-> & E1 & E2). auto.
Qed.

Lemma canvas_run_app (l1 : list (CanvasEvent num)) :
  forall (l2 : list (CanvasEvent num)) (s : CanvasState num),
  canvas_run (l1 ++ l2) s
  = let (s1, k1) := canvas_run l1 s in
    let (s2, k2) := canvas_run l2 s1 in
    (s2, (k1 ++ k2)%list).
Proof.
  induction l1 as [|ev l1 IH]; intros l2 s; cbn [canvas_run app].
  - destruct (canvas_run l2 s); reflexivity.
  - destruct (canvas_step ev s) as [s1 k1]. rewrite IH.
    destruct (canvas_run l1 s1) as [s2 k2].
    destruct (canvas_run l2 s2) as [s3 k3].
    rewrite app_assoc. reflexivity.
Qed.

End CanvasGestures.

(** X18: the gestures of the canvas exclude one another.  From the first
    render on, whatever the sequence of mouse and wheel events on the
    background and on the neurons, there is never at the same time a
    neuron stuck to the mouse and a connection being drawn; and every
    [createConnection] request names a non-empty start id and a different
    end id. *)
Theorem canvas_gestures_exclusive {num} {NUM : Number num} {VNUM : ViewNumber num}
  (evs : list (CanvasEvent num)) :
  one_gesture (fst (canvas_run evs Canvas_init)) /\
  Forall proper_call (snd (canvas_run evs Canvas_init)).
Proof.
  apply canvas_run_invariant. left. reflexivity.
Qed.

(** X19: the connect gesture.  With no neuron stuck to the mouse, pressing
    the button on neuron [a] with Ctrl or Cmd held, moving the mouse, and
    releasing the button on another neuron [b] makes exactly one call,
    [createConnection(a, b)], and ends the gesture; released on [a]
    itself, it makes no call. *)
Theorem connect_gesture {num} {NUM : Number num} {VNUM : ViewNumber num}
  (c : CanvasState num) (a b : string) (e : MouseEvent num)
  (moves : list (option (DOMMatrix num) * MouseEvent num)) :
  truthy_id (stickyDraggingNeuron c) = None ->
  a <> EmptyString ->
  ctrlKey e || metaKey e = true ->
  let r := canvas_run (NeuronMouseDown a e
                       :: map (fun m => MouseMove (fst m) (snd m)) moves
                       ++ [NeuronMouseUp b])%list c in
  snd r = (if (a =? b)%string then [] else [call_createConnection a b]) /\
  connectionStart (fst r) = None.
Proof.
  intros Hs Ha Hctrl. cbv zeta.
  remember (canvas_run _ c) as r eqn:Er.
  cbn [canvas_run canvas_step] in Er. unfold handleNeuronMouseDown in Er.
  rewrite Hs, Hctrl in Er.
  set (c1 := mkCanvas (stickyDraggingNeuron c) (Some a) (mousePosition c) (panZoom c))
    in Er.
  rewrite canvas_run_app in Er.
  destruct (canvas_moves_keep_connectionStart moves c1 Hs) as (Ecalls & Estart & _).
  destruct (canvas_run (map _ moves) c1) as [c2 k2].
  cbn [fst snd] in Ecalls, Estart. subst k2.
  cbn [canvas_run canvas_step] in Er. unfold handleNeuronMouseUp in Er.
  cbn [fst snd app] in Er. rewrite Estart in Er. cbn [c1 connectionStart] in Er.
  destruct a as [|ch a']; [congruence|]. cbn [truthy_id] in Er.
  rewrite app_nil_r in Er. subst r. cbn [fst snd connectionStart].
  split; [|reflexivity].
  destruct (String ch a' =? b)%string; reflexivity.
Qed.

Lemma connect_gesture_witness :
  snd (canvas_run [NeuronMouseDown "uuid-0" (mkMouseEvent 0%R 0%R true false false);
                   NeuronMouseUp "uuid-2"] Canvas_init)
  = [call_createConnection "uuid-0" "uuid-2"].
Proof.
  apply (connect_gesture Canvas_init "uuid-0" "uuid-2"
           (mkMouseEvent 0%R 0%R true false false) []).
  - reflexivity.
  - discriminate.
  - reflexivity.
Defined.

(** * The computed attributes of the SVG components *)

(** X20: whatever the weight and the activation, the stroke width of a
    connection is between 0.5 and 5 (6 when selected), green means a
    positive weight, the fill opacity of a neuron is between 0 and 1, and
    emerald means a non-negative activation. *)
Theorem component_attributes_in_range (isSelected : bool)
  (connection : Connection R) (neuron : Neuron R) :
  attributes_in_range isSelected connection neuron.
Proof.
  unfold attributes_in_range.
  assert (Hw : (0.5 <= strokeWidth connection <= 5)%R).
  { unfold strokeWidth. simpl Math_max. simpl Math_min. rewrite Q2R_5. split.
    - apply Rmax_l.
    - apply Rmax_lub; [lra | apply Rmin_l]. }
  split; [exact Hw|]. split; [|split; [|split]].
  - unfold line_strokeWidth. destruct isSelected; [|lra].
    change (0.5 <= strokeWidth connection + Q2R 1 <= 6)%R. rewrite Q2R_1. lra.
  - unfold strokeColor. simpl gtb. change (lit 0) with (Q2R 0). rewrite Q2R_0.
    destruct (Rlt_dec 0 (weight connection)); split; intros H;
      try reflexivity; try assumption; try discriminate. contradiction.
  - unfold activationOpacity. simpl Math_min. simpl Math_abs.
    change (lit 1) with (Q2R 1). rewrite Q2R_1. split.
    + apply Rmin_glb; [lra | apply Rabs_pos].
    + apply Rmin_l.
  - unfold activationColor. simpl ge_num. change (lit 0) with (Q2R 0).
    rewrite Q2R_0.
    destruct (Rge_dec (activation neuron) 0); split; intros H;
      try reflexivity; try discriminate; lra.
Qed.

(** * The activation functions over the real numbers *)

Section ActivationAnalysis.

Local Open Scope R_scope.

Lemma sigmoid_real (x : R) : sigmoid x = 1 / (1 + exp (- x)).
Proof.
  unfold sigmoid. change (Q2R 1 / (Q2R 1 + exp (- x)) = 1 / (1 + exp (- x))).
  rewrite Q2R_1. reflexivity.
Qed.


Lemma cosh_positive (x : R) : 0 < cosh x.
Proof.
  unfold cosh. pose proof (exp_pos x). pose proof (exp_pos (- x)). lra.
Qed.



Lemma sigmoid_derivative (x : R) :
  derivable_pt_lim sigmoid x (sigmoidDerivative (sigmoid x)).
Proof.
  apply (derivable_pt_lim_ext
           (fct_cte 1 / (fct_cte 1 + comp exp (- id)))%F).
  { intros z. rewrite sigmoid_real. reflexivity. }
  pose proof (exp_pos (- x)) as He.
  assert (Hd : derivable_pt_lim (fct_cte 1 + comp exp (- id))%F x
                 (0 + exp (- x) * - 1)).
  { apply derivable_pt_lim_plus; [apply derivable_pt_lim_const|].
    apply derivable_pt_lim_comp.
    - apply derivable_pt_lim_opp. apply derivable_pt_lim_id.
    - apply derivable_pt_lim_exp. }
  pose proof (derivable_pt_lim_div (fct_cte 1)
                (fct_cte 1 + comp exp (- id))%F x 0 _
                (derivable_pt_lim_const 1 x) Hd) as H.
  assert (Hne : (fct_cte 1 + comp exp (- id))%F x <> 0).
  { unfold plus_fct, fct_cte, comp, opp_fct, id. lra. }
  specialize (H Hne).
  replace (sigmoidDerivative (sigmoid x))
    with ((0 * (fct_cte 1 + comp exp (- id))%F x
           - (0 + exp (- x) * - 1) * fct_cte 1 x)
          / Rsqr ((fct_cte 1 + comp exp (- id))%F x)); [exact H|].
  unfold sigmoidDerivative. rewrite sigmoid_real.
  change (lit 1) with (Q2R 1). change mul with Rmult. change sub with Rminus.
  rewrite Q2R_1.
  unfold plus_fct, fct_cte, comp, opp_fct, id, Rsqr. field. lra.
Qed.

Lemma tanh_derivative (x : R) :
  derivable_pt_lim tanh x (tanhDerivative (tanh x)).
Proof.
  pose proof (cosh_positive x) as Hc.
  pose proof (derivable_pt_lim_div sinh cosh x _ _
                (derivable_pt_lim_sinh x) (derivable_pt_lim_cosh x)) as H.
  assert (Hne : cosh x <> 0) by lra. specialize (H Hne).
  apply (derivable_pt_lim_ext (sinh / cosh)%F).
  { intros z. reflexivity. }
  replace (tanhDerivative (tanh x))
    with ((cosh x * cosh x - sinh x * sinh x) / Rsqr (cosh x)); [exact H|].
  unfold tanhDerivative, tanh. change Math_tanh with Rtrigo_def.tanh.
  change (lit 1) with (Q2R 1). change mul with Rmult. change sub with Rminus.
  rewrite Q2R_1. unfold Rtrigo_def.tanh, Rsqr. field. lra.
Qed.

Lemma relu_real (x : R) : relu x = Rmax 0 x.
Proof. unfold relu. change (Rmax (Q2R 0) x = Rmax 0 x). rewrite Q2R_0. reflexivity. Qed.

Lemma relu_derivative (x : R) :
  x <> 0 -> derivable_pt_lim relu x (reluDerivative (relu x)).
Proof.
  intros Hx. destruct (Rlt_dec 0 x) as [Hpos|Hneg].
  - apply (derivable_pt_lim_locally_ext id relu x 0 (x + 1)); [lra| |].
    + intros z Hz. rewrite relu_real. unfold id.
      rewrite Rmax_right by lra. reflexivity.
    + replace (reluDerivative (relu x)) with 1; [apply derivable_pt_lim_id|].
      unfold reluDerivative. rewrite relu_real, Rmax_right by lra.
      change (1 = if (if Rlt_dec (Q2R 0) x then true else false)
                  then Q2R 1 else Q2R 0).
      rewrite Q2R_0, Q2R_1. destruct (Rlt_dec 0 x); [reflexivity | contradiction].
  - assert (Hx' : x < 0) by lra.
    apply (derivable_pt_lim_locally_ext (fct_cte 0) relu x (x - 1) 0); [lra| |].
    + intros z Hz. rewrite relu_real. unfold fct_cte.
      rewrite Rmax_left by lra. reflexivity.
    + replace (reluDerivative (relu x)) with 0; [apply derivable_pt_lim_const|].
      unfold reluDerivative. rewrite relu_real, Rmax_left by lra.
      change (0 = if (if Rlt_dec (Q2R 0) 0 then true else false)
                  then Q2R 1 else Q2R 0).
      rewrite Q2R_0. destruct (Rlt_dec 0 0); [lra | reflexivity].
Qed.

End ActivationAnalysis.

(** X21: the derivative table is right.  For each activation function,
    the entry of [activationDerivatives], applied to the output [f x], is
    the derivative of [f] at [x]: y (1 - y) for the sigmoid, 1 - y^2 for
    tanh, and for ReLU 1 where x > 0 and 0 where x < 0 (at 0, where ReLU
    has no derivative, the table gives 0). *)
Theorem activation_derivatives_correct (k : ActivationFunction) (x : R) :
  ((k = relu_k -> x <> 0%R) ->
   derivable_pt_lim (activationFunctions k) x
     (activationDerivatives k (activationFunctions k x))) /\
  activationDerivatives relu_k (activationFunctions relu_k 0%R) = 0%R.
Proof.
  split.
  - intros Hx. destruct k; cbn [activationFunctions activationDerivatives].
    + apply sigmoid_derivative.
    + apply relu_derivative. apply Hx. reflexivity.
    + apply tanh_derivative.
  - cbn [activationFunctions activationDerivatives]. unfold reluDerivative.
    rewrite relu_real, Rmax_left by lra.
    change ((if (if Rlt_dec (Q2R 0) 0 then true else false)
             then Q2R 1 else Q2R 0) = 0%R).
    rewrite Q2R_0. destruct (Rlt_dec 0 0); [lra | reflexivity].
Qed.

Lemma activation_derivatives_correct_witness :
  derivable_pt_lim (activationFunctions sigmoid_k) 0%R
    (activationDerivatives sigmoid_k (activationFunctions sigmoid_k 0%R)).
Proof.
  apply (proj1 (activation_derivatives_correct sigmoid_k 0%R)).
  discriminate.
Defined.



(** * The Graph Editor: undoing an operation, and missing targets *)

Section EditorRoundTrips.

Context {num : Type} {NUM : Number num}.

Lemma filter_none {A} (p : A -> bool) (l : list A) :
  (forall x, In x l -> p x = false) -> filter p l = [].
Proof.
  induction l as [|x l IH]; intros H; simpl; [reflexivity|].
  rewrite (H x (or_introl eq_refl)). apply IH.
  intros y Hy. apply H. right. exact Hy.
Qed.

Lemma set_neuronIndex_same (n : Neuron num) : set_neuronIndex n (neuronIndex n) = n.
Proof. destruct n; reflexivity. Qed.

Lemma mapi_from_reindex_fixed (ns : list (Neuron num)) : forall s,
  map neuronIndex ns = seq s (List.length ns) ->
  mapi_from s (fun nIndex n => set_neuronIndex n nIndex) ns = ns.
Proof.
  induction ns as [|n ns IH]; intros s H; simpl; [reflexivity|].
  simpl in H. injection H as Hn Hns. f_equal.
  - rewrite <- Hn. apply set_neuronIndex_same.
  - apply IH. exact Hns.
Qed.

(** A layer without the neuron [i] is left alone by [removeNeuron]. *)
Lemma removeNeuron_layer_absent (i : string) (l : Layer num) :
  ~ In i (map nid (neurons l)) -> removeNeuron_layer i l = l.
Proof.
  intros H. unfold removeNeuron_layer.
  destruct (existsb _ (neurons l)) eqn:E; [|reflexivity].
  exfalso. apply H. apply existsb_exists in E. destruct E as (n & Hn & En).
  apply String.eqb_eq in En. subst i. apply in_map. exact Hn.
Qed.

Lemma In_flat_ids (ls : list (Layer num)) (l : Layer num) (x : string) :
  In l ls -> In x (map nid (neurons l)) -> In x (map nid (flatMap_neurons ls)).
Proof.
  intros Hl Hx. apply in_map_iff in Hx. destruct Hx as (n & <- & Hn).
  apply in_map. unfold flatMap_neurons. apply in_flat_map. exists l. auto.
Qed.

End EditorRoundTrips.

(** X23: deleting the connection just created undoes [createConnection].
    When the id that [uuidv4()] returns next is not the id of a connection
    of the network, [createConnection] followed by [deleteConnection] of
    that id gives back the network, whether or not the request was
    accepted. *)
Theorem createConnection_then_delete {num} {NUM : Number num}
  (fromId toId : string) (prev : NeuralNetwork num) (w : World num) :
  (forall c, In c (connections prev) -> cid c <> uuid_seq w (uuid_ix w)) ->
  exists net' w',
    createConnection fromId toId prev w = Some (net', w') /\
    deleteConnection (uuid_seq w (uuid_ix w)) net' = prev.
Proof.
  intros Hfresh.
  assert (Hkeep : filter (fun c => negb (cid c =? uuid_seq w (uuid_ix w))%string)
                         (connections prev) = connections prev).
  { apply filter_all. intros c Hc. apply negb_true_iff. apply String.eqb_neq.
    apply Hfresh. exact Hc. }
  assert (Hsame : deleteConnection (uuid_seq w (uuid_ix w)) prev = prev).
  { unfold deleteConnection. rewrite Hkeep. apply network_eta. }
  unfold createConnection.
  destruct (find_neuron fromId _) as [a|]; [|exists prev, w; auto].
  destruct (find_neuron toId _) as [b|]; [|exists prev, w; auto].
  destruct (layerIndex b <=? layerIndex a); [exists prev, w; auto|].
  destruct (find _ (connections prev)); [exists prev, w; auto|].
  eexists. eexists. split; [reflexivity|].
  unfold deleteConnection. cbn [connections layers activationFunction].
  rewrite filter_app, Hkeep. cbn [filter cid].
  rewrite String.eqb_refl. cbn [negb]. rewrite app_nil_r. apply network_eta.
Qed.

Lemma createConnection_then_delete_witness :
  exists net' w',
    createConnection "uuid-0" "uuid-4" seed demo_world = Some (net', w') /\
    deleteConnection (uuid_seq demo_world (uuid_ix demo_world)) net' = seed.
Proof.
  apply (createConnection_then_delete "uuid-0" "uuid-4" seed demo_world).
  intros c Hc. cbv [seed getInitialNetwork connections] in Hc.
  repeat (destruct Hc as [<-|Hc]; [vm_compute; discriminate|]). contradiction.
Defined.

(** X24: removing the neuron just added undoes [addNeuronToLayer].  On a
    well-formed network, with a collision-free id generator and a layer
    index within the layers, [addNeuronToLayer] followed by [removeNeuron]
    of the new neuron's id gives back the network: the layers, the indices
    and every connection, with its weight. *)
Theorem addNeuron_then_remove {num} {NUM : Number num}
  (k : nat) (prev : NeuralNetwork num) (w : World num) :
  well_formed prev -> fresh_uuids w prev -> k < List.length (layers prev) ->
  exists net' w',
    addNeuronToLayer k prev w = Some (net', w') /\
    removeNeuron (uuid_seq w (uuid_ix w)) net' = prev.
Proof.
  intros Hwf (Hfresh & _) Hk.
  pose proof (Hfresh (uuid_ix w) (le_n _)) as Hu.
  set (u := uuid_seq w (uuid_ix w)) in *.
  destruct (nth_error (layers prev) k) as [layer|] eqn:El.
  2:{ apply nth_error_None in El. lia. }
  destruct (nth_error_split _ _ El) as (P & Q & Els & HP).
  destruct (addNeuronToLayer_eval k prev w P Q layer Els HP)
    as (new & cs1 & cs2 & w' & Eadd & Hnid & _ & _ & H1 & H2 & _).
  fold u in Hnid.
  exists (mkNetwork (P ++ set_neurons layer (neurons layer ++ [new]) :: Q)
                    (connections prev ++ cs1 ++ cs2)%list
                    (activationFunction prev)), w'.
  split; [exact Eadd|].
  assert (Hin : forall l, In l (layers prev) -> ~ In u (map nid (neurons l))).
  { intros l Hl Hx. apply Hu. eapply In_flat_ids; eauto. }
  assert (HinL : In layer (layers prev)) by (eapply nth_error_In; exact El).
  transitivity (mkNetwork (layers prev) (connections prev) (activationFunction prev));
    [|apply network_eta].
  unfold removeNeuron. cbn [layers connections activationFunction]. f_equal.
  - rewrite Els, map_app. cbn [map]. f_equal; [|f_equal].
    + rewrite <- (map_id P) at 2. apply map_ext_in. intros l Hl.
      apply removeNeuron_layer_absent. apply Hin. rewrite Els.
      apply in_or_app. left. exact Hl.
    + unfold removeNeuron_layer. cbn [neurons set_neurons].
      rewrite existsb_app. cbn [existsb]. rewrite Hnid, String.eqb_refl.
      rewrite orb_true_r. cbn [orb negb].
      assert (Hlen : List.length (neurons layer) <> 0).
      { intros E0. apply length_zero_iff_nil in E0.
        destruct Hwf as [[_ Hne _ _ _] _ _]. exact (Hne layer HinL E0). }
      rewrite length_app. cbn [List.length].
      destruct (Nat.eqb_spec (List.length (neurons layer) + 1) 1) as [E1|_]; [lia|].
      rewrite filter_app. cbn [filter]. rewrite Hnid, String.eqb_refl.
      cbn [negb]. rewrite app_nil_r.
      rewrite filter_all.
      2:{ intros n Hn. apply negb_true_iff. apply String.eqb_neq.
          intros E. apply (Hin layer HinL). rewrite <- E. apply in_map. exact Hn. }
      unfold mapi. rewrite mapi_from_reindex_fixed.
      * unfold set_neurons. cbn [lid]. apply layer_eta.
      * destruct Hwf as [[_ _ _ Hni _] _ _]. exact (Hni layer HinL).
    + rewrite <- (map_id Q) at 2. apply map_ext_in. intros l Hl.
      apply removeNeuron_layer_absent. apply Hin. rewrite Els.
      apply in_or_app. right. right. exact Hl.
  - rewrite !filter_app.
    rewrite (filter_none _ cs1), (filter_none _ cs2).
    + rewrite !app_nil_r. apply filter_all. intros c Hc.
      destruct (well_formed_endpoints prev (endpoints c) Hwf
                  (in_map endpoints _ _ Hc)) as (Hf & Ht).
      rewrite <- shape_concat in Hf, Ht. cbn [endpoints fst snd] in Hf, Ht.
      apply andb_true_iff. split; apply negb_true_iff; apply String.eqb_neq;
        intros E; apply Hu; rewrite <- E; assumption.
    + intros c Hc. destruct (H2 _ (in_map endpoints _ _ Hc)) as (_ & _ & Ef & _).
      cbn [endpoints fst] in Ef. rewrite Ef, Hnid, String.eqb_refl. reflexivity.
    + intros c Hc. destruct (H1 _ (in_map endpoints _ _ Hc)) as (_ & _ & _ & _ & Et).
      cbn [endpoints snd] in Et. rewrite Et, Hnid, String.eqb_refl.
      apply andb_false_r.
Qed.

Lemma addNeuron_then_remove_witness :
  exists net' w',
    addNeuronToLayer 1 seed demo_world = Some (net', w') /\
    removeNeuron (uuid_seq demo_world (uuid_ix demo_world)) net' = seed.
Proof.
  apply (addNeuron_then_remove 1 seed demo_world).
  - exact seed_well_formed.
  - exact demo_world_fresh.
  - simpl. lia.
Defined.

(** X25: an operation whose target is missing changes nothing.  On a
    well-formed network, [addNeuronToLayer] with a layer index past the
    layers returns the network and draws no id; [removeNeuron] with an id
    that names no neuron and [deleteConnection] with an id that names no
    connection return the network. *)
Theorem missing_target_is_noop {num} {NUM : Number num}
  (prev : NeuralNetwork num) (w : World num) (k : nat) (i : string) :
  well_formed prev ->
  (List.length (layers prev) <= k -> addNeuronToLayer k prev w = Some (prev, w)) /\
  (~ In i (map nid (flatMap_neurons (layers prev))) -> removeNeuron i prev = prev) /\
  (~ In i (map cid (connections prev)) -> deleteConnection i prev = prev).
Proof.
  intros Hwf. split; [|split].
  - intros Hk. unfold addNeuronToLayer.
    assert (E : nth_error (layers prev) k = None) by (apply nth_error_None; exact Hk).
    rewrite E. reflexivity.
  - intros Hi.
    transitivity (mkNetwork (layers prev) (connections prev) (activationFunction prev));
      [|apply network_eta].
    unfold removeNeuron. f_equal.
    + rewrite <- (map_id (layers prev)) at 2. apply map_ext_in. intros l Hl.
      apply removeNeuron_layer_absent. intros Hx. apply Hi.
      eapply In_flat_ids; eauto.
    + apply filter_all. intros c Hc.
      destruct (well_formed_endpoints prev (endpoints c) Hwf
                  (in_map endpoints _ _ Hc)) as (Hf & Ht).
      rewrite <- shape_concat in Hf, Ht. cbn [endpoints fst snd] in Hf, Ht.
      apply andb_true_iff. split; apply negb_true_iff; apply String.eqb_neq;
        intros E; apply Hi; rewrite <- E; assumption.
  - intros Hi.
    transitivity (mkNetwork (layers prev) (connections prev) (activationFunction prev));
      [|apply network_eta].
    unfold deleteConnection. f_equal. apply filter_all. intros c Hc.
    apply negb_true_iff. apply String.eqb_neq. intros E. apply Hi.
    rewrite <- E. apply in_map. exact Hc.
Qed.

Lemma missing_target_is_noop_witness :
  addNeuronToLayer 3 seed demo_world = Some (seed, demo_world).
Proof.
  apply (proj1 (missing_target_is_noop seed demo_world 3 "uuid-99" seed_well_formed)).
  simpl. lia.
Defined.

(** * Editing sessions: the invariants hold after any sequence of operations *)

Section Worlds.

Context {num : Type} {NUM : Number num}.

Lemma consumes_ret {A} (a : A) : consumes_ids (ret (num:=num) a).
Proof. intros w a' w' H. inversion H. auto. Qed.

Lemma consumes_throw {A} : consumes_ids (throw (num:=num) (A:=A)).
Proof. intros w a w' H. discriminate. Qed.

Lemma consumes_bind {A B} (m : M num A) (f : A -> M num B) :
  consumes_ids m -> (forall a, consumes_ids (f a)) -> consumes_ids (bind m f).
Proof.
  intros Hm Hf w b w' H. unfold bind in H.
  destruct (m w) as [[a w1]|] eqn:E; [|discriminate].
  destruct (Hm _ _ _ E) as (E1 & L1). destruct (Hf a _ _ _ H) as (E2 & L2).
  split; [congruence | lia].
Qed.

Lemma consumes_fully_connect (froms tos : list (Neuron num)) :
  consumes_ids (fully_connect froms tos).
Proof.
  intros w cs w' H. unfold fully_connect in H.
  destruct (mapM_fresh_connection (list_prod froms tos) w)
    as (cs0 & w0 & E & _ & Es & Ei).
  rewrite E in H. inversion H; subst. split; [exact Es | lia].
Qed.

Lemma consumes_createConnection (f t : string) (prev : NeuralNetwork num) :
  consumes_ids (createConnection f t prev).
Proof.
  unfold createConnection.
  destruct (find_neuron f _) as [a|]; [|apply consumes_ret].
  destruct (find_neuron t _) as [b|]; [|apply consumes_ret].
  destruct (layerIndex b <=? layerIndex a); [apply consumes_ret|].
  destruct (find _ (connections prev)); [apply consumes_ret|].
  intros w net w' H. inversion H. simpl. auto.
Qed.

Lemma consumes_removeLayer (prev : NeuralNetwork num) :
  consumes_ids (removeLayer prev).
Proof.
  unfold removeLayer.
  destruct (List.length (layers prev) <=? 2); [apply consumes_ret|].
  destruct (nth_error _ _); [|apply consumes_throw].
  destruct (nth_error _ _); [|apply consumes_throw].
  destruct (nth_error _ _); [|apply consumes_throw].
  apply consumes_bind; [apply consumes_fully_connect|].
  intros cs. apply consumes_ret.
Qed.

Lemma consumes_connect_if (c : bool) (o : option (Layer num))
  (F : Layer num -> M num (list (Connection num))) :
  (forall l, consumes_ids (F l)) ->
  consumes_ids (if c then match o with Some l => F l | None => throw end
                else ret []).
Proof.
  intros HF. destruct c; [|apply consumes_ret].
  destruct o; [apply HF | apply consumes_throw].
Qed.

(** The tail of [addNeuronToLayer], after the id of the neuron is drawn. *)
Lemma addNeuronToLayer_world (k : nat) (prev net' : NeuralNetwork num)
  (w w' : World num) :
  k < List.length (layers prev) ->
  addNeuronToLayer k prev w = Some (net', w') ->
  uuid_seq w' = uuid_seq w /\ S (uuid_ix w) <= uuid_ix w'.
Proof.
  intros Hk H. unfold addNeuronToLayer in H.
  destruct (nth_error (layers prev) k) as [layer|] eqn:El.
  2:{ apply nth_error_None in El. lia. }
  unfold bind at 1 in H. unfold uuidv4 at 1 in H.
  match type of H with
  | ?m ?w1 = _ => assert (Hc : consumes_ids m)
  end.
  { apply consumes_bind.
    - apply consumes_connect_if. intros l. apply consumes_fully_connect.
    - intros cs1. apply consumes_bind; [|intros cs2; apply consumes_ret].
      apply consumes_connect_if. intros l. apply consumes_fully_connect. }
  destruct (Hc _ _ _ H) as (Es & Ei). cbn [uuid_seq uuid_ix] in Es, Ei.
  split; [exact Es | exact Ei].
Qed.

(** [addLayer] below the cap: the id of the layer, and how many ids are
    consumed at least. *)
Lemma addLayer_world (prev net' : NeuralNetwork num) (w w' : World num)
  (pre : list (Layer num)) (a b : Layer num) :
  layers prev = (pre ++ [a; b])%list ->
  List.length (layers prev) < 10 ->
  addLayer prev w = Some (net', w') ->
  uuid_seq w' = uuid_seq w /\
  S (uuid_ix w) + List.length (neurons a) <= uuid_ix w' /\
  map lid (layers net')
  = (map lid (pre ++ [a])
     ++ [("layer-" ++ uuid_seq w (uuid_ix w))%string; lid b])%list.
Proof.
  intros Hls Hlen H. unfold addLayer in H.
  assert (E10 : (10 <=? List.length (layers prev)) = false) by (apply Nat.leb_gt; lia).
  rewrite E10, Hls in H.
  destruct (js_nth_snoc2 pre a b) as (Ea & Eb & Ei).
  unfold bind at 1 in H. unfold bind at 1 in H. unfold uuidv4 at 1 in H.
  unfold ret at 1 in H. cbv beta iota in H. rewrite Ea, Eb, Ei in H.
  unfold bind at 1 in H. rewrite mapM_uuid in H.
  cbn [uuid_seq uuid_ix rand_seq rand_ix] in H.
  unfold bind at 1 in H.
  destruct (fully_connect _ _ _) as [[cs1 w2]|] eqn:E1; [|discriminate].
  unfold bind at 1 in H.
  destruct (fully_connect _ _ w2) as [[cs2 w3]|] eqn:E2; [|discriminate].
  unfold ret in H.
  replace (firstn (S (List.length pre)) (pre ++ [a; b]))
    with (pre ++ [a])%list in H.
  2:{ symmetry. apply firstn_snoc. }
  injection H as Hn Hw. subst net' w'.
  destruct (consumes_fully_connect _ _ _ _ _ E1) as (S1 & I1).
  destruct (consumes_fully_connect _ _ _ _ _ E2) as (S2 & I2).
  cbn [uuid_seq uuid_ix] in S1, I1. rewrite length_seq in I1.
  split; [congruence|]. split; [lia|].
  cbn [layers]. unfold reindex_layers, mapi.
  rewrite map_mapi_from. cbn [lid set_neurons].
  rewrite (mapi_from_const lid _ 0).
  rewrite !map_app. reflexivity.
Qed.

Lemma layer_prefix_injective (x y : string) :
  ("layer-" ++ x)%string = ("layer-" ++ y)%string -> x = y.
Proof. simpl. intros H. inversion H. reflexivity. Qed.

(** The generator stays collision-free when the network only gained ids
    that the computation drew from it. *)
Lemma generator_ok_step (w w' : World num) (prev net' : NeuralNetwork num) :
  generator_ok w prev ->
  uuid_seq w' = uuid_seq w -> uuid_ix w <= uuid_ix w' ->
  (forall y, In y (map nid (flatMap_neurons (layers net'))) ->
     In y (map nid (flatMap_neurons (layers prev))) \/
     exists j, uuid_ix w <= j < uuid_ix w' /\ y = uuid_seq w j) ->
  (forall y, In y (map lid (layers net')) ->
     In y (map lid (layers prev)) \/
     exists j, uuid_ix w <= j < uuid_ix w' /\ y = ("layer-" ++ uuid_seq w j)%string) ->
  generator_ok w' net'.
Proof.
  intros ((Hfr & Hinj) & Hlf) Es Ei Hids Hlids.
  split; [split|].
  - intros k Hk Hin. rewrite Es in Hin.
    destruct (Hids _ Hin) as [Hold|(j & Hj & Ej)].
    + apply (Hfr k); [lia | exact Hold].
    + apply Hinj in Ej; lia.
  - intros k k' Hk Hk' E. rewrite Es in E. apply Hinj; [lia | lia | exact E].
  - intros k Hk Hin. rewrite Es in Hin.
    destruct (Hlids _ Hin) as [Hold|(j & Hj & Ej)].
    + apply (Hlf k); [lia | exact Hold].
    + apply layer_prefix_injective in Ej. apply Hinj in Ej; lia.
Qed.

Lemma generator_ok_same_ids (w : World num) (prev net' : NeuralNetwork num) :
  generator_ok w prev ->
  (forall y, In y (map nid (flatMap_neurons (layers net'))) ->
     In y (map nid (flatMap_neurons (layers prev)))) ->
  (forall y, In y (map lid (layers net')) -> In y (map lid (layers prev))) ->
  forall w', uuid_seq w' = uuid_seq w -> uuid_ix w <= uuid_ix w' ->
  generator_ok w' net'.
Proof.
  intros Hg Hids Hlids w' Es Ei.
  apply (generator_ok_step w w' prev net' Hg Es Ei); intros y Hy; left; auto.
Qed.

End Worlds.

Section EditingSessions.

Context {num : Type} {NUM : Number num}.

Lemma relayer_lids (g : nat -> Neuron num -> Neuron num) (ls : list (Layer num)) :
  map lid (relayer g ls) = map lid ls.
Proof.
  unfold relayer, mapi. rewrite map_mapi_from. cbn [lid set_neurons].
  apply (mapi_from_const lid ls 0).
Qed.

Lemma well_formed_count (prev : NeuralNetwork num) :
  well_formed prev -> 2 <= List.length (layers prev) <= 10.
Proof. intros H. apply H. Qed.

Lemma addLayer_well_formed (prev : NeuralNetwork num) (w : World num) :
  well_formed prev -> generator_ok w prev ->
  exists net' w',
    addLayer prev w = Some (net', w') /\ well_formed net' /\ generator_ok w' net'.
Proof.
  intros Hwf Hg.
  destruct (addLayer_invariants prev w Hwf (proj1 Hg)) as (net' & w' & E & Hinv).
  exists net', w'. split; [exact E|].
  destruct (le_lt_dec 10 (List.length (layers prev))) as [Hcap|Hlt].
  { unfold addLayer in E.
    replace (10 <=? List.length (layers prev)) with true in E
      by (symmetry; apply Nat.leb_le; exact Hcap).
    injection E as <- <-. split; assumption. }
  pose proof (well_formed_count prev Hwf) as Hcount.
  destruct (snoc2_of_length (layers prev) ltac:(lia)) as (pre & a & b & Hls).
  destruct (addLayer_eval prev w pre a b Hls Hlt)
    as (newId & newNeurons & cs1 & cs2 & w2 & E2 & HNid & _).
  rewrite E in E2. injection E2 as En Ew.
  destruct (addLayer_world prev net' w w' pre a b Hls Hlt E) as (Es & Ei & Elids).
  destruct (well_formed_edges prev Hwf) as (Hnd & _).
  pose proof Hg as ((Hfr & Hinj) & Hlf).
  assert (Hsh0 : shape (layers prev)
                 = (shape pre ++ [map nid (neurons a); map nid (neurons b)])%list).
  { rewrite Hls, shape_app. reflexivity. }
  assert (Hsh : shape (layers net')
                = (shape pre ++ [map nid (neurons a); map nid newNeurons;
                                 map nid (neurons b)])%list).
  { rewrite En. cbn [layers]. set (X := (_ ++ _)%list).
    change (reindex_layers X) with (relayer (fun i n => set_layerIndex n i) X).
    rewrite relayer_shape by reflexivity. unfold X.
    rewrite !shape_app, <- app_assoc. simpl. rewrite map_map. reflexivity. }
  assert (HNfresh : forall y, In y (map nid newNeurons) ->
                      exists j, S (uuid_ix w) <= j < uuid_ix w' /\ y = uuid_seq w j).
  { intros y Hy. rewrite HNid in Hy. apply in_map_iff in Hy.
    destruct Hy as (j & <- & Hj). apply in_seq in Hj. exists j. split; [lia|reflexivity]. }
  assert (Hlids0 : map lid (layers prev) = (map lid (pre ++ [a]) ++ [lid b])%list).
  { rewrite Hls, !map_app, <- app_assoc. reflexivity. }
  split.
  - constructor; [exact Hinv| |].
    + rewrite shape_concat, Hsh. rewrite Hsh0 in Hnd.
      rewrite concat_app in *. simpl in *. rewrite app_nil_r in *.
      rewrite app_assoc in *. apply NoDup_insert_middle.
      * exact Hnd.
      * rewrite HNid. apply NoDup_map_seq. intros k k' Hk Hk'. apply Hinj; lia.
      * intros y Hy Hold. destruct (HNfresh y Hy) as (j & Hj & ->).
        apply (Hfr j); [lia|]. rewrite shape_concat, Hsh0, concat_app. simpl.
        rewrite app_nil_r, app_assoc. exact Hold.
    + rewrite Elids.
      apply (NoDup_insert_middle (map lid (pre ++ [a])) [lid b]
               [("layer-" ++ uuid_seq w (uuid_ix w))%string]).
      * rewrite <- Hlids0. apply Hwf.
      * repeat constructor. intros [].
      * intros y [<-|[]]. rewrite <- Hlids0. apply Hlf. lia.
  - apply (generator_ok_step w w' prev net' Hg Es); [lia| |].
    + intros y Hy. rewrite shape_concat, Hsh, concat_app in Hy. simpl in Hy.
      rewrite app_nil_r in Hy.
      rewrite shape_concat, Hsh0, concat_app. simpl. rewrite app_nil_r.
      apply in_app_or in Hy. destruct Hy as [Hy|Hy];
        [left; apply in_or_app; left; exact Hy|].
      apply in_app_or in Hy. destruct Hy as [Hy|Hy];
        [left; apply in_or_app; right; apply in_or_app; left; exact Hy|].
      apply in_app_or in Hy. destruct Hy as [Hy|Hy].
      * right. destruct (HNfresh y Hy) as (j & Hj & Ej). exists j. split; [lia|exact Ej].
      * left. apply in_or_app. right. apply in_or_app. right. exact Hy.
    + intros y Hy. rewrite Elids in Hy. rewrite Hlids0.
      apply in_app_or in Hy. destruct Hy as [Hy|[<-|Hy]].
      * left. apply in_or_app. left. exact Hy.
      * right. exists (uuid_ix w). split; [lia | reflexivity].
      * left. apply in_or_app. right. exact Hy.
Qed.

Lemma removeLayer_well_formed (prev : NeuralNetwork num) (w : World num) :
  well_formed prev -> generator_ok w prev ->
  exists net' w',
    removeLayer prev w = Some (net', w') /\ well_formed net' /\ generator_ok w' net'.
Proof.
  intros Hwf Hg.
  destruct (removeLayer_invariants prev w Hwf) as (net' & w' & E & Hinv).
  exists net', w'. split; [exact E|].
  destruct (consumes_removeLayer prev _ _ _ E) as (Es & Ei).
  destruct (le_lt_dec (List.length (layers prev)) 2) as [Hmin|Hgt].
  { unfold removeLayer in E.
    replace (List.length (layers prev) <=? 2) with true in E
      by (symmetry; apply Nat.leb_le; exact Hmin).
    injection E as <- <-. split; assumption. }
  destruct (snoc3_of_length (layers prev) ltac:(lia)) as (pre & a & r & b & Hls).
  assert (Hlids : NoDup (map lid (layers prev))) by apply Hwf.
  destruct (removeLayer_eval prev w pre a r b Hls Hlids)
    as (g & cs & w2 & E2 & Hg1 & Hg2 & Hg3 & _).
  rewrite E in E2. injection E2 as En Ew.
  destruct (well_formed_edges prev Hwf) as (Hnd & _).
  assert (Hsh0 : shape (layers prev)
                 = (shape pre ++ [map nid (neurons a); map nid (neurons r);
                                  map nid (neurons b)])%list).
  { rewrite Hls, shape_app. reflexivity. }
  assert (Hsh : shape (layers net')
                = (shape pre ++ [map nid (neurons a); map nid (neurons b)])%list).
  { rewrite En. cbn [layers]. rewrite relayer_shape by exact Hg1.
    rewrite shape_app. reflexivity. }
  assert (Hl' : map lid (layers net') = (map lid pre ++ [lid a; lid b])%list).
  { rewrite En. cbn [layers]. rewrite relayer_lids, map_app. reflexivity. }
  assert (Hl0 : map lid (layers prev) = (map lid pre ++ [lid a; lid r; lid b])%list).
  { rewrite Hls, map_app. reflexivity. }
  split.
  - constructor; [exact Hinv| |].
    + rewrite shape_concat, Hsh. rewrite Hsh0 in Hnd.
      rewrite concat_app in *. simpl in *. rewrite app_nil_r in *.
      rewrite app_assoc in *.
      apply NoDup_remove_middle with (m := map nid (neurons r)). exact Hnd.
    + rewrite Hl'. rewrite Hl0 in Hlids.
      change (map lid pre ++ [lid a; lid b])%list
        with (map lid pre ++ [lid a] ++ [lid b])%list.
      rewrite app_assoc.
      apply NoDup_remove_middle with (m := [lid r]).
      rewrite <- app_assoc. exact Hlids.
  - apply (generator_ok_same_ids w prev net' Hg); [| |exact Es|exact Ei].
    + intros y Hy. rewrite shape_concat, Hsh, concat_app in Hy. simpl in Hy.
      rewrite app_nil_r in Hy.
      rewrite shape_concat, Hsh0, concat_app. simpl. rewrite app_nil_r.
      apply in_app_or in Hy. destruct Hy as [Hy|Hy];
        [apply in_or_app; left; exact Hy|].
      apply in_app_or in Hy. destruct Hy as [Hy|Hy].
      * apply in_or_app. right. apply in_or_app. left. exact Hy.
      * apply in_or_app. right. apply in_or_app. right.
        apply in_or_app. right. exact Hy.
    + intros y Hy. rewrite Hl' in Hy. rewrite Hl0.
      apply in_app_or in Hy. apply in_or_app.
      destruct Hy as [Hy|[<-|[<-|[]]]]; simpl; auto.
Qed.

Lemma addNeuronToLayer_well_formed (k : nat) (prev : NeuralNetwork num)
  (w : World num) :
  well_formed prev -> generator_ok w prev ->
  exists net' w',
    addNeuronToLayer k prev w = Some (net', w') /\
    well_formed net' /\ generator_ok w' net'.
Proof.
  intros Hwf Hg.
  destruct (addNeuronToLayer_invariants k prev w Hwf (proj1 Hg))
    as (net' & w' & E & Hinv).
  exists net', w'. split; [exact E|].
  destruct (nth_error (layers prev) k) as [layer|] eqn:El.
  2:{ unfold addNeuronToLayer in E. rewrite El in E. injection E as <- <-.
      split; assumption. }
  pose proof (nth_error_lt _ _ _ El) as Hk.
  destruct (addNeuronToLayer_world k prev net' w w' Hk E) as (Es & Ei).
  destruct (nth_error_split _ _ El) as (P & Q & Els & HP).
  destruct (addNeuronToLayer_eval k prev w P Q layer Els HP)
    as (new & cs1 & cs2 & w2 & E2 & Hnid & _).
  rewrite E in E2. injection E2 as En Ew.
  destruct (well_formed_edges prev Hwf) as (Hnd & _).
  pose proof Hg as ((Hfr & Hinj) & Hlf).
  assert (Hsh0 : shape (layers prev)
                 = (shape P ++ map nid (neurons layer) :: shape Q)%list).
  { rewrite Els, shape_app. reflexivity. }
  assert (Hsh : shape (layers net')
                = (shape P ++ (map nid (neurons layer) ++ [uuid_seq w (uuid_ix w)])
                   :: shape Q)%list).
  { rewrite En. cbn [layers]. rewrite shape_app. cbn [shape map neurons set_neurons].
    rewrite map_app. cbn [map]. rewrite Hnid. reflexivity. }
  assert (Hl' : map lid (layers net') = map lid (layers prev)).
  { rewrite En, Els. cbn [layers]. rewrite !map_app. reflexivity. }
  assert (Hcat0 : List.concat (shape (layers prev))
                  = ((List.concat (shape P) ++ map nid (neurons layer))
                     ++ List.concat (shape Q))%list).
  { rewrite Hsh0, concat_app. simpl. rewrite app_assoc. reflexivity. }
  assert (Hcat : List.concat (shape (layers net'))
                 = ((List.concat (shape P) ++ map nid (neurons layer))
                    ++ [uuid_seq w (uuid_ix w)] ++ List.concat (shape Q))%list).
  { rewrite Hsh, concat_app. simpl. rewrite <- !app_assoc. reflexivity. }
  split.
  - constructor; [exact Hinv| |].
    + rewrite shape_concat, Hcat. apply NoDup_insert_middle.
      * rewrite <- Hcat0. exact Hnd.
      * repeat constructor. intros [].
      * intros y [<-|[]]. rewrite <- Hcat0, <- shape_concat. apply Hfr. lia.
    + rewrite Hl'. apply Hwf.
  - apply (generator_ok_step w w' prev net' Hg Es); [lia| |].
    + intros y Hy. rewrite shape_concat, Hcat in Hy. rewrite shape_concat, Hcat0.
      apply in_app_or in Hy. destruct Hy as [Hy|Hy];
        [left; apply in_or_app; left; exact Hy|].
      apply in_app_or in Hy. destruct Hy as [[<-|[]]|Hy].
      * right. exists (uuid_ix w). split; [lia | reflexivity].
      * left. apply in_or_app. right. exact Hy.
    + intros y Hy. left. rewrite <- Hl'. exact Hy.
Qed.

Lemma removeNeuron_well_formed (i : string) (prev : NeuralNetwork num)
  (w : World num) :
  well_formed prev -> generator_ok w prev ->
  well_formed (removeNeuron i prev) /\ generator_ok w (removeNeuron i prev).
Proof.
  intros Hwf Hg.
  pose proof (removeNeuron_invariants i prev Hwf) as Hinv.
  destruct (well_formed_edges prev Hwf) as (Hnd & _).
  assert (Hl' : map lid (layers (removeNeuron i prev)) = map lid (layers prev)).
  { cbn [removeNeuron layers]. rewrite map_map. apply map_ext. intros l.
    unfold removeNeuron_layer. destruct (negb _); [reflexivity|].
    destruct (_ =? 1); reflexivity. }
  assert (Hsub : forall y,
            In y (map nid (flatMap_neurons (layers (removeNeuron i prev)))) ->
            In y (map nid (flatMap_neurons (layers prev)))).
  { intros y Hy. rewrite shape_concat in *. apply in_concat in Hy.
    destruct Hy as (xs & Hxs & Hy). unfold shape in Hxs.
    cbn [removeNeuron layers] in Hxs. rewrite map_map in Hxs.
    apply in_map_iff in Hxs. destruct Hxs as (l & <- & Hl).
    destruct (G_ids i l) as (p & _ & Ep). rewrite Ep in Hy.
    apply filter_In in Hy. destruct Hy as (Hy & _).
    apply in_concat. exists (map nid (neurons l)). split; [|exact Hy].
    unfold shape. apply (in_map (fun l => map nid (neurons l))). exact Hl. }
  split.
  - constructor; [exact Hinv| |].
    + rewrite shape_concat. unfold shape. cbn [removeNeuron layers].
      rewrite map_map.
      apply (NoDup_concat_filter (fun l => map nid (neurons l))); [|exact Hnd].
      intros l. destruct (G_ids i l) as (p & _ & Ep). exists p. exact Ep.
    + rewrite Hl'. apply Hwf.
  - apply (generator_ok_same_ids w prev _ Hg); [exact Hsub| |reflexivity|lia].
    intros y Hy. rewrite <- Hl'. exact Hy.
Qed.

Lemma same_layers_well_formed (prev net' : NeuralNetwork num) (w w' : World num) :
  well_formed prev -> generator_ok w prev ->
  editor_invariants net' -> layers net' = layers prev ->
  uuid_seq w' = uuid_seq w -> uuid_ix w <= uuid_ix w' ->
  well_formed net' /\ generator_ok w' net'.
Proof.
  intros Hwf Hg Hinv El Es Ei. split.
  - constructor; [exact Hinv | rewrite El; apply Hwf | rewrite El; apply Hwf].
  - apply (generator_ok_same_ids w prev net' Hg); try assumption;
      intros y Hy; rewrite <- El; exact Hy.
Qed.

Lemma createConnection_layers (f t : string) (prev net' : NeuralNetwork num)
  (w w' : World num) :
  createConnection f t prev w = Some (net', w') -> layers net' = layers prev.
Proof.
  unfold createConnection.
  destruct (find_neuron f _) as [a|]; [|intros H; inversion H; reflexivity].
  destruct (find_neuron t _) as [b|]; [|intros H; inversion H; reflexivity].
  destruct (layerIndex b <=? layerIndex a); [intros H; inversion H; reflexivity|].
  destruct (find _ (connections prev)); intros H; inversion H; reflexivity.
Qed.

(** Every operation of the editor returns, and keeps the network well
    formed and the generator collision-free. *)
Lemma run_op_well_formed (op : editor_op) (prev : NeuralNetwork num) (w : World num) :
  well_formed prev -> generator_ok w prev ->
  exists net' w',
    run_op op prev w = Some (net', w') /\ well_formed net' /\ generator_ok w' net'.
Proof.
  intros Hwf Hg. destruct op as [| |k|i|f t|i]; cbn [run_op].
  - apply addLayer_well_formed; assumption.
  - apply removeLayer_well_formed; assumption.
  - apply addNeuronToLayer_well_formed; assumption.
  - exists (removeNeuron i prev), w. split; [reflexivity|].
    apply removeNeuron_well_formed; assumption.
  - destruct (createConnection_invariants f t prev w Hwf) as (net' & w' & E & Hinv).
    exists net', w'. split; [exact E|].
    destruct (consumes_createConnection f t prev _ _ _ E) as (Es & Ei).
    apply (same_layers_well_formed prev net' w w'); try assumption.
    eapply createConnection_layers. exact E.
  - exists (deleteConnection i prev), w. split; [reflexivity|].
    apply (same_layers_well_formed prev _ w w);
      [exact Hwf | exact Hg | apply deleteConnection_invariants; exact Hwf
       | reflexivity | reflexivity | lia].
Qed.

End EditingSessions.

Section Sessions.

Context {num : Type} {NUM : Number num}.

Lemma skeleton_generator_ok (w : World num) (net net' : NeuralNetwork num) :
  skeleton net' = skeleton net -> generator_ok w net -> generator_ok w net'.
Proof.
  intros E Hg. unfold skeleton in E. injection E as El _.
  apply (generator_ok_same_ids w net net' Hg); [| |reflexivity|lia].
  - intros y Hy. rewrite shape_concat in *.
    rewrite (skeleton_shape _ _ El) in Hy. exact Hy.
  - intros y Hy.
    replace (map lid (layers net)) with (map lid (layers net')); [exact Hy|].
    apply (map_factor layer_skeleton (fun s => fst s)). exact El.
Qed.

Lemma run_action_well_formed (a : app_action num) (prev : NeuralNetwork num)
  (w : World num) :
  well_formed prev -> generator_ok w prev ->
  exists net' w',
    run_action a prev w = Some (net', w') /\ well_formed net' /\
    generator_ok w' net' /\
    (a <> Edit RemoveLayer -> no_duplicate_pairs prev -> no_duplicate_pairs net').
Proof.
  intros Hwf Hg. destruct a as [op|e|lr|]; cbn [run_action].
  - destruct (run_op_well_formed op prev w Hwf Hg) as (net' & w' & E & Hwf' & Hg').
    exists net', w'. split; [exact E|]. split; [exact Hwf'|]. split; [exact Hg'|].
    intros Hop Hnd.
    destruct (other_operations_keep_pairs_distinct op prev w) as (n2 & w2 & E2 & H2);
      try assumption.
    + intros ->. apply Hop. reflexivity.
    + apply Hg.
    + rewrite E in E2. injection E2 as <- <-. exact H2.
  - pose proof (run_value_edit_skeleton e prev) as Es.
    exists (run_value_edit e prev), w. split; [reflexivity|].
    split; [exact (skeleton_well_formed _ _ Es Hwf)|].
    split; [exact (skeleton_generator_ok _ _ _ Es Hg)|].
    intros _. exact (skeleton_pairs _ _ Es).
  - destruct (runForwardPropagation_full prev) as (p & Ep & Hlen & _).
    pose proof (well_formed_count prev Hwf) as Hc.
    destruct (nth_error (layers p) (List.length (layers p) - 1)) as [out|] eqn:Eo.
    2:{ apply nth_error_None in Eo. lia. }
    destruct (runTrainingStep_loss prev p lr out Ep Eo) as (u & Eu).
    pose proof (runTrainingStep_skeleton _ _ _ _ Eu) as Es.
    rewrite Eu. exists u, w. split; [reflexivity|].
    split; [exact (skeleton_well_formed _ _ Es Hwf)|].
    split; [exact (skeleton_generator_ok _ _ _ Es Hg)|].
    intros _. exact (skeleton_pairs _ _ Es).
  - destruct (runForwardPropagation_full prev) as (p & Ep & _).
    pose proof (runForwardPropagation_skeleton _ _ _ Ep) as Es.
    rewrite Ep. exists p, w. split; [reflexivity|].
    split; [exact (skeleton_well_formed _ _ Es Hwf)|].
    split; [exact (skeleton_generator_ok _ _ _ Es Hg)|].
    intros _. exact (skeleton_pairs _ _ Es).
Qed.

End Sessions.

Lemma seed_generator_ok : generator_ok demo_world seed.
Proof.
  split; [exact demo_world_fresh|].
  intros k Hk Hin. cbv [seed getInitialNetwork layers map lid] in Hin.
  unfold demo_world, demo_uuid in Hin. cbn [uuid_seq] in Hin.
  simpl String.append in Hin.
  destruct Hin as [H|[H|[H|[]]]]; discriminate H.
Qed.

Lemma seed_distinct_pairs : no_duplicate_pairs seed.
Proof.
  unfold no_duplicate_pairs. cbv [seed getInitialNetwork connections map endpoints
                                   fromNeuronId toNeuronId nid].
  repeat (constructor; [simpl; intros H;
                        repeat (destruct H as [H|H]; [vm_compute in H; discriminate H|]);
                        exact H|]).
  constructor.
Qed.

(** X26: the data-model invariants hold throughout a session.  From a
    well-formed network, with an id generator that never repeats an id
    and never returns one that the network uses, every sequence of Graph
    Editor operations, value edits, training steps and forward passes
    returns (nothing throws), and the network it ends in is well formed:
    2 to 10 layers, none empty, indices in step with positions, every
    connection between existing neurons and pointing forward, neuron and
    layer ids unique; and the generator is still collision-free for it. *)
Theorem session_keeps_well_formed {num} {NUM : Number num}
  (actions : list (app_action num)) :
  forall (prev : NeuralNetwork num) (w : World num),
  well_formed prev -> generator_ok w prev ->
  exists net' w',
    run_actions actions prev w = Some (net', w') /\
    well_formed net' /\ generator_ok w' net'.
Proof.
  induction actions as [|a actions IH]; intros prev w Hwf Hg; cbn [run_actions].
  - exists prev, w. split; [reflexivity|]. split; assumption.
  - destruct (run_action_well_formed a prev w Hwf Hg)
      as (n1 & w1 & E1 & Hwf1 & Hg1 & _).
    destruct (IH n1 w1 Hwf1 Hg1) as (n2 & w2 & E2 & Hwf2 & Hg2).
    exists n2, w2. split; [|split; assumption].
    unfold bind. rewrite E1. exact E2.
Qed.

Lemma session_keeps_well_formed_witness :
  exists net' w',
    run_actions [Edit AddLayer; TrainStep (lit 0.1);
                 Edit (AddNeuronToLayer 1); Value ResetSimulation;
                 Edit RemoveLayer; ForwardPass] seed demo_world
    = Some (net', w') /\
    well_formed net' /\ generator_ok w' net'.
Proof.
  apply (session_keeps_well_formed
           [Edit AddLayer; TrainStep (lit 0.1); Edit (AddNeuronToLayer 1);
            Value ResetSimulation; Edit RemoveLayer; ForwardPass]
           seed demo_world).
  - exact seed_well_formed.
  - exact seed_generator_ok.
Defined.

(** X27: [removeLayer] is the only way to a duplicate connection.  In a
    session as above that never removes a layer, the ordered
    (from, to) pairs of the connections stay pairwise distinct. *)
Theorem session_without_removeLayer_keeps_pairs_distinct {num} {NUM : Number num}
  (actions : list (app_action num)) :
  forall (prev : NeuralNetwork num) (w : World num),
  ~ In (Edit RemoveLayer) actions ->
  well_formed prev -> generator_ok w prev -> no_duplicate_pairs prev ->
  exists net' w',
    run_actions actions prev w = Some (net', w') /\ no_duplicate_pairs net'.
Proof.
  induction actions as [|a actions IH]; intros prev w Hno Hwf Hg Hnd;
    cbn [run_actions].
  - exists prev, w. split; [reflexivity | exact Hnd].
  - destruct (run_action_well_formed a prev w Hwf Hg)
      as (n1 & w1 & E1 & Hwf1 & Hg1 & Hp1).
    assert (Ha : a <> Edit RemoveLayer).
    { intros ->. apply Hno. left. reflexivity. }
    destruct (IH n1 w1) as (n2 & w2 & E2 & Hnd2); try assumption.
    + intros Hin. apply Hno. right. exact Hin.
    + apply Hp1; assumption.
    + exists n2, w2. split; [|exact Hnd2].
      unfold bind. rewrite E1. exact E2.
Qed.

Lemma session_without_removeLayer_keeps_pairs_distinct_witness :
  exists net' w',
    run_actions [Edit AddLayer; Edit (CreateConnection "uuid-0" "uuid-4");
                 TrainStep (lit 0.1)] seed demo_world
    = Some (net', w') /\ no_duplicate_pairs net'.
Proof.
  apply (session_without_removeLayer_keeps_pairs_distinct
           [Edit AddLayer; Edit (CreateConnection "uuid-0" "uuid-4");
            TrainStep (lit 0.1)] seed demo_world).
  - intros [H|[H|[H|[]]]]; discriminate H.
  - exact seed_well_formed.
  - exact seed_generator_ok.
  - exact seed_distinct_pairs.
Defined.

(** * Training a network that is on target *)

Section Biases.

Context {num : Type} {NUM : Number num}.

Lemma biases_set_nth (g : Neuron num -> Neuron num) (ls : list (Layer num)) :
  forall i l, nth_error ls i = Some l ->
    (forall n, In n (neurons l) -> bias (g n) = bias n) ->
    biases (set_nth i (set_neurons l (map g (neurons l))) ls) = biases ls.
Proof.
  unfold biases. induction ls as [|h t IH]; intros [|i] l H Hg; simpl in H;
    try discriminate.
  - inversion H; subst h. simpl. f_equal. rewrite map_map.
    apply map_ext_in. exact Hg.
  - simpl. f_equal. apply IH; assumption.
Qed.

Lemma forward_loop_biases (k : ActivationFunction) (conns : list (Connection num))
  (fuel : nat) : forall (i : nat) (ls ls' : list (Layer num)),
  forward_loop k conns i fuel ls = Some ls' -> biases ls' = biases ls.
Proof.
  induction fuel as [|fuel IH]; intros i ls ls' H; simpl in H.
  - inversion H. reflexivity.
  - unfold forward_layer in H.
    destruct (nth_error ls i) as [cur|] eqn:Ec; [|discriminate].
    destruct (nth_error ls (i - 1)) as [prv|]; [|discriminate].
    rewrite (IH _ _ _ H). apply biases_set_nth; [exact Ec|]. reflexivity.
Qed.

Lemma backprop_loop_biases (D : num -> num) (conns : list (Connection num))
  (i : nat) : forall ls : list (Layer num),
  biases (backprop_loop D conns i ls) = biases ls.
Proof.
  induction i as [|i IH]; intros ls; [reflexivity|].
  cbn [backprop_loop]. rewrite IH. unfold backprop_layer.
  destruct (nth_error ls (S i)) as [cur|] eqn:Ec; [|reflexivity].
  destruct (nth_error ls (S (S i))) as [nxt|]; [|reflexivity].
  apply biases_set_nth; [exact Ec|]. reflexivity.
Qed.

End Biases.

Section FixedPoint.

Local Open Scope R_scope.

Variable D : R -> R.
Variable conns : list (Connection R).
Variable learningRate : R.

(** A neuron is quiet when no delta of it counts. *)
Local Abbreviation quiet := (fun n : Neuron R => truthy_delta n = None).

Lemma truthy_zero (x : R) : x = 0 -> truthy x = false.
Proof. intros ->. simpl. destruct (Req_dec_T 0 0); [reflexivity | congruence]. Qed.

Lemma output_neuron_quiet (n : Neuron R) :
  activation n = target_or_0 n -> quiet (output_neuron D n).
Proof.
  intros H. unfold truthy_delta, output_neuron. cbn [delta set_delta set_error].
  fold (target_or_0 n). rewrite <- H.
  rewrite truthy_zero; [reflexivity|].
  change ((activation n - activation n) * D (activation n) = 0). ring.
Qed.

Lemma backprop_fold_quiet (nextNeurons : list (Neuron R)) (cs : list (Connection R)) :
  (forall n, In n nextNeurons -> quiet n) ->
  forall e, fold_left (backprop_step nextNeurons) cs e = e.
Proof.
  intros Hq. induction cs as [|c cs IH]; intros e; simpl; [reflexivity|].
  rewrite IH. unfold backprop_step.
  destruct (find_neuron (toNeuronId c) nextNeurons) as [m|] eqn:E; [|reflexivity].
  apply find_neuron_In in E. rewrite (Hq m (proj1 E)). reflexivity.
Qed.

Lemma backprop_neuron_quiet (nextNeurons : list (Neuron R)) (n : Neuron R) :
  (forall m, In m nextNeurons -> quiet m) ->
  quiet (backprop_neuron D conns nextNeurons n).
Proof.
  intros Hq. unfold truthy_delta, backprop_neuron. cbn [delta set_delta].
  rewrite backprop_fold_quiet by exact Hq.
  rewrite truthy_zero; [reflexivity|].
  change (Q2R 0 * D (activation n) = 0). rewrite Q2R_0. ring.
Qed.

Lemma update_bias_quiet (n : Neuron R) : quiet n -> update_bias learningRate n = n.
Proof. intros H. unfold update_bias. rewrite H. reflexivity. Qed.

Lemma update_connection_quiet (ls : list (Layer R)) (c : Connection R) :
  (forall n, In n (flatMap_neurons ls) -> quiet n) ->
  update_connection learningRate ls c = c.
Proof.
  intros Hq. unfold update_connection.
  destruct (find_neuron (fromNeuronId c) _); [|reflexivity].
  destruct (find_neuron (toNeuronId c) _) as [b|] eqn:E; [|reflexivity].
  apply find_neuron_In in E. rewrite (Hq b (proj1 E)). reflexivity.
Qed.

Lemma output_loss_zero (ns : list (Neuron R)) :
  (forall n, In n ns -> activation n = target_or_0 n) ->
  forall a, fold_left output_loss_step ns a = a.
Proof.
  induction ns as [|n ns IH]; intros H a; cbn [fold_left]; [reflexivity|].
  rewrite IH by (intros m Hm; apply H; right; exact Hm).
  unfold output_loss_step. cbv zeta.
  change (match target n with Some t => t | None => lit 0 end)
    with (target_or_0 n).
  rewrite <- (H n (or_introl eq_refl)).
  change (a + (activation n - activation n) ^ 2 = a). ring.
Qed.

(** After the output step and the backward loop, every neuron is quiet. *)
Lemma backward_pass_quiet (ls : list (Layer R)) (out : Layer R) :
  let len := List.length ls in
  nth_error ls (len - 1) = Some out ->
  (forall n, In n (neurons out) -> activation n = target_or_0 n) ->
  (forall l n, nth_error ls 0 = Some l -> In n (neurons l) -> (0 <> len - 1)%nat ->
               quiet n) ->
  let ls2 := set_nth (len - 1)
               (set_neurons out (map (output_neuron D) (neurons out))) ls in
  let ls3 := backprop_loop D conns (len - 2) ls2 in
  forall k p l, (p + k = len - 1)%nat -> nth_error ls3 p = Some l ->
    forall n, In n (neurons l) -> quiet n.
Proof.
  intros len Eo Hout H0 ls2 ls3.
  assert (Hlen : (0 < len)%nat) by (apply nth_error_lt in Eo; lia).
  assert (Hl2 : List.length ls2 = len) by apply set_nth_length.
  destruct (backprop_loop_spec D conns (len - 2) ls2) as (Hl3 & Hsame & Hin).
  { rewrite Hl2. lia. }
  fold ls3 in Hl3, Hsame, Hin.
  induction k as [|k IH]; intros p l Hp El n Hn.
  - assert (p = (len - 1)%nat) by lia. subst p.
    rewrite Hsame in El by lia. unfold ls2 in El.
    rewrite nth_error_set_nth_eq in El by lia. inversion El; subst l.
    cbn [neurons set_neurons] in Hn. apply in_map_iff in Hn.
    destruct Hn as (m & <- & Hm). apply output_neuron_quiet. apply Hout. exact Hm.
  - destruct (Nat.eq_dec p 0) as [->|Hp0].
    + rewrite Hsame in El by lia. unfold ls2 in El.
      rewrite nth_error_set_nth_ne in El by lia.
      apply (H0 l n El Hn). lia.
    + destruct (Hin p ltac:(lia)) as (cur & nxt & _ & Enxt & Ecur).
      rewrite Ecur in El. inversion El; subst l.
      cbn [neurons set_neurons] in Hn. apply in_map_iff in Hn.
      destruct Hn as (m & <- & Hm). apply backprop_neuron_quiet.
      intros q Hq. apply (IH (S p) nxt ltac:(lia) Enxt q Hq).
Qed.

End FixedPoint.

(** X28: a network that is on target is a fixed point of training.  When
    the forward pass puts every neuron of a non-empty output layer exactly
    on its target, 0 for a neuron without one (and no input neuron carries
    a delta other than 0), a training step reports
    the loss 0 and changes no weight and no bias, whatever the learning
    rate: every delta it computes is 0, and a delta of 0 updates
    nothing. *)
Theorem training_on_target_is_fixed_point (network : NeuralNetwork R)
  (learningRate : R) :
  on_target network -> inputs_without_delta network ->
  exists updated,
    runTrainingStep network learningRate = Some (updated, 0%R) /\
    connections updated = connections network /\
    biases (layers updated) = biases (layers network).
Proof.
  intros (p & out & Ep & Eo & Hne & Hout) H0.
  destruct (runForwardPropagation_frame network None (le_n _))
    as (p' & Ep' & Hc & Hk & Hlen & Hl).
  rewrite Ep in Ep'. injection Ep' as <-.
  assert (Hb : biases (layers p) = biases (layers network)).
  { unfold runForwardPropagation in Ep. cbv zeta in Ep.
    destruct (forward_loop _ _ 1 _ (layers network)) as [ls|] eqn:E; [|discriminate].
    injection Ep as <-. cbn [layers]. eapply forward_loop_biases. exact E. }
  set (D := activationDerivatives (activationFunction p)).
  set (len := List.length (layers p)).
  set (ls2 := set_nth (len - 1)
                (set_neurons out (map (output_neuron D) (neurons out))) (layers p)).
  set (ls3 := backprop_loop D (connections p) (len - 2) ls2).
  assert (Hpos : 0 < len) by (apply nth_error_lt in Eo; unfold len; lia).
  assert (Hl3 : List.length ls3 = len).
  { unfold ls3. destruct (backprop_loop_spec D (connections p) (len - 2) ls2)
      as (H3 & _).
    - unfold ls2. rewrite set_nth_length. fold len. lia.
    - rewrite H3. unfold ls2. apply set_nth_length. }
  assert (Hq : forall i l n, nth_error ls3 i = Some l -> In n (neurons l) ->
                             truthy_delta n = None).
  { intros i l n El Hn.
    assert (Hi : i < len) by (rewrite <- Hl3; eapply nth_error_lt; exact El).
    apply (backward_pass_quiet D (connections p) (layers p) out Eo Hout)
      with (k := len - 1 - i) (p := i) (l := l).
    - intros l0 n0 El0 Hn0 _.
      destruct (nth_error (layers network) 0) as [l1|] eqn:E1.
      + destruct (Hl 0 l1 E1) as (l' & El' & _ & _ & Heq).
        rewrite El0 in El'. injection El' as <-.
        rewrite (Heq (or_introl eq_refl)) in Hn0. exact (H0 l1 n0 E1 Hn0).
      + apply nth_error_None in E1. apply nth_error_lt in El0. lia.
    - fold len. lia.
    - exact El.
    - exact Hn. }
  assert (Hflat : forall n, In n (flatMap_neurons ls3) -> truthy_delta n = None).
  { intros n Hn. apply In_flatMap_neurons in Hn. destruct Hn as (i & l & El & Hn).
    exact (Hq i l n El Hn). }
  assert (Hbias : bias_loop learningRate 1 (len - 1) ls3 = ls3).
  { destruct (bias_loop_spec learningRate (len - 1) 1 ls3 ltac:(lia))
      as (H5 & Hsame & Hin).
    apply nth_error_ext. intros i.
    destruct (le_lt_dec 1 i) as [H1|H1]; [|apply Hsame; lia].
    destruct (le_lt_dec len i) as [H2|H2]; [apply Hsame; lia|].
    destruct (Hin i ltac:(lia)) as (l & El & Ei). rewrite Ei, El. f_equal.
    transitivity (mkLayer (lid l) (neurons l)); [|apply layer_eta].
    unfold set_neurons. f_equal.
    rewrite <- (map_id (neurons l)) at 2. apply map_ext_in.
    intros n Hn. apply update_bias_quiet. exact (Hq i l n El Hn). }
  exists (mkNetwork ls3 (connections p) (activationFunction p)).
  split; [|split].
  - unfold runTrainingStep. rewrite Ep, Eo. cbv zeta.
    fold len. fold D. fold ls2. fold ls3. rewrite Hbias.
    f_equal. f_equal.
    + f_equal. rewrite <- (map_id (connections p)) at 2. apply map_ext_in.
      intros c _. apply update_connection_quiet. exact Hflat.
    + rewrite output_loss_zero by exact Hout.
      change (Q2R 0 / INR (List.length (neurons out)) = 0)%R.
      rewrite Q2R_0. unfold Rdiv. ring.
  - cbn [connections]. exact Hc.
  - cbn [layers]. rewrite <- Hb. unfold ls3. rewrite backprop_loop_biases.
    unfold ls2. apply biases_set_nth; [exact Eo|]. reflexivity.
Qed.

Lemma content_net_on_target : on_target content_net.
Proof.
  unfold on_target. eexists. eexists.
  split; [run_engine; reflexivity|]. split; [reflexivity|].
  split; [discriminate|].
  intros n [<-|[]]. cbn [activation]. unfold target_or_0. cbn [target].
  change (Rmax (Q2R 0) (Q2R 0 + Q2R 1 * Q2R (-1) + Q2R 0) = Q2R 0).
  rewrite Q2R_0, Q2R_1, Q2R_m1. apply Rmax_left. lra.
Qed.

Lemma training_on_target_is_fixed_point_witness :
  exists updated,
    runTrainingStep content_net (lit 0.1) = Some (updated, 0%R) /\
    connections updated = connections content_net /\
    biases (layers updated) = biases (layers content_net).
Proof.
  apply (training_on_target_is_fixed_point content_net (lit 0.1)).
  - exact content_net_on_target.
  - intros l n Hl Hn. cbv [content_net layers nth_error] in Hl.
    injection Hl as <-. destruct Hn as [<-|[]]. reflexivity.
Defined.

(** * Adding a hidden layer and removing it again *)

Section LayerRoundTrip.

Context {num : Type} {NUM : Number num}.

Lemma mapi_from_app {A B} (f : nat -> A -> B) (X Y : list A) : forall s,
  mapi_from s f (X ++ Y)
  = (mapi_from s f X ++ mapi_from (s + List.length X) f Y)%list.
Proof.
  induction X as [|x X IH]; intros s; simpl.
  - rewrite Nat.add_0_r. reflexivity.
  - rewrite IH. replace (S s + List.length X) with (s + S (List.length X)) by lia.
    reflexivity.
Qed.

(** Re-indexing leaves alone the layers whose neurons it does not change. *)
Lemma mapi_from_layers_fixed (g : nat -> Neuron num -> Neuron num)
  (ls : list (Layer num)) : forall s,
  (forall i l n, nth_error ls i = Some l -> In n (neurons l) -> g (s + i) n = n) ->
  mapi_from s (fun i l => set_neurons l (map (g i) (neurons l))) ls = ls.
Proof.
  induction ls as [|h t IH]; intros s H; simpl; [reflexivity|]. f_equal.
  - transitivity (mkLayer (lid h) (neurons h)); [|apply layer_eta].
    unfold set_neurons. f_equal. rewrite <- (map_id (neurons h)) at 2.
    apply map_ext_in. intros n Hn. rewrite <- (Nat.add_0_r s).
    apply (H 0 h n eq_refl Hn).
  - apply IH. intros i l n Hl Hn.
    replace (S s + i) with (s + S i) by lia. apply (H (S i) l n Hl Hn).
Qed.

Lemma set_layerIndex_same (n : Neuron num) : set_layerIndex n (layerIndex n) = n.
Proof. destruct n; reflexivity. Qed.

Lemma Set_has_true (ids : list string) (x : string) :
  Set_has ids x = true <-> In x ids.
Proof.
  destruct (Set_has ids x) eqn:E; split; intros H; try reflexivity;
    try discriminate.
  - unfold Set_has in E. apply existsb_exists in E. destruct E as (y & Hy & Exy).
    apply String.eqb_eq in Exy. subst y. exact Hy.
  - apply Set_has_false in E. contradiction.
Qed.

(** [removeLayer] above the floor, with the re-indexing spelled out. *)
Lemma removeLayer_eval_reindex (prev : NeuralNetwork num) (w : World num)
  (pre : list (Layer num)) (a r b : Layer num) :
  layers prev = (pre ++ [a; r; b])%list ->
  NoDup (map lid (layers prev)) ->
  exists cs w',
    removeLayer prev w
    = Some (mkNetwork
              (relayer
                 (fun index neuron =>
                    if index =? List.length pre + 1
                    then set_nx (set_layerIndex neuron index)
                                (sub (nx (set_layerIndex neuron index)) (lit 150))
                    else set_layerIndex neuron index)
                 (pre ++ [a; b]))
              (filter (fun c => negb (Set_has (map nid (neurons r)) (fromNeuronId c))
                                && negb (Set_has (map nid (neurons r)) (toNeuronId c)))
                      (connections prev)
               ++ cs)%list
              (activationFunction prev), w') /\
    (forall e, In e (map endpoints cs) <->
               In (fst e) (map nid (neurons a)) /\ In (snd e) (map nid (neurons b))).
Proof.
  intros Hls Hnd. unfold removeLayer.
  assert (Hlen : List.length (layers prev) = List.length pre + 3).
  { rewrite Hls, length_app. reflexivity. }
  replace (List.length (layers prev) <=? 2) with false
    by (symmetry; apply Nat.leb_gt; lia).
  destruct (nth_error_snoc3 pre a r b) as (Er & Ea & Eb).
  rewrite Hls in *. rewrite Er, Ea, Eb.
  replace (pre ++ [a; r; b])%list with ((pre ++ [a]) ++ r :: [b])%list in *
    by (rewrite <- app_assoc; reflexivity).
  rewrite (filter_lid_unique (pre ++ [a]) [b] r Hnd).
  replace ((pre ++ [a]) ++ [b])%list with (pre ++ [a; b])%list
    by (rewrite <- app_assoc; reflexivity).
  destruct (fully_connect_endpoints (neurons a) (neurons b) w)
    as (cs & w' & E & _ & Hcs).
  unfold bind. rewrite E. unfold ret.
  exists cs, w'. split; [|exact Hcs].
  replace (List.length (pre ++ [a; b]) - 1) with (List.length pre + 1)
    by (rewrite length_app; simpl; lia).
  reflexivity.
Qed.

End LayerRoundTrip.

(** X29: removing the hidden layer just added restores the layers.  On a
    well-formed network below the cap, [addLayer] followed by
    [removeLayer] gives back every layer exactly (the output layer is
    shifted by 150 and back, the indices are as before); of the
    connections, those between the last hidden layer and the output layer
    are not restored: they are replaced by a full set of new connections
    between these two layers, with new ids and weights, while every other
    connection is kept. *)
Theorem addLayer_then_removeLayer (prev : NeuralNetwork R) (w : World R)
  (pre : list (Layer R)) (a b : Layer R) :
  well_formed prev -> generator_ok w prev ->
  List.length (layers prev) < 10 -> layers prev = (pre ++ [a; b])%list ->
  exists net1 w1 net2 w2 cs,
    addLayer prev w = Some (net1, w1) /\
    removeLayer net1 w1 = Some (net2, w2) /\
    layers net2 = layers prev /\
    activationFunction net2 = activationFunction prev /\
    connections net2
    = (filter (fun c => negb (Set_has (map nid (neurons a)) (fromNeuronId c)
                              && Set_has (map nid (neurons b)) (toNeuronId c)))
              (connections prev)
       ++ cs)%list /\
    (forall e, In e (map endpoints cs) <->
               In (fst e) (map nid (neurons a)) /\ In (snd e) (map nid (neurons b))).
Proof.
  intros Hwf Hg Hlt Hls.
  destruct (addLayer_well_formed prev w Hwf Hg) as (net1 & w1 & E1 & Hwf1 & Hg1).
  destruct (addLayer_eval prev w pre a b Hls Hlt)
    as (newId & newN & cs1 & cs2 & w1' & E1' & HNid & _ & H1 & H2 & _).
  rewrite E1 in E1'. injection E1' as En1 Ew1.
  pose proof Hwf as [[_ _ Hli _ _] _ _].
  pose proof Hg as ((Hfr & _) & _).
  set (b' := set_neurons b (map (fun n => set_nx n (add (nx n) (lit 150))) (neurons b)))
    in *.
  set (N := set_neurons (mkLayer newId newN)
              (map (fun n => set_layerIndex n (List.length pre + 1)) newN)).
  set (B := set_neurons b'
              (map (fun n => set_layerIndex n (S (List.length pre + 1))) (neurons b'))).
  assert (Hfix : forall i l n, nth_error (pre ++ [a]) i = Some l ->
                   In n (neurons l) -> layerIndex n = i).
  { intros i l n Hl Hn. apply (Hli i l n); [|exact Hn]. rewrite Hls.
    replace (pre ++ [a; b])%list with ((pre ++ [a]) ++ [b])%list
      by (rewrite <- app_assoc; reflexivity).
    rewrite nth_error_app1; [exact Hl|]. eapply nth_error_lt. exact Hl. }
  assert (Hlb : forall n, In n (neurons b) -> layerIndex n = List.length pre + 1).
  { intros n Hn. apply (Hli _ b n); [|exact Hn]. rewrite Hls.
    rewrite nth_error_app2 by lia.
    replace (List.length pre + 1 - List.length pre) with 1 by lia. reflexivity. }
  assert (EL1 : layers net1 = (pre ++ [a; N; B])%list).
  { rewrite En1. cbn [layers]. unfold reindex_layers, mapi.
    rewrite mapi_from_app.
    rewrite (mapi_from_layers_fixed (fun i n => set_layerIndex n i)).
    - rewrite length_app. cbn [List.length Nat.add mapi_from].
      rewrite <- app_assoc. reflexivity.
    - intros i l n Hl Hn. cbn [Nat.add]. rewrite <- (Hfix i l n Hl Hn).
      apply set_layerIndex_same. }
  assert (Hlids1 : NoDup (map lid (layers net1))) by apply Hwf1.
  destruct (removeLayer_eval_reindex net1 w1 pre a N B EL1 Hlids1)
    as (cs & w2 & E2 & Hcs).
  eexists. eexists. eexists. eexists. exists cs.
  split; [exact E1|]. split; [exact E2|].
  cbn [layers connections activationFunction].
  split; [|split; [|split]].
  - rewrite Hls. unfold relayer, mapi.
    replace (pre ++ [a; B])%list with ((pre ++ [a]) ++ [B])%list
      by (rewrite <- app_assoc; reflexivity).
    rewrite mapi_from_app.
    rewrite (mapi_from_layers_fixed
               (fun index neuron =>
                  if index =? List.length pre + 1
                  then set_nx (set_layerIndex neuron index)
                              (sub (nx (set_layerIndex neuron index)) (lit 150))
                  else set_layerIndex neuron index)).
    + rewrite length_app. cbn [List.length Nat.add mapi_from].
      rewrite Nat.eqb_refl. rewrite <- app_assoc. cbn [app]. do 3 f_equal.
      transitivity (mkLayer (lid b) (neurons b)); [|apply layer_eta].
      unfold B, b', set_neurons. cbn [lid neurons]. f_equal.
      rewrite !map_map. rewrite <- (map_id (neurons b)) at 2.
      apply map_ext_in. intros n Hn. pose proof (Hlb n Hn) as Hi.
      destruct n as [i0 li ni x y bi ac tg er de]. cbn in Hi. subst li.
      unfold set_nx, set_layerIndex. cbn. f_equal.
      change (x + Q2R 150 - Q2R 150 = x)%R. ring.
    + intros i l n Hl Hn. cbn [Nat.add].
      pose proof (nth_error_lt _ _ _ Hl) as Hi. rewrite length_app in Hi.
      cbn [List.length] in Hi.
      destruct (Nat.eqb_spec i (List.length pre + 1)) as [E|_]; [lia|].
      rewrite <- (Hfix i l n Hl Hn). apply set_layerIndex_same.
  - rewrite En1. reflexivity.
  - rewrite En1. cbn [connections]. f_equal.
    assert (HidsN : map nid (neurons N) = map nid newN).
    { unfold N. cbn [neurons set_neurons]. rewrite map_map. reflexivity. }
    rewrite HidsN. rewrite !filter_app.
    rewrite (filter_none _ cs1), (filter_none _ cs2).
    + rewrite !app_nil_r. apply filter_all. intros c Hc.
      apply filter_In in Hc. destruct Hc as (Hc & _).
      destruct (well_formed_endpoints prev (endpoints c) Hwf
                  (in_map endpoints _ _ Hc)) as (Hf & Ht).
      rewrite <- shape_concat in Hf, Ht. cbn [endpoints fst snd] in Hf, Ht.
      assert (Hnew : forall y, In y (map nid (flatMap_neurons (layers prev))) ->
                               Set_has (map nid newN) y = false).
      { intros y Hy. apply Set_has_false. intros Hin. rewrite HNid in Hin.
        apply in_map_iff in Hin. destruct Hin as (j & <- & Hj). apply in_seq in Hj.
        apply (Hfr j); [lia | exact Hy]. }
      rewrite (Hnew _ Hf), (Hnew _ Ht). reflexivity.
    + intros c Hc. apply (in_map endpoints) in Hc. apply H2 in Hc.
      destruct Hc as (Hf & _). cbn [endpoints fst] in Hf.
      apply Set_has_true in Hf. rewrite Hf. reflexivity.
    + intros c Hc. apply (in_map endpoints) in Hc. apply H1 in Hc.
      destruct Hc as (_ & Ht). cbn [endpoints snd] in Ht.
      apply Set_has_true in Ht. rewrite Ht. apply andb_false_r.
  - intros e. rewrite Hcs.
    assert (HidsB : map nid (neurons B) = map nid (neurons b)).
    { unfold B, b'. cbn [neurons set_neurons]. rewrite !map_map. reflexivity. }
    rewrite HidsB. reflexivity.
Qed.

Lemma addLayer_then_removeLayer_witness :
  exists net1 w1 net2 w2 cs,
    addLayer seed demo_world = Some (net1, w1) /\
    removeLayer net1 w1 = Some (net2, w2) /\
    layers net2 = layers seed /\
    activationFunction net2 = activationFunction seed /\
    connections net2
    = (filter (fun c => negb (Set_has ["uuid-2"; "uuid-3"] (fromNeuronId c)
                              && Set_has ["uuid-4"] (toNeuronId c)))
              (connections seed)
       ++ cs)%list /\
    (forall e, In e (map endpoints cs) <->
               In (fst e) ["uuid-2"; "uuid-3"] /\ In (snd e) ["uuid-4"]).
Proof.
  apply (addLayer_then_removeLayer seed demo_world
           (firstn 1 (layers seed))
           (nth 1 (layers seed) (mkLayer EmptyString []))
           (nth 2 (layers seed) (mkLayer EmptyString []))).
  - exact seed_well_formed.
  - exact seed_generator_ok.
  - simpl. lia.
  - reflexivity.
Defined.

(** * The initial state *)

Section InitialNetwork.

Context {num : Type} {NUM : Number num}.
Variable u : nat -> string.
Hypothesis u_injective : forall k k', u k = u k' -> k = k'.

Lemma initial_ids_differ (i j : nat) : i <> j -> (u i =? u j)%string = false.
Proof.
  intros H. apply String.eqb_neq. intros E. apply H. apply u_injective. exact E.
Qed.

Lemma initial_ids :
  map nid (flatMap_neurons (layers (getInitialNetwork (num:=num) u)))
  = map u (seq 0 5).
Proof. reflexivity. Qed.

Ltac lookup_initial :=
  cbv [find_neuron flatMap_neurons flat_map getInitialNetwork layers neurons app
       find nid];
  repeat first [ rewrite String.eqb_refl
               | rewrite initial_ids_differ by lia ];
  reflexivity.

Lemma initial_network_invariants : editor_invariants (getInitialNetwork (num:=num) u).
Proof.
  constructor.
  - simpl. lia.
  - intros l [<-|[<-|[<-|[]]]]; discriminate.
  - intros i l n Hl Hn.
    destruct i as [|[|[|i]]]; simpl in Hl; try (destruct i; discriminate);
      inversion Hl; subst l; simpl in Hn;
      repeat (destruct Hn as [<-|Hn]; [reflexivity|]); contradiction.
  - intros l [<-|[<-|[<-|[]]]]; reflexivity.
  - intros c Hc. simpl in Hc.
    repeat (destruct Hc as [<-|Hc];
            [unfold connection_forward; cbn [fromNeuronId toNeuronId];
             eexists; eexists; split; [lookup_initial|];
             split; [lookup_initial | simpl; lia]|]).
    contradiction.
Qed.

Lemma initial_network_pairs : no_duplicate_pairs (getInitialNetwork (num:=num) u).
Proof.
  unfold no_duplicate_pairs.
  cbv [getInitialNetwork connections map endpoints fromNeuronId toNeuronId nid].
  repeat (constructor;
          [simpl; intros H;
           repeat (destruct H as [H|H];
                   [inversion H;
                    repeat match goal with
                           | E : u _ = u _ |- _ => apply u_injective in E
                           end; lia|]);
           exact H|]).
  constructor.
Qed.

End InitialNetwork.

(** X30: the initial state satisfies the invariants.  When [uuidv4()]
    never returns the same id twice and never a single character, the
    network of [getInitialNetwork()] is well formed, its connection pairs
    are distinct, and the generator, after the eleven ids of the initial
    network or more, is collision-free for it: the initial state is a
    starting point for the sessions above. *)
Theorem initial_network_well_formed {num} {NUM : Number num}
  (u : nat -> string) (r : nat -> num) (ix rix : nat) :
  (forall k k', u k = u k' -> k = k') ->
  (forall k, 1 < String.length (u k)) ->
  11 <= ix ->
  well_formed (getInitialNetwork u) /\
  generator_ok (mkWorld u ix r rix) (getInitialNetwork u) /\
  no_duplicate_pairs (getInitialNetwork u).
Proof.
  intros Hinj Hlen Hix.
  assert (Hids : NoDup (map nid (flatMap_neurons (layers (getInitialNetwork (num:=num) u))))).
  { rewrite initial_ids. apply NoDup_map_seq. intros k k' _ _. apply Hinj. }
  split; [|split].
  - constructor.
    + apply initial_network_invariants. exact Hinj.
    + exact Hids.
    + cbv [getInitialNetwork layers map lid].
      repeat constructor; simpl; intuition discriminate.
  - split; [split|]; cbn [uuid_seq uuid_ix].
    + intros k Hk Hin. rewrite initial_ids in Hin. apply in_map_iff in Hin.
      destruct Hin as (j & Ej & Hj). apply in_seq in Hj. apply Hinj in Ej. lia.
    + intros k k' _ _. apply Hinj.
    + intros k Hk Hin. cbv [getInitialNetwork layers map lid] in Hin.
      pose proof (Hlen k) as Hl.
      destruct Hin as [H|[H|[H|[]]]];
        change ("layer-0") with ("layer-" ++ "0")%string in H;
        change ("layer-1") with ("layer-" ++ "1")%string in H;
        change ("layer-2") with ("layer-" ++ "2")%string in H;
        apply layer_prefix_injective in H; rewrite <- H in Hl; simpl in Hl; lia.
  - apply initial_network_pairs. exact Hinj.
Qed.

Lemma initial_network_well_formed_witness :
  well_formed seed /\ generator_ok demo_world seed /\ no_duplicate_pairs seed.
Proof.
  apply (initial_network_well_formed demo_uuid (fun _ => 0%R) 11 0).
  - exact demo_uuid_injective.
  - intros k. unfold demo_uuid. simpl. lia.
  - lia.
Defined.
